(** * ccxt-mcp-server: cross-venue analytics pipeline

    A shallow embedding of the fee model ([config/exchange-fees.ts]), the
    adaptive rate limiter ([rate-limiting/adaptive-limiter.ts]), the market
    data cache ([cache/lru-cache-manager.ts]) and the arbitrage scanner
    ([AdvancedArbitrageScanner]), with the properties the specification
    states about them.

    Conventions of the embedding.
    - A JavaScript [number] is an exact rational or [NaN].  Rounding,
      overflow and the infinities of IEEE doubles are not represented.
      [NaN] also stands for [undefined] in a number-typed position: both are
      falsy, both make every comparison false and both poison arithmetic.
      An equation between computed numbers gives the operations of the
      code in their order.  A bound is one that rounding cannot cross: a
      bound that a rounded sum or product can reach is stated as reached
      (a product of positive factors is not negative, for it can underflow
      to zero), and where an overflow would end in [NaN] the inputs are
      kept to ordinary sizes by hypothesis.
    - Strings are byte strings; [toLowerCase] acts on the ASCII letters.
    - Asynchronous code is run to completion one call at a time; time is a
      clock in the runtime state, advanced by [sleep]. *)

From Stdlib Require Import QArith Qround Qabs Lqa ZArith Lia List Bool.
From Stdlib Require Import Sorting.Sorted Sorting.Permutation.
From Stdlib Require Import Strings.String Strings.Ascii.
From stdpp Require Import base option strings gmap list pretty.

Local Open Scope Q_scope.

(** ** JavaScript numbers *)

Module JsNum.

Inductive number : Type :=
| Num (q : Q)
| NaN.

Definition lift2 (f : Q -> Q -> Q) (a b : number) : number :=
  match a, b with
  | Num x, Num y => Num (f x y)
  | _, _ => NaN
  end.

Definition add : number -> number -> number := lift2 Qplus.
Definition sub : number -> number -> number := lift2 Qminus.
Definition mul : number -> number -> number := lift2 Qmult.

(** [x / 0] is an infinity (or [NaN] for [0 / 0]) in JavaScript; the
    embedding has no infinities and answers [NaN].  Every division of the
    modelled code that can be reached has a positive divisor. *)
Definition div (a b : number) : number :=
  match a, b with
  | Num x, Num y => if Qeq_bool y 0 then NaN else Num (x / y)
  | _, _ => NaN
  end.

Definition Qlt_bool (x y : Q) : bool := negb (Qle_bool y x).

(** Relational operators: false as soon as one side is [NaN]. *)
Definition ltb (a b : number) : bool :=
  match a, b with Num x, Num y => Qlt_bool x y | _, _ => false end.
Definition leb (a b : number) : bool :=
  match a, b with Num x, Num y => Qle_bool x y | _, _ => false end.
Definition gtb (a b : number) : bool := ltb b a.
Definition geb (a b : number) : bool := leb b a.

(** ToBoolean on a number: [0] and [NaN] are falsy. *)
Definition truthy (a : number) : bool :=
  match a with Num x => negb (Qeq_bool x 0) | NaN => false end.

(** [Math.min] and [Math.max]: [NaN] if either argument is. *)
Definition min (a b : number) : number :=
  lift2 (fun x y => if Qle_bool x y then x else y) a b.
Definition max (a b : number) : number :=
  lift2 (fun x y => if Qle_bool x y then y else x) a b.

(** Agreement of two numbers as values (rationals up to [==]). *)
Definition eqv (a b : number) : Prop :=
  match a, b with
  | Num x, Num y => x == y
  | NaN, NaN => True
  | _, _ => False
  end.

(** [lo <= a <= hi], which no [NaN] satisfies. *)
Definition between (lo hi : Q) (a : number) : Prop :=
  match a with Num x => lo <= x <= hi | NaN => False end.

Definition is_num (a : number) : Prop :=
  match a with Num _ => True | NaN => False end.

End JsNum.

Import JsNum.

Declare Scope js_scope.
Delimit Scope js_scope with js.
Infix "+" := add : js_scope.
Infix "-" := sub : js_scope.
Infix "*" := mul : js_scope.
Infix "/" := div : js_scope.
Infix "<?" := ltb : js_scope.
Infix "<=?" := leb : js_scope.
Infix ">?" := gtb : js_scope.
Infix ">=?" := geb : js_scope.

(** ** Strings *)

Module JsString.

Definition lower_ascii (c : ascii) : ascii :=
  let n := nat_of_ascii c in
  if (Nat.leb 65 n && Nat.leb n 90)%bool then ascii_of_nat (n + 32) else c.

(** [String.prototype.toLowerCase], on ASCII. *)
Fixpoint toLowerCase (s : string) : string :=
  match s with
  | EmptyString => EmptyString
  | String c s' => String (lower_ascii c) (toLowerCase s')
  end.

(** [String.prototype.includes]. *)
Fixpoint includes (s sub : string) : bool :=
  String.prefix sub s ||
  match s with
  | EmptyString => false
  | String _ s' => includes s' sub
  end.

Definition upper_ascii (c : ascii) : ascii :=
  let n := nat_of_ascii c in
  if (Nat.leb 97 n && Nat.leb n 122)%bool then ascii_of_nat (n - 32) else c.

(** [String.prototype.toUpperCase], on ASCII. *)
Fixpoint toUpperCase (s : string) : string :=
  match s with
  | EmptyString => EmptyString
  | String c s' => String (upper_ascii c) (toUpperCase s')
  end.

(** The ASCII characters the class [\s] and [trim] take for white space:
    tab, line feed, vertical tab, form feed, carriage return and space. *)
Definition is_space (c : ascii) : bool :=
  let n := nat_of_ascii c in
  (Nat.leb 9 n && Nat.leb n 13)%bool || Nat.eqb n 32.

(** [s.replace(/\s+/g, new)]: every run of white space becomes one [new].
    [in_run] tells whether the previous character was white space. *)
Fixpoint replace_spaces (new : ascii) (in_run : bool) (s : string) : string :=
  match s with
  | EmptyString => EmptyString
  | String c s' =>
      if is_space c then
        if in_run then replace_spaces new true s'
        else String new (replace_spaces new true s')
      else String c (replace_spaces new false s')
  end.

(** [s.replace(/c/g, new)] for a character [c]. *)
Fixpoint replace_char (c new : ascii) (s : string) : string :=
  match s with
  | EmptyString => EmptyString
  | String x s' => String (if Ascii.eqb x c then new else x) (replace_char c new s')
  end.

Fixpoint trimStart (s : string) : string :=
  match s with
  | String c s' => if is_space c then trimStart s' else s
  | EmptyString => EmptyString
  end.

(** [trimEnd]: a character is kept if it is not white space or if
    something is kept after it. *)
Fixpoint trimEnd (s : string) : string :=
  match s with
  | EmptyString => EmptyString
  | String c s' =>
      match trimEnd s' with
      | EmptyString => if is_space c then EmptyString else String c EmptyString
      | kept => String c kept
      end
  end.

(** [String.prototype.trim] *)
Definition trim (s : string) : string := trimEnd (trimStart s).

(** [s.split(sep).pop()] for a one-character separator: what follows the
    last [sep], or all of [s] if there is none. *)
Fixpoint after_last (sep : ascii) (s : string) : option string :=
  match s with
  | EmptyString => None
  | String c s' =>
      match after_last sep s' with
      | Some rest => Some rest
      | None => if Ascii.eqb c sep then Some s' else None
      end
  end.

Definition split_pop (sep : ascii) (s : string) : string :=
  match after_last sep s with Some rest => rest | None => s end.

Definition digit_value (c : ascii) : option Z :=
  let n := nat_of_ascii c in
  if (Nat.leb 48 n && Nat.leb n 57)%bool then Some (Z.of_nat (n - 48)) else None.

Definition hex_value (c : ascii) : option Z :=
  let n := nat_of_ascii c in
  if (Nat.leb 48 n && Nat.leb n 57)%bool then Some (Z.of_nat (n - 48))
  else if (Nat.leb 97 n && Nat.leb n 102)%bool then Some (Z.of_nat (n - 87))
  else if (Nat.leb 65 n && Nat.leb n 70)%bool then Some (Z.of_nat (n - 55))
  else None.

(** The value of the longest prefix of [s] made of digits; [acc] is the
    value so far, [None] as long as no digit was read. *)
Fixpoint read_digits (value : ascii -> option Z) (radix : Z) (acc : option Z)
    (s : string) : option Z :=
  match s with
  | EmptyString => acc
  | String c s' =>
      match value c with
      | Some d =>
          read_digits value radix
            (Some (radix * match acc with Some n => n | None => 0 end + d)%Z) s'
      | None => acc
      end
  end.

(** [parseInt(s)] without a radix: white space is skipped, a sign read,
    then the digits as far as they go, hexadecimal after [0x] or [0X];
    [NaN] when there is no digit. *)
Definition parseInt (s : string) : number :=
  let s := trimStart s in
  let '(sign, s) :=
    match s with
    | String "-" s' => ((-1)%Z, s')
    | String "+" s' => (1%Z, s')
    | _ => (1%Z, s)
    end in
  let digits :=
    match s with
    | String "0" (String "x" s') | String "0" (String "X" s') =>
        read_digits hex_value 16 None s'
    | _ => read_digits digit_value 10 None s
    end in
  match digits with
  | Some n => Num (inject_Z (sign * n))
  | None => NaN
  end.

Definition is_digit (c : ascii) : bool :=
  match digit_value c with Some _ => true | None => false end.

(** A string of decimal digits. *)
Fixpoint digits_only (s : string) : bool :=
  match s with
  | EmptyString => true
  | String c s' => is_digit c && digits_only s'
  end.

End JsString.

Import JsString.

(** ** Fee model ([config/exchange-fees.ts]) *)

Module Fees.

Record ExchangeFees : Type := {
  maker : number;       (* maker fee (placing limit orders) *)
  taker : number;       (* taker fee (taking from the order book) *)
  withdrawal : number   (* typical withdrawal fee in USD *)
}.

Definition mk_fees (m t w : Q) : ExchangeFees :=
  {| maker := Num m; taker := Num t; withdrawal := Num w |}.

(** The own properties of the object literal [EXCHANGE_FEES]. *)
Definition EXCHANGE_FEES : gmap string ExchangeFees :=
  list_to_map [
    ("binance"%string, mk_fees 0.001 0.001 15);
    ("coinbase"%string, mk_fees 0.004 0.006 25);
    ("kraken"%string, mk_fees 0.0016 0.0026 10);
    ("gemini"%string, mk_fees 0.001 0.0035 20);
    ("bybit"%string, mk_fees 0.001 0.001 12);
    ("okx"%string, mk_fees 0.0008 0.001 10);
    ("gateio"%string, mk_fees 0.002 0.002 15);
    ("kucoin"%string, mk_fees 0.001 0.001 10);
    ("bitget"%string, mk_fees 0.001 0.001 12);
    ("mexc"%string, mk_fees 0.0002 0.0002 8);
    ("huobi"%string, mk_fees 0.002 0.002 15);
    ("bitfinex"%string, mk_fees 0.001 0.002 20);
    ("bitstamp"%string, mk_fees 0.004 0.005 15);
    ("binanceusdm"%string, mk_fees 0.0002 0.0004 10);
    ("deribit"%string, mk_fees 0.0002 0.0005 5);
    ("phemex"%string, mk_fees (-0.00025) 0.00075 8);
    ("bitmex"%string, mk_fees (-0.00025) 0.00075 10)
  ].

Definition DEFAULT_FEES : ExchangeFees := mk_fees 0.002 0.002 20.

(** [EXCHANGE_FEES] is a plain object, so [EXCHANGE_FEES[key]] also finds
    what it inherits from [Object.prototype]: functions, and the prototype
    object itself under [__proto__].  All of them are truthy and none has a
    [maker], [taker] or [withdrawal] property. *)
Definition Object_prototype_keys : list string :=
  [ "constructor"; "__proto__"; "hasOwnProperty"; "isPrototypeOf";
    "propertyIsEnumerable"; "toLocaleString"; "toString"; "valueOf";
    "__defineGetter__"; "__defineSetter__"; "__lookupGetter__";
    "__lookupSetter__" ]%string.

Definition inherited (key : string) : bool :=
  bool_decide (key ∈ Object_prototype_keys).

(** What [getExchangeFees] can return. *)
Inductive FeesObject : Type :=
| OwnFees (f : ExchangeFees)      (* an entry of the table, or the default *)
| Inherited (key : string).       (* a member of [Object.prototype] *)

Definition maker_of (o : FeesObject) : number :=
  match o with OwnFees f => maker f | Inherited _ => NaN end.
Definition taker_of (o : FeesObject) : number :=
  match o with OwnFees f => taker f | Inherited _ => NaN end.
Definition withdrawal_of (o : FeesObject) : number :=
  match o with OwnFees f => withdrawal f | Inherited _ => NaN end.

(** [EXCHANGE_FEES[key]]; [None] is [undefined]. *)
Definition EXCHANGE_FEES_get (key : string) : option FeesObject :=
  match EXCHANGE_FEES !! key with
  | Some f => Some (OwnFees f)
  | None => if inherited key then Some (Inherited key) else None
  end.

(** [EXCHANGE_FEES[exchangeId.toLowerCase()] || DEFAULT_FEES] *)
Definition getExchangeFees (exchangeId : string) : FeesObject :=
  match EXCHANGE_FEES_get (toLowerCase exchangeId) with
  | Some o => o
  | None => OwnFees DEFAULT_FEES
  end.

Definition calculateTradingFee (exchangeId : string) (price : number)
    (isMaker : bool) : number :=
  let fees := getExchangeFees exchangeId in
  let feeRate := if isMaker then maker_of fees else taker_of fees in
  (price * feeRate)%js.

Definition getWithdrawalFee (exchangeId : string) : number :=
  withdrawal_of (getExchangeFees exchangeId).

Record ArbitrageFees : Type := {
  buyFee : number;
  sellFee : number;
  withdrawalFee : number;
  totalFees : number
}.

Definition calculateArbitrageFees (buyExchange sellExchange : string)
    (buyPrice sellPrice : number) (includeWithdrawal : bool) : ArbitrageFees :=
  (* taker fees: immediate execution is assumed *)
  let buyFee := calculateTradingFee buyExchange buyPrice false in
  let sellFee := calculateTradingFee sellExchange sellPrice false in
  (* withdrawal fee only if transferring between exchanges *)
  let withdrawalFee :=
    if includeWithdrawal && negb (String.eqb buyExchange sellExchange)
    then getWithdrawalFee buyExchange
    else Num 0 in
  {| buyFee := buyFee;
     sellFee := sellFee;
     withdrawalFee := withdrawalFee;
     totalFees := (buyFee + sellFee + withdrawalFee)%js |}.

(** A profile with a taker rate between 0.02% and 0.6% and a withdrawal
    fee between 5 and 25, as all of the table and the default are. *)
Definition plausible (f : ExchangeFees) : Prop :=
  exists t w, taker f = Num t /\ withdrawal f = Num w
              /\ 0.0002 <= t /\ t <= 0.006 /\ 5 <= w /\ w <= 25.

End Fees.

(** ** Adaptive rate limiter ([rate-limiting/adaptive-limiter.ts]) *)

Module Limiter.

(** A thrown value: an object (an [Error] or the like) with an optional
    [code] and [message], each a string when it is there.  The values
    outside this type ([undefined], [null], an object whose [message] is
    not a string) make [isNonRetryableError] throw a [TypeError] of its
    own; an operation that rejects with one is not covered. *)
Record JsError : Type := {
  code : option string;
  message : option string
}.

(** [new Error(msg)] *)
Definition Error_new (msg : string) : JsError :=
  {| code := None; message := Some msg |}.

(** How an awaited call ends. *)
Inductive Completion (T : Type) : Type :=
| Returned (v : T)
| Threw (e : JsError).
Arguments Returned {T} v.
Arguments Threw {T} e.

Record RetryState : Type := {
  retryCount : nat;
  lastError : Z;
  lastSuccess : option Z;
  consecutiveErrors : nat
}.

(** What the limiter itself does, in order: the trace is kept to state
    when it sleeps and when it calls the operation. *)
Inductive Event : Type :=
| EvSleep (ms : Z)
| EvAttempt (exchangeId : string).

Record LimiterState : Type := {
  retryStates : gmap string RetryState;
  trace : list Event
}.

(** The part of the JavaScript runtime the limiter uses: the clock
    ([new Date()], in ms) and the number of [Math.random()] draws so far. *)
Record Runtime : Type := {
  clock : Z;
  draws : nat
}.

Definition maxRetries : nat := 5.
Definition baseDelay : Z := 1000.
Definition maxDelay : Z := 60000.

Definition is_code (e : JsError) (c : string) : bool :=
  match code e with Some c' => String.eqb c' c | None => false end.

(** [error.message?.includes(s)] *)
Definition message_includes (e : JsError) (s : string) : bool :=
  match message e with Some m => includes m s | None => false end.

Definition isNonRetryableError (error : JsError) : bool :=
  (* authentication errors *)
  if is_code error "INVALID_CREDENTIALS" || is_code error "PERMISSION_DENIED"
     || message_includes error "API key" || message_includes error "authentication"
  then true
  (* invalid symbol/market errors *)
  else if is_code error "INVALID_SYMBOL" || is_code error "MARKET_NOT_AVAILABLE"
     || message_includes error "symbol" || message_includes error "market"
  then true
  (* the exchange does not support the method *)
  else if is_code error "METHOD_NOT_SUPPORTED"
     || message_includes error "not supported"
     || message_includes error "not implemented"
  then true
  else false.

Definition getOrCreateState (exchangeId : string) (now : Z)
    (m : gmap string RetryState) : gmap string RetryState * RetryState :=
  match m !! exchangeId with
  | Some st => (m, st)
  | None =>
      let st := {| retryCount := 0; lastError := now; lastSuccess := None;
                   consecutiveErrors := 0 |} in
      (<[exchangeId := st]> m, st)
  end.

Definition resetState (exchangeId : string) (now : Z)
    (m : gmap string RetryState) : gmap string RetryState :=
  alter (fun st => {| retryCount := 0; lastError := lastError st;
                      lastSuccess := Some now; consecutiveErrors := 0 |})
        exchangeId m.

(** [`${x}`] for a string that may be [undefined]. *)
Definition show (s : option string) : string :=
  match s with Some s => s | None => "undefined" end.

(** [context ? ` (${context})` : ''] *)
Definition context_suffix (context : option string) : string :=
  match context with
  | Some (String _ _ as c) => " (" +:+ c +:+ ")"
  | _ => ""
  end.

Definition maxRetriesMessage (exchangeId : string) (context : option string)
    (error : JsError) : string :=
  "Max retries (" +:+ pretty maxRetries +:+ ") exceeded for " +:+ exchangeId
  +:+ context_suffix context +:+ ". " +:+ "Last error: " +:+ show (message error).

(** The retry count the limiter holds for a venue; a venue it has no
    state for counts as zero, which is what [getOrCreateState] gives it. *)
Definition retry_count (exchangeId : string) (lim : LimiterState) : nat :=
  match retryStates lim !! exchangeId with
  | Some st => retryCount st
  | None => 0%nat
  end.

Definition is_attempt (ev : Event) : bool :=
  match ev with EvAttempt _ => true | EvSleep _ => false end.

(** How often the operation was called along a trace. *)
Definition attempts (tr : list Event) : nat := length (List.filter is_attempt tr).

Definition retryable (e : JsError) : Prop := isNonRetryableError e = false.

(** What a call for [exchangeId] may add to the trace: calls of the
    operation for that venue, and sleeps of at most [maxDelay]. *)
Definition own_event (exchangeId : string) (ev : Event) : Prop :=
  match ev with
  | EvAttempt x => x = exchangeId
  | EvSleep ms => (ms <= maxDelay)%Z
  end.

(** The retry states after a failed attempt for [exchangeId] that started
    at [now0] and failed at [now]. *)
Definition failed (exchangeId : string) (lim : LimiterState) (now0 now : Z)
    : gmap string RetryState :=
  let '(m, state) := getOrCreateState exchangeId now0 (retryStates lim) in
  <[exchangeId := {| retryCount := S (retryCount state); lastError := now;
                     lastSuccess := lastSuccess state;
                     consecutiveErrors := S (consecutiveErrors state) |}]> m.

Section WithRandom.

(** [Math_random k] is the value of the [k]-th call of [Math.random()]. *)
Variable Math_random : nat -> Q.

Definition calculateDelay (retryCount : nat) (rt : Runtime) : Z * Runtime :=
  let exponentialDelay := (2 ^ (Z.of_nat retryCount - 1) * baseDelay)%Z in
  let jitter := Math_random (draws rt) * 1000 in
  let sum := inject_Z exponentialDelay + jitter in
  let delay := if Qle_bool sum (inject_Z maxDelay) then sum else inject_Z maxDelay in
  (Qfloor delay, {| clock := clock rt; draws := S (draws rt) |}).

Definition sleep (ms : Z) (rt : Runtime) : Runtime :=
  {| clock := (clock rt + ms)%Z; draws := draws rt |}.

(** The runtime and the trace at the moment a call of [executeWithBackoff]
    calls the operation: after the backoff sleep, if the venue has a retry
    count. *)
Definition at_call (exchangeId : string) (lim : LimiterState) (rt : Runtime)
    : Runtime * list Event :=
  let rc := retry_count exchangeId lim in
  if (0 <? rc)%nat then
    (sleep (fst (calculateDelay rc rt)) (snd (calculateDelay rc rt)),
     trace lim ++ [EvSleep (fst (calculateDelay rc rt)); EvAttempt exchangeId])
  else (rt, trace lim ++ [EvAttempt exchangeId]).

Section WithOperation.

(** [W] is whatever the operations act on (the venue gateway, the cache);
    they see the runtime but not the limiter's private retry states. *)
Context {W T : Type}.

Definition Operation : Type := Runtime * W -> Completion T * (Runtime * W).

Definition Outcome : Type := Completion T * LimiterState * (Runtime * W).

(** The body of [executeWithBackoff]; [retry] stands for the recursive
    call [this.executeWithBackoff(exchangeId, operation, context)]. *)
Definition executeWithBackoff_body (retry : LimiterState -> Runtime * W -> Outcome)
    (exchangeId : string) (operation : Operation) (context : option string)
    (lim : LimiterState) (env : Runtime * W) : Outcome :=
  let '(rt, w) := env in
  let '(m, state) := getOrCreateState exchangeId (clock rt) (retryStates lim) in
  (* delay based on the retry count *)
  let '(rt, tr) :=
    if (0 <? retryCount state)%nat then
      let '(delay, rt) := calculateDelay (retryCount state) rt in
      (sleep delay rt, trace lim ++ [EvSleep delay])
    else (rt, trace lim) in
  let tr := tr ++ [EvAttempt exchangeId] in
  match operation (rt, w) with
  | (Returned result, (rt, w)) =>
      (* reset state on success *)
      (Returned result,
       {| retryStates := resetState exchangeId (clock rt) m; trace := tr |},
       (rt, w))
  | (Threw error, (rt, w)) =>
      (* update retry state *)
      let state := {| retryCount := S (retryCount state);
                      lastError := clock rt;
                      lastSuccess := lastSuccess state;
                      consecutiveErrors := S (consecutiveErrors state) |} in
      let m := <[exchangeId := state]> m in
      if (maxRetries <? retryCount state)%nat then
        (* reset state after max retries *)
        (Threw (Error_new (maxRetriesMessage exchangeId context error)),
         {| retryStates := resetState exchangeId (clock rt) m; trace := tr |},
         (rt, w))
      else if isNonRetryableError error then
        (Threw error,
         {| retryStates := resetState exchangeId (clock rt) m; trace := tr |},
         (rt, w))
      else
        (* recursive retry *)
        retry {| retryStates := m; trace := tr |} (rt, w)
  end.

(** The recursion, [budget] calls deep.  Each recursive call finds the
    retry count one higher and none is made above [maxRetries], so
    [maxRetries] levels are enough ([executeWithBackoff_unfold]) and the
    bottom is never reached. *)
Fixpoint backoff (budget : nat) (exchangeId : string) (operation : Operation)
    (context : option string) (lim : LimiterState) (env : Runtime * W) : Outcome :=
  executeWithBackoff_body
    (match budget with
     | S budget => backoff budget exchangeId operation context
     | O => fun lim env => (Threw (Error_new "unreachable"), lim, env)
     end)
    exchangeId operation context lim env.

Definition executeWithBackoff : string -> Operation -> option string ->
    LimiterState -> Runtime * W -> Outcome :=
  backoff maxRetries.

Record BatchOperation : Type := {
  exchangeId : string;
  operation : Operation;
  context : option string
}.

(** One entry of the settled list: [{ success: true, result }] or
    [{ success: false, error }]. *)
Record Settled : Type := {
  success : bool;
  result : option T;
  error : option JsError
}.

(** [grouped.get(op.exchangeId).push(op)], creating the group at the end of
    the map when the exchange is new (a [Map] iterates in insertion order). *)
Fixpoint push_group (op : BatchOperation)
    (grouped : list (string * list BatchOperation))
    : list (string * list BatchOperation) :=
  match grouped with
  | [] => [(exchangeId op, [op])]
  | (k, ops) :: rest =>
      if String.eqb k (exchangeId op) then (k, ops ++ [op]) :: rest
      else (k, ops) :: push_group op rest
  end.

Definition group_operations (operations : list BatchOperation)
    : list (string * list BatchOperation) :=
  fold_left (fun grouped op => push_group op grouped) operations [].

(** The inner loop: the operations of one exchange, in order. *)
Fixpoint run_group (ops : list BatchOperation) (results : list Settled)
    (lim : LimiterState) (env : Runtime * W)
    : list Settled * LimiterState * (Runtime * W) :=
  match ops with
  | [] => (results, lim, env)
  | op :: ops =>
      match executeWithBackoff (exchangeId op) (operation op) (context op) lim env with
      | (Returned r, lim, env) =>
          run_group ops
            (results ++ [{| success := true; result := Some r; error := None |}])
            lim env
      | (Threw e, lim, env) =>
          run_group ops
            (results ++ [{| success := false; result := None; error := Some e |}])
            lim env
      end
  end.

(** The outer loop: one exchange after the other, 100 ms apart. *)
Fixpoint run_groups (groups : list (string * list BatchOperation))
    (results : list Settled) (lim : LimiterState) (env : Runtime * W)
    : list Settled * LimiterState * (Runtime * W) :=
  match groups with
  | [] => (results, lim, env)
  | (_, ops) :: groups =>
      let '(lim, env) :=
        if (0 <? length results)%nat then
          ({| retryStates := retryStates lim; trace := trace lim ++ [EvSleep 100] |},
           (sleep 100 (fst env), snd env))
        else (lim, env) in
      let '(results, lim, env) := run_group ops results lim env in
      run_groups groups results lim env
  end.

Definition executeBatch (operations : list BatchOperation)
    (lim : LimiterState) (env : Runtime * W)
    : list Settled * LimiterState * (Runtime * W) :=
  run_groups (group_operations operations) [] lim env.

(** The settled entry for the outcome of one call. *)
Definition settle (o : Outcome) : Settled :=
  match fst (fst o) with
  | Returned r => {| success := true; result := Some r; error := None |}
  | Threw e => {| success := false; result := None; error := Some e |}
  end.

(** [r] is the entry of [op]: what one call of [executeWithBackoff] for it
    came to, from some state of the limiter and of the world. *)
Definition entry_of (op : BatchOperation) (r : Settled) : Prop :=
  exists lim env,
    r = settle (executeWithBackoff (exchangeId op) (operation op) (context op) lim env).

(** An entry is [{success: true, result}] or [{success: false, error}]. *)
Definition settled (r : Settled) : Prop :=
  (success r = true /\ is_Some (result r) /\ error r = None)
  \/ (success r = false /\ result r = None /\ is_Some (error r)).

(** Operations that fail, or succeed, whenever they are called. *)
Definition always_fails (operation : Operation) : Prop :=
  forall env, exists e env', operation env = (Threw e, env').

Definition always_succeeds (operation : Operation) : Prop :=
  forall env, exists v env', operation env = (Returned v, env').

(** Whether an operation of a batch is for venue [k]. *)
Definition for_venue (k : string) (op : BatchOperation) : bool :=
  String.eqb (exchangeId op) k.


(** The venues of a batch, each once, in the order in which they first
    appear; [seen] holds the venues met before. *)
Fixpoint venues_from (seen : list string) (operations : list BatchOperation)
    : list string :=
  match operations with
  | [] => []
  | op :: rest =>
      if existsb (String.eqb (exchangeId op)) seen then venues_from seen rest
      else exchangeId op :: venues_from (seen ++ [exchangeId op]) rest
  end.

Definition venues (operations : list BatchOperation) : list string :=
  venues_from [] operations.

(** A batch arranged venue by venue: the venues in the order in which they
    first appear, and for each of them its operations in the order they
    were given in. *)
Definition by_venue (operations : list BatchOperation) : list BatchOperation :=
  flat_map (fun k => List.filter (for_venue k) operations) (venues operations).

End WithOperation.

(** A mock operation that plays a script: each call consumes and delivers
    the next completion. *)
Definition scripted {T : Type} : Operation (T := T) (W := list (Completion T)) :=
  fun '(rt, script) =>
    match script with
    | completion :: rest => (completion, (rt, rest))
    | [] => (Threw (Error_new "script exhausted"), (rt, []))
    end.

End WithRandom.

Arguments BatchOperation : clear implicits.
Arguments Settled : clear implicits.
Arguments Operation : clear implicits.

End Limiter.

(** ** Market data cache ([cache/lru-cache-manager.ts]) *)

Module Cache.

Section WithValue.

(** The cached values ([any] in the source) and their truthiness. *)
Context {V : Type} (truthy_value : V -> bool).

(** *** The [lru-cache] package

    [LRUCache] is the third-party package [lru-cache], not code of this
    repository.  It is modelled from its documented behaviour for the
    options the constructor of [MarketDataCache] passes: [max], [ttl],
    [ttlAutopurge], [updateAgeOnGet] ([updateAgeOnHas] plays no role: [has]
    is never called).  Times are readings of the monotonic clock, which
    are positive; the millisecond for which the package caches a reading
    ([ttlResolution]) is not represented. *)

Record Entry : Type := {
  key : string;
  value : V;
  start : Z       (* when the age of the entry was last reset *)
}.

Record LRUCache : Type := {
  max : nat;
  ttl : Z;
  updateAgeOnGet : bool;
  entries : list Entry    (* most recently used first *)
}.

Definition LRUCache_new (max : nat) (ttl : Z) (updateAgeOnGet : bool) : LRUCache :=
  {| max := max; ttl := ttl; updateAgeOnGet := updateAgeOnGet; entries := [] |}.

Definition with_entries (c : LRUCache) (l : list Entry) : LRUCache :=
  {| max := max c; ttl := ttl c; updateAgeOnGet := updateAgeOnGet c; entries := l |}.

(** An entry is stale once its age exceeds the TTL. *)
Definition isStale (c : LRUCache) (now : Z) (e : Entry) : bool :=
  (ttl c <? now - start e)%Z.

Definition has_key (k : string) (e : Entry) : bool := String.eqb (key e) k.

Definition find_entry (k : string) (l : list Entry) : option Entry :=
  List.find (has_key k) l.

Definition remove_key (k : string) (l : list Entry) : list Entry :=
  List.filter (fun e => negb (has_key k e)) l.

(** [cache.get(k)]: a stale entry is deleted and [undefined] returned; a
    fresh one becomes the most recently used and, with [updateAgeOnGet],
    has its age reset. *)
Definition LRU_get (k : string) (now : Z) (c : LRUCache) : option V * LRUCache :=
  match find_entry k (entries c) with
  | None => (None, c)
  | Some e =>
      if isStale c now e then (None, with_entries c (remove_key k (entries c)))
      else
        let e' := if updateAgeOnGet c
                  then {| key := key e; value := value e; start := now |}
                  else e in
        (Some (value e), with_entries c (e' :: remove_key k (entries c)))
  end.

(** [cache.set(k, v)]: the entry becomes the most recently used with age
    zero; a new key in a full cache evicts the least recently used one. *)
Definition LRU_set (k : string) (v : V) (now : Z) (c : LRUCache) : LRUCache :=
  let e := {| key := k; value := v; start := now |} in
  match find_entry k (entries c) with
  | Some _ => with_entries c (e :: remove_key k (entries c))
  | None =>
      if (length (entries c) <? max c)%nat
      then with_entries c (e :: entries c)
      else with_entries c (e :: removelast (entries c))
  end.

(** The timer [ttlAutopurge] arms for an entry fires: the entry is deleted
    if it is stale by then. *)
Definition LRU_purge (k : string) (now : Z) (c : LRUCache) : LRUCache :=
  match find_entry k (entries c) with
  | Some e => if isStale c now e then with_entries c (remove_key k (entries c)) else c
  | None => c
  end.

Definition LRU_clear (c : LRUCache) : LRUCache := with_entries c [].

(** *** [MarketDataCache] *)

Inductive DataClass : Type := Ticker | OrderBook | OHLCV | Market | Trades.

Definition TICKER_TTL_MS : Z := 10 * 1000.
Definition ORDERBOOK_TTL_MS : Z := 5 * 1000.
Definition OHLCV_TTL_MS : Z := 60 * 1000.
Definition MARKET_TTL_MS : Z := 60 * 60 * 1000.
Definition TRADES_TTL_MS : Z := 10 * 1000.

Definition TICKER_MAX_ENTRIES : nat := 500.
Definition ORDERBOOK_MAX_ENTRIES : nat := 200.
Definition OHLCV_MAX_ENTRIES : nat := 300.
Definition MARKET_MAX_ENTRIES : nat := 1000.
Definition TRADES_MAX_ENTRIES : nat := 200.

Record Metrics : Type := {
  hits : nat;
  misses : nat;
  evictions : nat
}.

Definition no_metrics : Metrics := {| hits := 0; misses := 0; evictions := 0 |}.

Record MarketDataCache : Type := {
  tickerCache : LRUCache;
  orderBookCache : LRUCache;
  ohlcvCache : LRUCache;
  marketCache : LRUCache;
  tradesCache : LRUCache;
  metrics : DataClass -> Metrics
}.

(** The five empty caches with their options. *)
Definition empty_caches : MarketDataCache :=
  {| tickerCache := LRUCache_new TICKER_MAX_ENTRIES TICKER_TTL_MS true;
     orderBookCache := LRUCache_new ORDERBOOK_MAX_ENTRIES ORDERBOOK_TTL_MS true;
     ohlcvCache := LRUCache_new OHLCV_MAX_ENTRIES OHLCV_TTL_MS true;
     marketCache := LRUCache_new MARKET_MAX_ENTRIES MARKET_TTL_MS false;
     tradesCache := LRUCache_new TRADES_MAX_ENTRIES TRADES_TTL_MS true;
     metrics := fun _ => no_metrics |}.

(** The constructor; [None] is its
    [throw new Error('Cache TTL values must be positive')]. *)
Definition MarketDataCache_new : option MarketDataCache :=
  if ((TICKER_TTL_MS <=? 0) || (ORDERBOOK_TTL_MS <=? 0) || (OHLCV_TTL_MS <=? 0)
      || (MARKET_TTL_MS <=? 0) || (TRADES_TTL_MS <=? 0))%Z
  then None
  else Some empty_caches.

Definition cache_of (d : DataClass) (m : MarketDataCache) : LRUCache :=
  match d with
  | Ticker => tickerCache m
  | OrderBook => orderBookCache m
  | OHLCV => ohlcvCache m
  | Market => marketCache m
  | Trades => tradesCache m
  end.

Definition with_cache (d : DataClass) (c : LRUCache) (m : MarketDataCache)
    : MarketDataCache :=
  {| tickerCache := match d with Ticker => c | _ => tickerCache m end;
     orderBookCache := match d with OrderBook => c | _ => orderBookCache m end;
     ohlcvCache := match d with OHLCV => c | _ => ohlcvCache m end;
     marketCache := match d with Market => c | _ => marketCache m end;
     tradesCache := match d with Trades => c | _ => tradesCache m end;
     metrics := metrics m |}.

Definition class_eqb (a b : DataClass) : bool :=
  match a, b with
  | Ticker, Ticker | OrderBook, OrderBook | OHLCV, OHLCV
  | Market, Market | Trades, Trades => true
  | _, _ => false
  end.

(** [if (result) hits++ else misses++] *)
Definition count (d : DataClass) (result : option V) (m : MarketDataCache)
    : MarketDataCache :=
  let hit := match result with Some v => truthy_value v | None => false end in
  {| tickerCache := tickerCache m;
     orderBookCache := orderBookCache m;
     ohlcvCache := ohlcvCache m;
     marketCache := marketCache m;
     tradesCache := tradesCache m;
     metrics := fun d' =>
       let old := metrics m d' in
       if class_eqb d d' then
         if hit then {| hits := S (hits old); misses := misses old;
                        evictions := evictions old |}
         else {| hits := hits old; misses := S (misses old);
                 evictions := evictions old |}
       else old |}.

(** [getKey(exchange, symbol, extra?)]; an empty [extra] is falsy. *)
Definition getKey (exchange symbol : string) (extra : option string) : string :=
  match extra with
  | Some (String _ _ as x) => exchange +:+ ":" +:+ symbol +:+ ":" +:+ x
  | _ => exchange +:+ ":" +:+ symbol
  end.

(** [limit?.toString()] *)
Definition limit_toString (limit : option N) : option string :=
  match limit with Some n => Some (pretty n) | None => None end.

(** The body shared by the five getters: look up, count, return. *)
Definition get_in (d : DataClass) (k : string) (now : Z) (m : MarketDataCache)
    : option V * MarketDataCache :=
  let '(result, c) := LRU_get k now (cache_of d m) in
  (result, count d result (with_cache d c m)).

Definition set_in (d : DataClass) (k : string) (data : V) (now : Z)
    (m : MarketDataCache) : MarketDataCache :=
  with_cache d (LRU_set k data now (cache_of d m)) m.

Definition getTicker (exchange symbol : string) :=
  get_in Ticker (getKey exchange symbol None).
Definition setTicker (exchange symbol : string) (data : V) :=
  set_in Ticker (getKey exchange symbol None) data.

Definition getOrderBook (exchange symbol : string) (limit : option N) :=
  get_in OrderBook (getKey exchange symbol (limit_toString limit)).
Definition setOrderBook (exchange symbol : string) (data : V) (limit : option N) :=
  set_in OrderBook (getKey exchange symbol (limit_toString limit)) data.

Definition getOHLCV (exchange symbol timeframe : string) :=
  get_in OHLCV (getKey exchange symbol (Some timeframe)).
Definition setOHLCV (exchange symbol timeframe : string) (data : V) :=
  set_in OHLCV (getKey exchange symbol (Some timeframe)) data.

Definition getMarkets (exchange : string) := get_in Market exchange.
Definition setMarkets (exchange : string) (data : V) := set_in Market exchange data.

Definition getTrades (exchange symbol : string) (limit : option N) :=
  get_in Trades (getKey exchange symbol (limit_toString limit)).
Definition setTrades (exchange symbol : string) (data : V) (limit : option N) :=
  set_in Trades (getKey exchange symbol (limit_toString limit)) data.

Definition clear_in (d : DataClass) (m : MarketDataCache) : MarketDataCache :=
  with_cache d (LRU_clear (cache_of d m)) m.

Definition clearTickerCache : MarketDataCache -> MarketDataCache := clear_in Ticker.
Definition clearOrderBookCache : MarketDataCache -> MarketDataCache := clear_in OrderBook.

Definition clearAllCaches (m : MarketDataCache) : MarketDataCache :=
  clear_in Trades (clear_in Market (clear_in OHLCV (clear_in OrderBook (clear_in Ticker m)))).

Definition resetMetrics (m : MarketDataCache) : MarketDataCache :=
  {| tickerCache := tickerCache m;
     orderBookCache := orderBookCache m;
     ohlcvCache := ohlcvCache m;
     marketCache := marketCache m;
     tradesCache := tradesCache m;
     metrics := fun _ => no_metrics |}.

(** [calculateHitRate] of [getStats]: the rate in percent, as the number
    that is then formatted. *)
Definition calculateHitRate (hits misses : nat) : number :=
  let total := (hits + misses)%nat in
  if (0 <? total)%nat
  then (Num (inject_Z (Z.of_nat hits)) / Num (inject_Z (Z.of_nat total)) * Num 100)%js
  else Num 0.

(** An [extra] that [getKey] leaves out of the key. *)
Definition no_extra (extra : option string) : Prop :=
  extra = None \/ extra = Some ""%string.

(** *** Histories

    What can happen to the cache of one data class, with the time at which
    it happens. *)
Inductive CacheOp : Type :=
| OpGet (k : string) (now : Z)
| OpSet (k : string) (data : V) (now : Z)
| OpPurge (k : string) (now : Z)       (* a [ttlAutopurge] timer fires *)
| OpClear.

Definition op_time (o : CacheOp) : option Z :=
  match o with
  | OpGet _ now | OpSet _ _ now | OpPurge _ now => Some now
  | OpClear => None
  end.

(** One operation on the cache of class [d], with what a get returned. *)
Definition step (d : DataClass) (o : CacheOp) (m : MarketDataCache)
    : option V * MarketDataCache :=
  match o with
  | OpGet k now => get_in d k now m
  | OpSet k data now => (None, set_in d k data now m)
  | OpPurge k now => (None, with_cache d (LRU_purge k now (cache_of d m)) m)
  | OpClear => (None, clear_in d m)
  end.

Fixpoint run (d : DataClass) (ops : list CacheOp) (m : MarketDataCache)
    : MarketDataCache :=
  match ops with
  | [] => m
  | o :: ops => run d ops (snd (step d o m))
  end.

(** The same on the underlying [LRUCache]. *)
Definition LRU_step (o : CacheOp) (c : LRUCache) : option V * LRUCache :=
  match o with
  | OpGet k now => LRU_get k now c
  | OpSet k data now => (None, LRU_set k data now c)
  | OpPurge k now => (None, LRU_purge k now c)
  | OpClear => (None, LRU_clear c)
  end.

(** The options of each data class, as the constructor sets them. *)
Definition class_ttl (d : DataClass) : Z :=
  match d with
  | Ticker => TICKER_TTL_MS
  | OrderBook => ORDERBOOK_TTL_MS
  | OHLCV => OHLCV_TTL_MS
  | Market => MARKET_TTL_MS
  | Trades => TRADES_TTL_MS
  end.

Definition class_max (d : DataClass) : nat :=
  match d with
  | Ticker => TICKER_MAX_ENTRIES
  | OrderBook => ORDERBOOK_MAX_ENTRIES
  | OHLCV => OHLCV_MAX_ENTRIES
  | Market => MARKET_MAX_ENTRIES
  | Trades => TRADES_MAX_ENTRIES
  end.

(** [updateAgeOnGet]: every class but the market metadata. *)
Definition class_refresh (d : DataClass) : bool :=
  match d with Market => false | _ => true end.

(** Whether an operation reads or writes a key other than [k]. *)
Definition touches_other (k : string) (o : CacheOp) : bool :=
  match o with
  | OpGet k' _ | OpSet k' _ _ => negb (String.eqb k' k)
  | OpPurge _ _ | OpClear => false
  end.

(** Whether an operation sets [k] or clears the cache. *)
Definition overwrites (k : string) (o : CacheOp) : bool :=
  match o with
  | OpSet k' _ _ => String.eqb k' k
  | OpClear => true
  | OpGet _ _ | OpPurge _ _ => false
  end.

Fixpoint LRU_run (ops : list CacheOp) (c : LRUCache) : LRUCache :=
  match ops with
  | [] => c
  | o :: ops => LRU_run ops (snd (LRU_step o c))
  end.

(** [v] was stored under [k] at time [t]: by a set or, when gets reset the
    age, by a get that returned it. *)
Definition fresh_since (c0 : LRUCache) (ops : list CacheOp)
    (k : string) (v : V) (t : Z) : Prop :=
  In (OpSet k v t) ops
  \/ (updateAgeOnGet c0 = true
      /\ exists ops1 ops2,
           ops = ops1 ++ OpGet k t :: ops2
           /\ fst (LRU_step (OpGet k t) (LRU_run ops1 c0)) = Some v).

(** The same for the cache of class [d] of a [MarketDataCache] that
    started empty. *)
Definition stored_at (d : DataClass) (ops : list CacheOp) (k : string) (v : V)
    (t : Z) : Prop :=
  In (OpSet k v t) ops
  \/ (class_refresh d = true
      /\ exists ops1 ops2,
           ops = ops1 ++ OpGet k t :: ops2
           /\ fst (step d (OpGet k t) (run d ops1 empty_caches)) = Some v).

(** An operation that neither sets [k] nor clears the cache, at a time
    between [t0] and [now]. *)
Definition quiet (k : string) (t0 now : Z) (o : CacheOp) : Prop :=
  overwrites k o = false
  /\ forall t, op_time o = Some t -> (t0 <= t <= now)%Z.

Definition weight (k : string) (o : CacheOp) : nat :=
  if touches_other k o then 1%nat else 0%nat.

(** The cache holds each key once and no more than [max] entries. *)
Definition within (c : LRUCache) : Prop :=
  (length (entries c) <= max c)%nat /\ List.NoDup (map key (entries c)).

Definition is_get (o : CacheOp) : bool :=
  match o with OpGet _ _ => true | _ => false end.

(** How many lookups a history makes. *)
Definition lookups (ops : list CacheOp) : nat := length (List.filter is_get ops).

End WithValue.

Arguments Entry : clear implicits.
Arguments LRUCache : clear implicits.
Arguments MarketDataCache : clear implicits.
Arguments CacheOp : clear implicits.

End Cache.

(** ** Arbitrage scanner ([AdvancedArbitrageScanner]) *)

Module Scanner.

Import Fees Limiter Cache.

Definition NEUTRAL_RISK_SCORE : number := Num 5.
Definition BASE_CONFIDENCE : number := Num 50.
Definition FRACTIONAL_KELLY : number := Num 0.25.

(** What [fetchTicker] of the venue gateway returns. *)
Module TickerData.
Record t : Type := {
  symbol : string;
  bid : number;
  ask : number;
  last : number;
  baseVolume : number;
  timestamp : number
}.
End TickerData.

(** A ticker object held by the ticker cache.  The scanner stores
    [{exchange, symbol, bid, ask, last, volume, timestamp}]; the
    [market_ticker] tool stores tickers without [exchange] and [volume]
    under the same keys. *)
Module CachedTicker.
Record t : Type := {
  exchange : option string;    (* [None]: no such property *)
  symbol : string;
  bid : number;
  ask : number;
  last : number;
  volume : number;
  timestamp : number
}.
End CachedTicker.

(** An element of [priceData]. *)
Module PriceData.
Record t : Type := {
  exchange : string;
  symbol : string;
  bid : number;
  ask : number;
  last : number;
  volume : number;
  timestamp : number;
  fromCache : bool             (* [undefined] on a live ticker *)
}.
End PriceData.

Record Volume : Type := {
  available : number;
  optimal : number
}.

Record ArbitrageOpportunity : Type := {
  id : string;
  symbol : string;
  buyExchange : string;
  sellExchange : string;
  buyPrice : number;
  sellPrice : number;
  spread : number;
  spreadPercent : number;
  potentialProfit : number;
  volume : Volume;
  fees : ArbitrageFees;
  netProfit : number;
  netProfitPercent : number;
  riskScore : number;
  executionTime : number;
  confidence : number;
  executionPath : list string;
  warnings : list string
}.

Record ScannerConfig : Type := {
  minProfitPercent : number;
  maxRiskScore : number;
  minVolume : number;
  includeWithdrawalFees : bool;
  includeTradingFees : bool;
  scanInterval : Z;
  exchanges : list string;
  symbols : list string
}.

(** [Partial<ScannerConfig>]: [None] is an absent property.  A threshold
    passed as [undefined] is [Some NaN] and a flag passed as [undefined] is
    [Some false], which is how the scan treats them; a list passed as
    [undefined] is not represented. *)
Module PartialConfig.
Record t : Type := {
  minProfitPercent : option number;
  maxRiskScore : option number;
  minVolume : option number;
  includeWithdrawalFees : option bool;
  includeTradingFees : option bool;
  scanInterval : option Z;
  exchanges : option (list string);
  symbols : option (list string)
}.
Definition empty : t :=
  {| minProfitPercent := None; maxRiskScore := None; minVolume := None;
     includeWithdrawalFees := None; includeTradingFees := None;
     scanInterval := None; exchanges := None; symbols := None |}.
End PartialConfig.

Definition defaultConfig : ScannerConfig :=
  {| minProfitPercent := Num 0.1;
     maxRiskScore := Num 7;
     minVolume := Num 100;
     includeWithdrawalFees := true;
     includeTradingFees := true;
     scanInterval := 5000;
     exchanges := ["binance"; "coinbase"; "kraken"; "okx"; "gateio"; "kucoin"]%string;
     symbols := ["BTC/USDT"; "ETH/USDT"; "SOL/USDT"]%string |}.

(** [{ ...this.defaultConfig, ...config }] *)
Definition merge_config (config : PartialConfig.t) : ScannerConfig :=
  {| minProfitPercent :=
       default (minProfitPercent defaultConfig) (PartialConfig.minProfitPercent config);
     maxRiskScore :=
       default (maxRiskScore defaultConfig) (PartialConfig.maxRiskScore config);
     minVolume := default (minVolume defaultConfig) (PartialConfig.minVolume config);
     includeWithdrawalFees :=
       default (includeWithdrawalFees defaultConfig)
               (PartialConfig.includeWithdrawalFees config);
     includeTradingFees :=
       default (includeTradingFees defaultConfig)
               (PartialConfig.includeTradingFees config);
     scanInterval := default (scanInterval defaultConfig) (PartialConfig.scanInterval config);
     exchanges := default (exchanges defaultConfig) (PartialConfig.exchanges config);
     symbols := default (symbols defaultConfig) (PartialConfig.symbols config) |}.

(** A full configuration passed where a partial one is expected, as the
    scanning loop does with its own [cfg]. *)
Definition as_partial (cfg : ScannerConfig) : PartialConfig.t :=
  {| PartialConfig.minProfitPercent := Some (minProfitPercent cfg);
     PartialConfig.maxRiskScore := Some (maxRiskScore cfg);
     PartialConfig.minVolume := Some (minVolume cfg);
     PartialConfig.includeWithdrawalFees := Some (includeWithdrawalFees cfg);
     PartialConfig.includeTradingFees := Some (includeTradingFees cfg);
     PartialConfig.scanInterval := Some (scanInterval cfg);
     PartialConfig.exchanges := Some (exchanges cfg);
     PartialConfig.symbols := Some (symbols cfg) |}.

(** *** Scoring *)

Definition calculateFees (buyExchange sellExchange : PriceData.t)
    (buyPrice sellPrice : number) (config : ScannerConfig) : ArbitrageFees :=
  let fees := calculateArbitrageFees (PriceData.exchange buyExchange)
                (PriceData.exchange sellExchange) buyPrice sellPrice
                (includeWithdrawalFees config) in
  (* override if the config excludes certain fees *)
  {| buyFee := if includeTradingFees config then buyFee fees else Num 0;
     sellFee := if includeTradingFees config then sellFee fees else Num 0;
     withdrawalFee := if includeWithdrawalFees config then withdrawalFee fees else Num 0;
     totalFees :=
       ((if includeTradingFees config then (buyFee fees + sellFee fees) else Num 0)
        + (if includeWithdrawalFees config then withdrawalFee fees else Num 0))%js |}.

Definition calculateRiskScore (buyExchange sellExchange : PriceData.t)
    (spreadPercent volume : number) : number :=
  let score := NEUTRAL_RISK_SCORE in
  (* spread: tighter spreads have higher execution risk *)
  let score :=
    if (spreadPercent <? Num 0.5)%js then (score + Num 2)%js
    else if (spreadPercent <? Num 1)%js then (score + Num 1)%js
    else if (spreadPercent >? Num 2)%js then (score - Num 1)%js
    else score in
  (* volume: low liquidity increases slippage risk *)
  let score :=
    if (volume <? Num 1000)%js then (score + Num 2)%js
    else if (volume <? Num 10000)%js then (score + Num 1)%js
    else if (volume >? Num 100000)%js then (score - Num 1)%js
    else score in
  (* freshness: cached prices may be stale *)
  let score := if PriceData.fromCache buyExchange then (score + Num 0.5)%js else score in
  let score := if PriceData.fromCache sellExchange then (score + Num 0.5)%js else score in
  (* clamp to [1, 10] *)
  JsNum.max (Num 1) (JsNum.min (Num 10) score).

Definition calculateConfidence (spreadPercent volume riskScore : number)
    (buyFromCache sellFromCache : bool) : number :=
  let confidence := BASE_CONFIDENCE in
  let confidence := (confidence + spreadPercent * Num 10)%js in
  let confidence := (confidence + (Num 10 - riskScore) * Num 5)%js in
  let confidence := if (volume >? Num 10000)%js then (confidence + Num 10)%js else confidence in
  let confidence := if (volume >? Num 100000)%js then (confidence + Num 10)%js else confidence in
  let confidence := if negb buyFromCache then (confidence + Num 5)%js else confidence in
  let confidence := if negb sellFromCache then (confidence + Num 5)%js else confidence in
  JsNum.max (Num 0) (JsNum.min (Num 100) confidence).

Definition calculateOptimalVolume (availableVolume riskScore : number) : number :=
  let riskFactor := ((Num 10 - riskScore) / Num 10)%js in
  (availableVolume * riskFactor * FRACTIONAL_KELLY)%js.

Definition generateExecutionPath (symbol buyExchange sellExchange : string)
    : list string :=
  [ "1. Place buy order for " +:+ symbol +:+ " on " +:+ buyExchange;
    "2. Wait for order fill confirmation";
    "3. Withdraw to " +:+ sellExchange +:+ " (if different network)";
    "4. Wait for deposit confirmation";
    "5. Place sell order on " +:+ sellExchange;
    "6. Wait for order fill confirmation";
    "7. Calculate final profit/loss" ]%string.

Definition estimateExecutionTime (buyExchange sellExchange : string) : number :=
  let time := Num 10 in
  if negb (String.eqb buyExchange sellExchange) then (time + Num 600)%js else time.

Definition generateWarnings (buyExchange sellExchange : PriceData.t)
    (spreadPercent riskScore : number) : list string :=
  (if (spreadPercent <? Num 0.5)%js
   then ["Very tight spread - high execution risk"%string] else [])
  ++ (if (riskScore >? Num 7)%js
      then ["High risk score - proceed with caution"%string] else [])
  ++ (if PriceData.fromCache buyExchange || PriceData.fromCache sellExchange
      then ["Using cached data - prices may have changed"%string] else [])
  ++ (if (PriceData.volume buyExchange <? Num 1000)%js
         || (PriceData.volume sellExchange <? Num 1000)%js
      then ["Low volume - may face liquidity issues"%string] else []).

Definition meetsThreshold (opportunity : ArbitrageOpportunity)
    (config : ScannerConfig) : bool :=
  (netProfitPercent opportunity >=? minProfitPercent config)%js
  && (riskScore opportunity <=? maxRiskScore config)%js
  && (available (volume opportunity) >=? minVolume config)%js.

(** [now] is the value of [Date.now()] that goes into the id. *)
Definition analyzeOpportunity (symbol : string) (buyExchange sellExchange : PriceData.t)
    (config : ScannerConfig) (now : Z) : option ArbitrageOpportunity :=
  let spread := (PriceData.bid sellExchange - PriceData.ask buyExchange)%js in
  let spreadPercent :=
    if (PriceData.ask buyExchange >? Num 0)%js
    then (spread / PriceData.ask buyExchange * Num 100)%js else Num 0 in
  let fees := calculateFees buyExchange sellExchange (PriceData.ask buyExchange)
                (PriceData.bid sellExchange) config in
  let netProfit := (spread - totalFees fees)%js in
  let netProfitPercent := (netProfit / PriceData.ask buyExchange * Num 100)%js in
  (* skip if not profitable after fees *)
  if (netProfit <=? Num 0)%js then None
  (* require valid volume data *)
  else if negb (truthy (PriceData.volume buyExchange))
       || negb (truthy (PriceData.volume sellExchange))
       || (PriceData.volume buyExchange <=? Num 0)%js
       || (PriceData.volume sellExchange <=? Num 0)%js then None
  else
    let availableVolume :=
      JsNum.min (PriceData.volume buyExchange) (PriceData.volume sellExchange) in
    let riskScore :=
      calculateRiskScore buyExchange sellExchange spreadPercent availableVolume in
    let executionPath :=
      generateExecutionPath symbol (PriceData.exchange buyExchange)
                            (PriceData.exchange sellExchange) in
    let confidence :=
      calculateConfidence spreadPercent availableVolume riskScore
        (PriceData.fromCache buyExchange) (PriceData.fromCache sellExchange) in
    Some
      {| id := symbol +:+ "-" +:+ PriceData.exchange buyExchange +:+ "-"
               +:+ PriceData.exchange sellExchange +:+ "-" +:+ pretty now;
         symbol := symbol;
         buyExchange := PriceData.exchange buyExchange;
         sellExchange := PriceData.exchange sellExchange;
         buyPrice := PriceData.ask buyExchange;
         sellPrice := PriceData.bid sellExchange;
         spread := spread;
         spreadPercent := spreadPercent;
         potentialProfit := (spread * availableVolume)%js;
         volume := {| available := availableVolume;
                      optimal := calculateOptimalVolume availableVolume riskScore |};
         fees := fees;
         netProfit := (netProfit * availableVolume)%js;
         netProfitPercent := netProfitPercent;
         riskScore := riskScore;
         executionTime :=
           estimateExecutionTime (PriceData.exchange buyExchange)
                                 (PriceData.exchange sellExchange);
         confidence := confidence;
         executionPath := executionPath;
         warnings := generateWarnings buyExchange sellExchange spreadPercent riskScore |}.

(** *** Comparing *)

(** The guard of the double loop: both prices present, positive, and the
    ask of the buy side below the bid of the sell side. *)
Definition crossed (buyExchange sellExchange : PriceData.t) : bool :=
  truthy (PriceData.ask buyExchange) && truthy (PriceData.bid sellExchange)
  && (PriceData.ask buyExchange >? Num 0)%js
  && (PriceData.bid sellExchange >? Num 0)%js
  && (PriceData.ask buyExchange <? PriceData.bid sellExchange)%js.

(** The body of the double loop for one pair: what it pushes, if anything. *)
Definition consider (symbol : string) (cfg : ScannerConfig) (now : Z)
    (buyExchange sellExchange : PriceData.t) : option ArbitrageOpportunity :=
  if crossed buyExchange sellExchange then
    match analyzeOpportunity symbol buyExchange sellExchange cfg now with
    | Some opportunity =>
        if meetsThreshold opportunity cfg then Some opportunity else None
    | None => None
    end
  else None.

Definition indexed {A : Type} (l : list A) : list (nat * A) :=
  combine (seq 0 (length l)) l.

(** The pairs [(priceData[i], priceData[j])], [i <> j], in loop order. *)
Definition ordered_pairs (priceData : list PriceData.t)
    : list (PriceData.t * PriceData.t) :=
  flat_map (fun '(i, buyExchange) =>
    flat_map (fun '(j, sellExchange) =>
      if (i =? j)%nat then [] else [(buyExchange, sellExchange)])
      (indexed priceData))
    (indexed priceData).

Definition findOpportunities (symbol : string) (cfg : ScannerConfig) (now : Z)
    (priceData : list PriceData.t) : list ArbitrageOpportunity :=
  omap (fun '(buyExchange, sellExchange) =>
          consider symbol cfg now buyExchange sellExchange)
       (ordered_pairs priceData).

(** *** Sorting

    [opportunities.sort((a, b) => b.netProfit - a.netProfit)].
    [Array.prototype.sort] is stable; for a comparator that orders its
    arguments consistently the result is the stable sorted arrangement,
    computed here by insertion.  A comparator value that is not positive
    (zero, negative or [NaN]) leaves [a] before [b]. *)
Definition by_netProfit (a b : ArbitrageOpportunity) : number :=
  (netProfit b - netProfit a)%js.

Fixpoint insert_sorted (x : ArbitrageOpportunity) (l : list ArbitrageOpportunity)
    : list ArbitrageOpportunity :=
  match l with
  | [] => [x]
  | y :: l' =>
      if (by_netProfit x y >? Num 0)%js then y :: insert_sorted x l' else x :: l
  end.

Definition sort_by_netProfit (l : list ArbitrageOpportunity)
    : list ArbitrageOpportunity :=
  fold_right insert_sorted [] l.

(** *** The scanner object *)

Record ScannerState : Type := {
  opportunities : list (string * ArbitrageOpportunity);   (* a [Map], in insertion order *)
  scannerRunning : bool;
  lastScanTime : option Z
}.

Definition Scanner_new : ScannerState :=
  {| opportunities := []; scannerRunning := false; lastScanTime := None |}.

(** [Map.prototype.set] *)
Fixpoint Map_set {A : Type} (k : string) (v : A) (m : list (string * A))
    : list (string * A) :=
  match m with
  | [] => [(k, v)]
  | (k', v') :: m' =>
      if String.eqb k' k then (k, v) :: m' else (k', v') :: Map_set k v m'
  end.

Definition store (found : list ArbitrageOpportunity)
    (m : list (string * ArbitrageOpportunity)) : list (string * ArbitrageOpportunity) :=
  fold_left (fun m opp => Map_set (id opp) opp m) found m.

Definition stopScanning (sc : ScannerState) : ScannerState :=
  {| opportunities := opportunities sc; scannerRunning := false;
     lastScanTime := lastScanTime sc |}.

Definition getOpportunities (sc : ScannerState) : list ArbitrageOpportunity :=
  sort_by_netProfit (map snd (opportunities sc)).

(** [a] is listed before [b] only if its net profit is at least as high. *)
Definition descending (a b : ArbitrageOpportunity) : Prop :=
  (netProfit a >=? netProfit b)%js = true.

Definition has_netProfit (a : ArbitrageOpportunity) : Prop := is_num (netProfit a).

(** The [netProfit] of an opportunity as the specification gives it:
    [(sellPrice - buyPrice) * volume - totalFees]. *)
Definition specified_netProfit (opp : ArbitrageOpportunity) : number :=
  ((sellPrice opp - buyPrice opp) * available (volume opp) - totalFees (fees opp))%js.

(** What is known of an opportunity the loop body pushes for the pair
    [(buy, sell)]: [a] is the ask paid, [b] the bid received, [fee] the
    total fees per unit and [vol] the available volume. *)
Record PushedWith (cfg : ScannerConfig) (buy sell : PriceData.t)
    (opp : ArbitrageOpportunity) (a b fee vol : Q) : Prop := {
  pushed_buy : PriceData.ask buy = Num a;
  pushed_sell : PriceData.bid sell = Num b;
  pushed_ask_pos : 0 < a;
  pushed_bid_pos : 0 < b;
  pushed_crossed : a < b;
  pushed_buyExchange : buyExchange opp = PriceData.exchange buy;
  pushed_sellExchange : sellExchange opp = PriceData.exchange sell;
  pushed_buyPrice : buyPrice opp = Num a;
  pushed_sellPrice : sellPrice opp = Num b;
  pushed_totalFees : totalFees (fees opp) = Num fee;
  pushed_profitable : fee < b - a;
  pushed_available : available (volume opp) = Num vol;
  pushed_vol_pos : 0 < vol;
  pushed_netProfit : netProfit opp = Num ((b - a - fee) * vol);
  pushed_riskScore : between 1 10 (riskScore opp);
  pushed_confidence : between 0 100 (confidence opp);
  pushed_threshold : meetsThreshold opp cfg = true
}.

Definition Pushed (cfg : ScannerConfig) (buy sell : PriceData.t)
    (opp : ArbitrageOpportunity) : Prop :=
  exists a b fee vol, PushedWith cfg buy sell opp a b fee vol.

(** The id [analyzeOpportunity] gives an opportunity found at time [t]. *)
Definition id_at (prefix : string) (t : Z) : string := prefix +:+ "-" +:+ pretty t.

(** The figures of an opportunity the loop body pushes for the pair
    [(buy, sell)] at time [now]: [a] is the ask paid, [b] the bid received,
    [fee] the total fees per unit, [vol] the available volume and [risk]
    the risk score. *)
Record Analyzed (sym : string) (now : Z) (buy sell : PriceData.t)
    (opp : ArbitrageOpportunity) (a b fee vol risk : Q) : Prop := {
  analyzed_ask : PriceData.ask buy = Num a;
  analyzed_bid : PriceData.bid sell = Num b;
  analyzed_crossed : 0 < a /\ a < b;
  analyzed_id :
    id opp = id_at (sym +:+ "-" +:+ PriceData.exchange buy +:+ "-"
                    +:+ PriceData.exchange sell) now;
  analyzed_buyExchange : buyExchange opp = PriceData.exchange buy;
  analyzed_sellExchange : sellExchange opp = PriceData.exchange sell;
  analyzed_buyPrice : buyPrice opp = Num a;
  analyzed_sellPrice : sellPrice opp = Num b;
  analyzed_spread : spread opp = Num (b - a);
  analyzed_spreadPercent : spreadPercent opp = Num ((b - a) / a * 100);
  analyzed_totalFees : totalFees (fees opp) = Num fee;
  analyzed_fee : 0 <= fee /\ fee < b - a;
  analyzed_available : available (volume opp) = Num vol;
  analyzed_vol : 0 < vol;
  analyzed_potentialProfit : potentialProfit opp = Num ((b - a) * vol);
  analyzed_netProfit : netProfit opp = Num ((b - a - fee) * vol);
  analyzed_netProfitPercent : netProfitPercent opp = Num ((b - a - fee) / a * 100);
  analyzed_riskScore : riskScore opp = Num risk;
  analyzed_risk : 1 <= risk /\ risk <= 10;
  analyzed_optimal : optimal (volume opp) = Num (vol * ((10 - risk) / 10) * 0.25);
  analyzed_executionTime :
    executionTime opp
    = Num (if String.eqb (PriceData.exchange buy) (PriceData.exchange sell)
           then 10 else 610);
  analyzed_warnings :
    warnings opp = generateWarnings buy sell (spreadPercent opp) (riskScore opp)
}.

Section WithGateway.

(** The venue gateway ([exchangeManager] and the ccxt instances behind it)
    is an external collaborator: any state [G], any behaviour. *)
Context {G Instance : Type}.
Variable getExchange : string -> Runtime * G -> Completion Instance * (Runtime * G).
Variable has_fetchTicker : Instance -> bool.
Variable fetchTicker :
  Instance -> string -> Runtime * G -> Completion TickerData.t * (Runtime * G).
Variable Math_random : nat -> Q.

(** What the fetch operations act on. *)
Record Services : Type := {
  marketDataCache : MarketDataCache CachedTicker.t;
  gateway : G
}.

(** Everything a scan reads or writes. *)
Record World : Type := {
  scanner : ScannerState;
  adaptiveRateLimiter : LimiterState;
  runtime : Runtime;
  services : Services
}.

(** [{ exchange, ...cached, fromCache: true }] *)
Definition from_cached (exchange : string) (cached : CachedTicker.t) : PriceData.t :=
  {| PriceData.exchange := default exchange (CachedTicker.exchange cached);
     PriceData.symbol := CachedTicker.symbol cached;
     PriceData.bid := CachedTicker.bid cached;
     PriceData.ask := CachedTicker.ask cached;
     PriceData.last := CachedTicker.last cached;
     PriceData.volume := CachedTicker.volume cached;
     PriceData.timestamp := CachedTicker.timestamp cached;
     PriceData.fromCache := true |}.

(** [x || y] on numbers *)
Definition or_else (x y : number) : number := if truthy x then x else y.

(** The operation [fetchPricesFromExchanges] hands to the limiter for one
    exchange: cache first, then the gateway, then fill the cache. *)
Definition fetch_operation (symbol exchange : string)
    : Operation Services PriceData.t :=
  fun '(rt, sv) =>
    let '(cached, cache) :=
      getTicker (fun _ => true) exchange symbol (clock rt) (marketDataCache sv) in
    let sv := {| marketDataCache := cache; gateway := gateway sv |} in
    match cached with
    | Some c => (Returned (from_cached exchange c), (rt, sv))
    | None =>
        match getExchange exchange (rt, gateway sv) with
        | (Threw e, (rt, g)) =>
            (Threw e, (rt, {| marketDataCache := cache; gateway := g |}))
        | (Returned exchangeInstance, (rt, g)) =>
            if negb (has_fetchTicker exchangeInstance) then
              (Threw (Error_new ("Exchange " +:+ exchange
                                 +:+ " does not support fetching tickers")),
               (rt, {| marketDataCache := cache; gateway := g |}))
            else
              match fetchTicker exchangeInstance symbol (rt, g) with
              | (Threw e, (rt, g)) =>
                  (Threw e, (rt, {| marketDataCache := cache; gateway := g |}))
              | (Returned tickerData, (rt, g)) =>
                  let now := Num (inject_Z (clock rt)) in
                  let volume := or_else (TickerData.baseVolume tickerData) (Num 0) in
                  let timestamp := or_else (TickerData.timestamp tickerData) now in
                  let cache :=
                    setTicker exchange symbol
                      {| CachedTicker.exchange := Some exchange;
                         CachedTicker.symbol := TickerData.symbol tickerData;
                         CachedTicker.bid := TickerData.bid tickerData;
                         CachedTicker.ask := TickerData.ask tickerData;
                         CachedTicker.last := TickerData.last tickerData;
                         CachedTicker.volume := volume;
                         CachedTicker.timestamp := timestamp |}
                      (clock rt) cache in
                  (Returned
                     {| PriceData.exchange := exchange;
                        PriceData.symbol := TickerData.symbol tickerData;
                        PriceData.bid := TickerData.bid tickerData;
                        PriceData.ask := TickerData.ask tickerData;
                        PriceData.last := TickerData.last tickerData;
                        PriceData.volume := volume;
                        PriceData.timestamp := timestamp;
                        PriceData.fromCache := false |},
                   (rt, {| marketDataCache := cache; gateway := g |}))
              end
        end
    end.

Definition fetchPricesFromExchanges (symbol : string) (exchanges : list string)
    (lim : LimiterState) (env : Runtime * Services)
    : list PriceData.t * LimiterState * (Runtime * Services) :=
  let '(results, lim, env) :=
    executeBatch Math_random
      (map (fun exchange =>
              {| exchangeId := exchange;
                 operation := fetch_operation symbol exchange;
                 context := Some ("Fetching " +:+ symbol +:+ " ticker") |})
           exchanges)
      lim env in
  (omap (fun r => if success r then result r else None) results, lim, env).

Definition scanForArbitrage (symbol : string) (exchanges : list string)
    (config : PartialConfig.t) (w : World) : list ArbitrageOpportunity * World :=
  let cfg := merge_config config in
  let '(priceData, lim, (rt, sv)) :=
    fetchPricesFromExchanges symbol exchanges (adaptiveRateLimiter w)
                             (runtime w, services w) in
  let opportunities := findOpportunities symbol cfg (clock rt) priceData in
  let opportunities := sort_by_netProfit opportunities in
  (opportunities,
   {| scanner :=
        {| opportunities := store opportunities (Scanner.opportunities (scanner w));
           scannerRunning := scannerRunning (scanner w);
           lastScanTime := Some (clock rt) |};
      adaptiveRateLimiter := lim;
      runtime := rt;
      services := sv |}).

(** The quotes a scan fetches (its [priceData]) and the clock when the
    comparison starts. *)
Definition quotes (symbol : string) (exchanges : list string) (w : World)
    : list PriceData.t :=
  fst (fst (fetchPricesFromExchanges symbol exchanges (adaptiveRateLimiter w)
              (runtime w, services w))).

Definition compared_at (symbol : string) (exchanges : list string) (w : World) : Z :=
  clock (fst (snd (fetchPricesFromExchanges symbol exchanges (adaptiveRateLimiter w)
                     (runtime w, services w)))).

(** *** Continuous scanning *)

(** How a call of [startContinuousScanning] stands after some passes. *)
Inductive ScanRun : Type :=
| Rejected (e : JsError)     (* the call threw *)
| Stopped                    (* the loop ended and the call returned *)
| StillRunning.              (* the loop is still going *)

(** One pass of the loop body: a scan per symbol. *)
Definition scan_pass (cfg : ScannerConfig) (w : World) : World :=
  fold_left
    (fun w symbol => snd (scanForArbitrage symbol (exchanges cfg) (as_partial cfg) w))
    (symbols cfg) w.

Definition set_running (b : bool) (w : World) : World :=
  {| scanner := {| opportunities := opportunities (scanner w);
                   scannerRunning := b;
                   lastScanTime := lastScanTime (scanner w) |};
     adaptiveRateLimiter := adaptiveRateLimiter w;
     runtime := runtime w;
     services := services w |}.

Definition sleep_world (ms : Z) (w : World) : World :=
  {| scanner := scanner w;
     adaptiveRateLimiter := adaptiveRateLimiter w;
     runtime := sleep ms (runtime w);
     services := services w |}.

(** The [while (this.scannerRunning)] loop for at most [passes] passes.
    [stop k] tells whether [stopScanning()] is called from outside while
    pass [k] runs or sleeps. *)
Fixpoint scanning_loop (passes : nat) (k : nat) (stop : nat -> bool)
    (cfg : ScannerConfig) (w : World) : ScanRun * World :=
  if scannerRunning (scanner w) then
    match passes with
    | O => (StillRunning, w)
    | S passes =>
        let w := scan_pass cfg w in
        let w := sleep_world (scanInterval cfg) w in
        let w := if stop k then set_running false w else w in
        scanning_loop passes (S k) stop cfg w
    end
  else (Stopped, w).

Definition startContinuousScanning (config : PartialConfig.t) (stop : nat -> bool)
    (passes : nat) (w : World) : ScanRun * World :=
  if scannerRunning (scanner w) then
    (Rejected (Error_new "Scanner is already running"), w)
  else
    let cfg := merge_config config in
    let w := set_running true w in
    scanning_loop passes 0 stop cfg w.

End WithGateway.

(** *** Housekeeping *)

(** [clearOldOpportunities(maxAge = 300000)]; [now] is [Date.now()].  The
    time an opportunity was found is read off the end of its id. *)
Definition clearOldOpportunities (maxAge : option number) (now : Z)
    (sc : ScannerState) : ScannerState :=
  let maxAge := default (Num 300000) maxAge in
  {| opportunities :=
       List.filter
         (fun '(id, _) =>
            let age := (Num (inject_Z now) - parseInt (split_pop "-" id))%js in
            negb (age >? maxAge)%js)
         (opportunities sc);
     scannerRunning := scannerRunning sc;
     lastScanTime := lastScanTime sc |}.

Module ScannerStats.
Record t : Type := {
  isRunning : bool;
  lastScanTime : option Z;
  totalOpportunities : nat;
  topOpportunity : option ArbitrageOpportunity     (* [None] is [null] *)
}.
End ScannerStats.

Definition getStats (sc : ScannerState) : ScannerStats.t :=
  {| ScannerStats.isRunning := scannerRunning sc;
     ScannerStats.lastScanTime := lastScanTime sc;
     ScannerStats.totalOpportunities := length (opportunities sc);
     ScannerStats.topOpportunity := head (getOpportunities sc) |}.

End Scanner.

(** ** Input validation ([utils/validation.ts]) *)

Module Validation.

Import Limiter.

Definition MAX_EXCHANGE_ID_LENGTH : nat := 50.
Definition MAX_SYMBOL_LENGTH : nat := 20.
Definition MIN_CREDENTIAL_LENGTH : nat := 20.

(** The members of [enum TAPSErrorCode] the validators use. *)
Module TAPSErrorCode.
Definition EXCHANGE_NOT_SUPPORTED : string := "TAPS001".
Definition INVALID_CREDENTIALS : string := "TAPS002".
Definition INVALID_ORDER_PARAMS : string := "TAPS005".
Definition INVALID_SYMBOL : string := "TAPS011".
End TAPSErrorCode.

(** [createError(code, message)]: an [Error] with a [code]. *)
Definition createError (code message : string) : JsError :=
  {| Limiter.code := Some code; Limiter.message := Some message |}.

(** The character class [a-z0-9]. *)
Definition lower_alnum (c : ascii) : bool :=
  let n := nat_of_ascii c in
  (Nat.leb 97 n && Nat.leb n 122) || (Nat.leb 48 n && Nat.leb n 57).

Fixpoint all_chars (p : ascii -> bool) (s : string) : bool :=
  match s with
  | EmptyString => true
  | String c s' => p c && all_chars p s'
  end.

(** [/^[a-z0-9]+$/.test(s)] *)
Definition lower_alnum_only (s : string) : bool :=
  match s with
  | EmptyString => false
  | _ => all_chars lower_alnum s
  end.

Definition validateExchange (exchangeId : string) : Completion unit :=
  match exchangeId with
  | EmptyString =>
      Threw (createError TAPSErrorCode.EXCHANGE_NOT_SUPPORTED "Exchange ID is required")
  | _ =>
      if (MAX_EXCHANGE_ID_LENGTH <? String.length exchangeId)%nat then
        Threw (createError TAPSErrorCode.EXCHANGE_NOT_SUPPORTED
                 ("Invalid exchange ID (max length: "
                  +:+ pretty MAX_EXCHANGE_ID_LENGTH +:+ ")"))
      else if negb (lower_alnum_only exchangeId) then
        Threw (createError TAPSErrorCode.EXCHANGE_NOT_SUPPORTED
                 "Invalid exchange ID format (only lowercase letters and numbers allowed)")
      else Returned tt
  end.

Definition sanitizeSymbol (symbol : string) : string :=
  (* convert to uppercase *)
  let normalized := toUpperCase symbol in
  (* replace common variations: space to slash, colon to slash *)
  let normalized := replace_spaces "/" false normalized in
  let normalized := replace_char ":" "/" normalized in
  (* trim whitespace *)
  trim normalized.

Definition validateSymbol (symbol : string) : Completion string :=
  match symbol with
  | EmptyString => Threw (createError TAPSErrorCode.INVALID_SYMBOL "Symbol is required")
  | _ =>
      if (MAX_SYMBOL_LENGTH <? String.length symbol)%nat then
        Threw (createError TAPSErrorCode.INVALID_SYMBOL
                 ("Symbol too long (max length: " +:+ pretty MAX_SYMBOL_LENGTH +:+ ")"))
      else
        let normalized := sanitizeSymbol symbol in
        (* basic validation: should contain a separator *)
        if negb (includes normalized "/") && negb (includes normalized "-")
           && negb (includes normalized "_")
        then
          Threw (createError TAPSErrorCode.INVALID_SYMBOL
                   ("Invalid symbol format: " +:+ symbol
                    +:+ ". Expected format: BTC/USDT"))
        else Returned normalized
  end.

Definition validTimeframes : list string :=
  [ "1m"; "3m"; "5m"; "15m"; "30m";
    "1h"; "2h"; "4h"; "6h"; "8h"; "12h";
    "1d"; "3d";
    "1w";
    "1M"; "3M" ]%string.

(** [validTimeframes.join(', ')] *)
Fixpoint join (sep : string) (l : list string) : string :=
  match l with
  | [] => ""
  | [x] => x
  | x :: l' => x +:+ sep +:+ join sep l'
  end.

Definition validateTimeframe (timeframe : string) : Completion unit :=
  if negb (existsb (String.eqb timeframe) validTimeframes) then
    Threw (createError TAPSErrorCode.INVALID_ORDER_PARAMS
             ("Invalid timeframe: " +:+ timeframe +:+ ". Valid options: "
              +:+ join ", " validTimeframes))
  else Returned tt.

(** [validateLimit(limit, max)]: [limit] is [None] for [undefined]; [max]
    is an integer in every call (100, 500 or the default 1000). *)
Definition validateLimit (limit : option number) (max : Z) : Completion number :=
  match limit with
  | None => Returned (Num 100)
  | Some limit =>
      if (limit <? Num 1)%js then
        Threw (createError TAPSErrorCode.INVALID_ORDER_PARAMS
                 "Limit must be a positive number")
      else if (limit >? Num (inject_Z max))%js then
        Threw (createError TAPSErrorCode.INVALID_ORDER_PARAMS
                 ("Limit too large. Maximum: " +:+ pretty max))
      else
        Returned (match limit with Num q => Num (inject_Z (Qfloor q)) | NaN => NaN end)
  end.

Definition invalidKeys : list string :=
  [ "your-api-key"; "api-key"; "test"; "demo"; "xxx" ]%string.

(** [None] is [undefined]; an empty string is as falsy. *)
Definition validateCredentials (apiKey secret : option string) : Completion unit :=
  match apiKey, secret with
  | Some (String _ _ as apiKey), Some (String _ _ as secret) =>
      if (String.length apiKey <? MIN_CREDENTIAL_LENGTH)%nat
         || (String.length secret <? MIN_CREDENTIAL_LENGTH)%nat
      then
        Threw (createError TAPSErrorCode.INVALID_CREDENTIALS
                 ("Invalid API credentials format (min length: "
                  +:+ pretty MIN_CREDENTIAL_LENGTH +:+ ")"))
      else if existsb (fun k => includes (toLowerCase apiKey) k) invalidKeys then
        Threw (createError TAPSErrorCode.INVALID_CREDENTIALS
                 "Please provide valid API credentials (not placeholder values)")
      else Returned tt
  | _, _ =>
      Threw (createError TAPSErrorCode.INVALID_CREDENTIALS
               "API key and secret are required for this operation")
  end.

(** A string no character of which is [c]. *)
Definition free_of (c : ascii) (s : string) : Prop :=
  all_chars (fun x => negb (Ascii.eqb x c)) s = true.

(** A string of ASCII characters, on which [toUpperCase], [\s] and [trim]
    are as modelled. *)
Definition ascii_only (s : string) : Prop :=
  all_chars (fun x => Nat.ltb (nat_of_ascii x) 128) s = true.

Definition no_space (s : string) : Prop :=
  all_chars (fun x => negb (is_space x)) s = true.

(** A character [sanitizeSymbol] leaves as it is. *)
Definition normal_char (c : ascii) : bool :=
  Ascii.eqb (upper_ascii c) c && negb (is_space c) && negb (Ascii.eqb c ":").

End Validation.

(** ** Venue gateway ([exchange-manager.ts]) *)

Module Gateway.

Import Limiter Validation.

Section WithCcxt.

(** The ccxt library is an external collaborator: its list of venues, and
    what making an instance does ([new ExchangeClass(config)] with the
    credentials of the environment, then [loadMarkets()], whose failure is
    logged and ignored).  [C] is whatever that acts on. *)
Context {Instance C : Type}.
Variable ccxt_exchanges : list string.
Variable create : string -> Runtime * C -> Instance * (Runtime * C).

Record ExchangeManager : Type := {
  exchanges : gmap string Instance;
  ccxt : C
}.

(** [getExchangeKey(exchangeId)] without a [config]: [parts] is
    [[exchangeId]]. *)
Definition getExchangeKey (exchangeId : string) : string :=
  join ":" [exchangeId].

(** [createExchange(exchangeId)] without a [config]. *)
Definition createExchange (exchangeId : string) (env : Runtime * C)
    : Completion Instance * (Runtime * C) :=
  if negb (existsb (String.eqb exchangeId) ccxt_exchanges) then
    (Threw (createError TAPSErrorCode.EXCHANGE_NOT_SUPPORTED
              ("Exchange '" +:+ exchangeId +:+ "' is not supported. Available exchanges: "
               +:+ join ", " (firstn 10 ccxt_exchanges) +:+ "...")),
     env)
  else
    let '(exchange, env) := create exchangeId env in
    (Returned exchange, env).

(** [getExchange(exchangeId)] without a [config], as the scanner and the
    market data tools call it. *)
Definition getExchange (exchangeId : string) (env : Runtime * ExchangeManager)
    : Completion Instance * (Runtime * ExchangeManager) :=
  let '(rt, manager) := env in
  let key := getExchangeKey exchangeId in
  (* return the cached instance if available *)
  match exchanges manager !! key with
  | Some exchange => (Returned exchange, (rt, manager))
  | None =>
      match createExchange exchangeId (rt, ccxt manager) with
      | (Threw e, (rt, c)) =>
          (Threw e, (rt, {| exchanges := exchanges manager; ccxt := c |}))
      | (Returned exchange, (rt, c)) =>
          (Returned exchange,
           (rt, {| exchanges := <[key := exchange]> (exchanges manager); ccxt := c |}))
      end
  end.

Definition isExchangeSupported (exchangeId : string) : bool :=
  existsb (String.eqb exchangeId) ccxt_exchanges.

(** The operation [executeWithRateLimit] hands to the limiter:
    [async () => { const exchange = await this.getExchange(exchangeId);
    return operation(exchange); }] *)
Definition with_exchange {T : Type} (exchangeId : string)
    (operation : Instance -> Runtime * ExchangeManager ->
                 Completion T * (Runtime * ExchangeManager))
    : Operation ExchangeManager T :=
  fun env =>
    match getExchange exchangeId env with
    | (Threw e, env) => (Threw e, env)
    | (Returned exchange, env) => operation exchange env
    end.

End WithCcxt.

Arguments ExchangeManager : clear implicits.

End Gateway.

(** ** Response formatting ([response-formatter.ts]) *)

Module Formatter.

Import Limiter.

Definition VERSION : string := "TAPS-1.0.0".

Record RateLimitInfo : Type := {
  remaining : number;
  reset : number
}.

Record TAPSMetadata : Type := {
  exchange : string;
  timestamp : Z;
  rateLimit : RateLimitInfo;
  version : string
}.

Record Pagination : Type := {
  page : Q;
  pageSize : Q;
  totalPages : Z;
  totalItems : nat;
  hasNext : bool;
  hasPrevious : bool
}.

Record PaginatedResponse (A : Type) : Type := {
  success : bool;
  data : list A;
  pagination : Pagination;
  metadata : TAPSMetadata
}.
Arguments success {A} _.
Arguments data {A} _.
Arguments pagination {A} _.
Arguments metadata {A} _.

(** ToIntegerOrInfinity on a finite number: truncation towards zero. *)
Definition truncate (x : Q) : Z := if Qle_bool 0 x then Qfloor x else Qceiling x.

(** How [Array.prototype.slice] reads an index of an array of length
    [len]: from the end if negative, and no further than the end. *)
Definition slice_index (len : nat) (x : Q) : nat :=
  let i := truncate x in
  if (i <? 0)%Z then Z.to_nat (Z.max (Z.of_nat len + i) 0)
  else Nat.min (Z.to_nat i) len.

(** [items.slice(start, end)] *)
Definition slice {A : Type} (items : list A) (start final : Q) : list A :=
  let k := slice_index (length items) start in
  let final := slice_index (length items) final in
  firstn (final - k) (skipn k items).

(** [paginated(items, page, pageSize, exchange, rateLimit?)]; [now] is
    [Date.now()].  [page] and [pageSize] are finite numbers: the caller
    replaces a [NaN] by its default ([args.page || 1]). *)
Definition paginated {A : Type} (items : list A) (page pageSize : Q)
    (exchange : string) (rateLimit : option RateLimitInfo) (now : Z)
    : Completion (PaginatedResponse A) :=
  (* validate pageSize to prevent division by zero *)
  if Qle_bool pageSize 0 then Threw (Error_new "PageSize must be positive")
  else if Qlt_bool page 1 then Threw (Error_new "Page number must be at least 1")
  else
    let totalItems := length items in
    let totalPages := Qceiling (inject_Z (Z.of_nat totalItems) / pageSize) in
    let start := (page - 1) * pageSize in
    let final := start + pageSize in
    Returned
      {| success := true;
         data := slice items start final;
         pagination :=
           {| page := page;
              pageSize := pageSize;
              totalPages := totalPages;
              totalItems := totalItems;
              hasNext := Qlt_bool page (inject_Z totalPages);
              hasPrevious := Qlt_bool 1 page |};
         metadata :=
           {| exchange := exchange;
              timestamp := now;
              rateLimit :=
                match rateLimit with
                | Some r => r
                | None => {| remaining := Num (-1); reset := Num (-1) |}
                end;
              version := VERSION |} |}.

(** The items a page shows, none if the call throws. *)
Definition page_items {A : Type} (items : list A) (page pageSize : Q) : list A :=
  match paginated items page pageSize "" None 0 with
  | Returned r => data r
  | Threw _ => []
  end.

End Formatter.

(** ** Risk management ([risk/risk-manager.ts]) *)

Module Risk.

Import Limiter.

Definition TRADING_DAYS_PER_YEAR : number := Num 252.
Definition MAX_PROFIT_LOSS_RATIO : number := Num 999.
Definition FRACTIONAL_KELLY_DIVISOR : number := Num 4.
Definition MAX_KELLY_PERCENT : number := Num 0.25.

Definition maxRiskPerTrade : number := Num 0.02.

Inductive Side : Type := buy | sell.

(** [None] is an absent ([undefined]) property. *)
Module Trade.
Record t : Type := {
  id : string;
  symbol : string;
  side : Side;
  entryPrice : number;
  exitPrice : option number;
  amount : number;
  profit : option number;
  profitPercent : option number;
  timestamp : Z;
  exchange : string
}.
End Trade.

Record TradePerformance : Type := {
  totalTrades : nat;
  winningTrades : nat;
  losingTrades : nat;
  winRate : number;
  avgWin : number;
  avgLoss : number;
  profitLossRatio : number;
  sharpeRatio : number;
  maxDrawdown : number;
  expectancy : number;
  kellyPercent : number
}.

Module PositionSize.
Record t : Type := {
  amount : number;
  value : number;
  percentOfCapital : number;
  riskAmount : number;
  stopLoss : number;
  takeProfit : number
}.
End PositionSize.

(** [Math.abs] *)
Definition abs (a : number) : number :=
  match a with Num x => Num (Qabs x) | NaN => NaN end.

(** [a === 0] *)
Definition is_zero (a : number) : bool :=
  match a with Num x => Qeq_bool x 0 | NaN => false end.

(** [isFinite(a)]; the infinities are not represented. *)
Definition isFinite (a : number) : bool :=
  match a with Num _ => true | NaN => false end.

(** [a.length] as a number *)
Definition count {A : Type} (l : list A) : number := Num (inject_Z (Z.of_nat (length l))).

(** [t.profit!] and [t.profit || 0] *)
Definition profit_of (t : Trade.t) : number :=
  match Trade.profit t with Some x => x | None => NaN end.

Definition or_zero (x : option number) : number :=
  match x with Some x => if truthy x then x else Num 0 | None => Num 0 end.

(** [l.reduce((sum, t) => sum + f(t), 0)] *)
Definition sum_of {A : Type} (f : A -> number) (l : list A) : number :=
  fold_left (fun sum t => (sum + f t)%js) l (Num 0).

Definition calculateExpectancy (winRate avgWin avgLoss : number) : number :=
  (winRate * avgWin - (Num 1 - winRate) * avgLoss)%js.

Definition calculateMaxDrawdown (trades : list Trade.t) : number :=
  match trades with
  | [] => Num 0
  | _ =>
      let '(_, maxDrawdown, _) :=
        fold_left
          (fun '(peak, maxDrawdown, runningBalance) trade =>
             let runningBalance := (runningBalance + or_zero (Trade.profit trade))%js in
             let peak := if (runningBalance >? peak)%js then runningBalance else peak in
             let drawdown := (peak - runningBalance)%js in
             let drawdownPercent :=
               if (peak >? Num 0)%js then (drawdown / peak * Num 100)%js else Num 0 in
             let maxDrawdown :=
               if (drawdownPercent >? maxDrawdown)%js then drawdownPercent
               else maxDrawdown in
             (peak, maxDrawdown, runningBalance))
          trades (Num 0, Num 0, Num 0) in
      maxDrawdown
  end.

Definition calculateKellyPercent (winRate profitLossRatio : number) : number :=
  if is_zero profitLossRatio then Num 0
  else
    let kellyPercent :=
      ((winRate * profitLossRatio - (Num 1 - winRate)) / profitLossRatio)%js in
    (* conservative Kelly (fractional for safety) *)
    (JsNum.max (Num 0)
       (JsNum.min (kellyPercent / FRACTIONAL_KELLY_DIVISOR)%js MAX_KELLY_PERCENT)
     * Num 100)%js.

Definition getEmptyPerformance : TradePerformance :=
  {| totalTrades := 0; winningTrades := 0; losingTrades := 0;
     winRate := Num 0; avgWin := Num 0; avgLoss := Num 0; profitLossRatio := Num 0;
     sharpeRatio := Num 0; maxDrawdown := Num 0; expectancy := Num 0;
     kellyPercent := Num 0 |}.

Section WithSqrt.

(** [Math.sqrt], which has no exact value on the rationals, is left open. *)
Variable Math_sqrt : number -> number.

Definition calculateSharpeRatio (trades : list Trade.t) : number :=
  if (length trades <? 2)%nat then Num 0
  else
    let returns := map (fun t => or_zero (Trade.profitPercent t)) trades in
    let avgReturn := (sum_of (fun r => r) returns / count returns)%js in
    let variance :=
      (sum_of (fun r => (r - avgReturn) * (r - avgReturn)) returns / count returns)%js in
    let stdDev := Math_sqrt variance in
    if is_zero stdDev then Num 0
    else
      (* annualized, assuming daily trades *)
      let annualizedReturn := (avgReturn * TRADING_DAYS_PER_YEAR)%js in
      let annualizedStdDev := (stdDev * Math_sqrt TRADING_DAYS_PER_YEAR)%js in
      (annualizedReturn / annualizedStdDev)%js.

Definition calculatePerformance (trades : list Trade.t) : TradePerformance :=
  match trades with
  | [] => getEmptyPerformance
  | _ =>
      let completedTrades :=
        List.filter (fun t => match Trade.profit t with Some _ => true | None => false end)
                    trades in
      let winningTrades := List.filter (fun t => (profit_of t >? Num 0)%js) completedTrades in
      let losingTrades := List.filter (fun t => (profit_of t <? Num 0)%js) completedTrades in
      let winRate := (count winningTrades / count completedTrades * Num 100)%js in
      let avgWin :=
        if (0 <? length winningTrades)%nat
        then (sum_of profit_of winningTrades / count winningTrades)%js
        else Num 0 in
      let avgLoss :=
        if (0 <? length losingTrades)%nat
        then abs (sum_of profit_of losingTrades / count losingTrades)%js
        else Num 0 in
      (* cap the profit/loss ratio *)
      let profitLossRatio :=
        if (avgLoss >? Num 0)%js then (avgWin / avgLoss)%js
        else if (avgWin >? Num 0)%js then MAX_PROFIT_LOSS_RATIO else Num 0 in
      let expectancy := calculateExpectancy (winRate / Num 100)%js avgWin avgLoss in
      let sharpeRatio := calculateSharpeRatio completedTrades in
      let maxDrawdown := calculateMaxDrawdown completedTrades in
      let kellyPercent := calculateKellyPercent (winRate / Num 100)%js profitLossRatio in
      {| totalTrades := length trades;
         winningTrades := length winningTrades;
         losingTrades := length losingTrades;
         winRate := winRate;
         avgWin := avgWin;
         avgLoss := avgLoss;
         profitLossRatio := profitLossRatio;
         sharpeRatio := sharpeRatio;
         maxDrawdown := maxDrawdown;
         expectancy := expectancy;
         kellyPercent := kellyPercent |}
  end.

End WithSqrt.

(** [calculatePositionSize]; [None] is an omitted argument, which takes
    its default. *)
Definition calculatePositionSize (accountBalance entryPrice winRate avgWin avgLoss : number)
    (volatility stopLossPercent takeProfitRatio : option number)
    : Completion PositionSize.t :=
  let volatility := default (Num 0.02) volatility in
  let stopLossPercent := default (Num 0.02) stopLossPercent in
  let takeProfitRatio := default (Num 2) takeProfitRatio in
  (* validate inputs are positive and finite *)
  if (accountBalance <=? Num 0)%js || (entryPrice <=? Num 0)%js
     || negb (isFinite accountBalance) || negb (isFinite entryPrice)
  then Threw (Error_new "Account balance and entry price must be positive and finite")
  else if (winRate <? Num 0)%js || (winRate >? Num 100)%js
  then Threw (Error_new "Win rate must be between 0 and 100")
  else if (avgLoss <? Num 0)%js || (avgWin <? Num 0)%js
          || negb (isFinite avgWin) || negb (isFinite avgLoss)
  then Threw (Error_new "Average win and loss must be non-negative and finite")
  else
    (* Kelly formula: f = (p * b - q) / b *)
    let p := (winRate / Num 100)%js in
    let q := (Num 1 - p)%js in
    let b :=
      if (avgLoss >? Num 0)%js then (avgWin / avgLoss)%js
      else if (avgWin >? Num 0)%js then MAX_PROFIT_LOSS_RATIO else Num 1 in
    let kellyPercent := if (avgLoss >? Num 0)%js then ((p * b - q) / b)%js else Num 0 in
    (* adjust for volatility *)
    let kellyPercent := (kellyPercent / (Num 1 + volatility * Num 10))%js in
    (* apply safety factor *)
    let kellyPercent := (kellyPercent / FRACTIONAL_KELLY_DIVISOR)%js in
    (* never risk more than maxRiskPerTrade *)
    let kellyPercent := JsNum.min kellyPercent maxRiskPerTrade in
    (* never go negative or above maximum *)
    let kellyPercent := JsNum.max (Num 0) (JsNum.min kellyPercent MAX_KELLY_PERCENT) in
    let positionValue := (accountBalance * kellyPercent)%js in
    let amount := (positionValue / entryPrice)%js in
    let riskAmount := (positionValue * stopLossPercent)%js in
    (* stop loss and take profit prices *)
    let stopLoss := (entryPrice * (Num 1 - stopLossPercent))%js in
    let takeProfit := (entryPrice * (Num 1 + stopLossPercent * takeProfitRatio))%js in
    Returned
      {| PositionSize.amount := amount;
         PositionSize.value := positionValue;
         PositionSize.percentOfCapital := (kellyPercent * Num 100)%js;
         PositionSize.riskAmount := riskAmount;
         PositionSize.stopLoss := stopLoss;
         PositionSize.takeProfit := takeProfit |}.

Definition calculateDynamicStopLoss (entryPrice atr : number)
    (multiplier : option number) (side : option Side) : number :=
  let multiplier := default (Num 2) multiplier in
  match default buy side with
  | buy => (entryPrice - atr * multiplier)%js
  | sell => (entryPrice + atr * multiplier)%js
  end.

Definition calculateDynamicTakeProfit (entryPrice stopLoss : number)
    (riskRewardRatio : option number) (side : option Side) : number :=
  let riskRewardRatio := default (Num 2) riskRewardRatio in
  let risk := abs (entryPrice - stopLoss)%js in
  match default buy side with
  | buy => (entryPrice + risk * riskRewardRatio)%js
  | sell => (entryPrice - risk * riskRewardRatio)%js
  end.

(** A trade that is completed: it has a profit. *)
Definition completed (t : Trade.t) : bool :=
  match Trade.profit t with Some _ => true | None => false end.

(** A trade whose profit, if it has one, is a number. *)
Definition numeric_profit (t : Trade.t) : Prop :=
  match Trade.profit t with Some NaN => False | _ => True end.

(** A trade whose profit, if it has one, is a number of ordinary size:
    zero, or between a billionth and a billion in absolute value.  The
    sums and the ratios of such profits are far from the largest and the
    smallest doubles, so that none overflows to an infinity or underflows
    to zero. *)
Definition ordinary_profit (t : Trade.t) : Prop :=
  match Trade.profit t with
  | Some (Num p) => p == 0 \/ (1 / 1000000000 <= Qabs p /\ Qabs p <= 1000000000)
  | Some NaN => False
  | None => True
  end.

End Risk.

(** ** A small market for examples: two venues that always answer *)

Import Fees Limiter Cache Scanner.

Module Demo.

Definition getExchange (exchange : string) (env : Runtime * unit)
    : Completion string * (Runtime * unit) :=
  (Returned exchange, env).

Definition has_fetchTicker (_ : string) : bool := true.

Definition quote (bid ask volume : Q) : TickerData.t :=
  {| TickerData.symbol := "BTC/USDT";
     TickerData.bid := Num bid;
     TickerData.ask := Num ask;
     TickerData.last := Num ask;
     TickerData.baseVolume := Num volume;
     TickerData.timestamp := Num 1700000000000 |}.

(** binance quotes 99/100, every other venue 200/201, volume 1000. *)
Definition fetchTicker (instance : string) (_ : string) (env : Runtime * unit)
    : Completion TickerData.t * (Runtime * unit) :=
  if String.eqb instance "binance"
  then (Returned (quote 99 100 1000), env)
  else (Returned (quote 200 201 1000), env).

Definition Math_random (_ : nat) : Q := 0.

Definition world : World :=
  {| scanner := Scanner_new;
     adaptiveRateLimiter := {| retryStates := ∅; trace := [] |};
     runtime := {| clock := 1700000000000; draws := 0 |};
     services := {| marketDataCache := empty_caches; gateway := tt |} |}.

(** No trading fees, withdrawal fees included, any risk accepted. *)
Definition config : PartialConfig.t :=
  {| PartialConfig.minProfitPercent := None;
     PartialConfig.maxRiskScore := Some (Num 10);
     PartialConfig.minVolume := None;
     PartialConfig.includeWithdrawalFees := Some true;
     PartialConfig.includeTradingFees := Some false;
     PartialConfig.scanInterval := None;
     PartialConfig.exchanges := None;
     PartialConfig.symbols := None |}.

Definition scan : list ArbitrageOpportunity * World :=
  scanForArbitrage getExchange has_fetchTicker fetchTicker Math_random
                   "BTC/USDT" ["binance"; "kraken"] config world.

(** The two quotes as the scan sees them. *)
Definition binance : PriceData.t :=
  {| PriceData.exchange := "binance"; PriceData.symbol := "BTC/USDT";
     PriceData.bid := Num 99; PriceData.ask := Num 100; PriceData.last := Num 100;
     PriceData.volume := Num 1000; PriceData.timestamp := Num 1700000000000;
     PriceData.fromCache := false |}.

Definition kraken : PriceData.t :=
  {| PriceData.exchange := "kraken"; PriceData.symbol := "BTC/USDT";
     PriceData.bid := Num 200; PriceData.ask := Num 201; PriceData.last := Num 201;
     PriceData.volume := Num 1000; PriceData.timestamp := Num 1700000000000;
     PriceData.fromCache := false |}.

(** A limiter that has seen nothing yet, and a runtime at time zero. *)
Definition idle : LimiterState := {| retryStates := ∅; trace := [] |}.
Definition start : Runtime := {| clock := 0; draws := 0 |}.

(** A venue that is down and one that answers. *)
Definition down : Operation unit nat :=
  fun env => (Threw (Error_new "ECONNRESET"), env).
Definition up : Operation unit nat := fun env => (Returned 1%nat, env).

Definition timeout : JsError := Error_new "request timed out".
Definition bad_credentials : JsError :=
  {| code := Some "INVALID_CREDENTIALS"; message := Some "Invalid API key" |}.

End Demo.

(** * Properties *)

Module JsNumFacts.

Lemma Qlt_bool_iff x y : Qlt_bool x y = true <-> x < y.
Proof.
  unfold Qlt_bool. rewrite negb_true_iff, <- not_true_iff_false, Qle_bool_iff.
  split; [apply Qnot_le_lt | apply Qlt_not_le].
Qed.

Lemma Qlt_bool_false x y : Qlt_bool x y = false <-> y <= x.
Proof. unfold Qlt_bool. rewrite negb_false_iff. apply Qle_bool_iff. Qed.

Lemma Qle_bool_false x y : Qle_bool x y = false <-> y < x.
Proof.
  rewrite <- not_true_iff_false, Qle_bool_iff.
  split; [apply Qnot_le_lt | apply Qlt_not_le].
Qed.

Lemma ltb_true a b :
  (a <? b)%js = true <-> exists x y, a = Num x /\ b = Num y /\ x < y.
Proof.
  split.
  - destruct a as [x|], b as [y|]; simpl; try discriminate.
    intros H. exists x, y. rewrite Qlt_bool_iff in H. auto.
  - intros (x & y & -> & -> & H). simpl. now apply Qlt_bool_iff.
Qed.

Lemma leb_true a b :
  (a <=? b)%js = true <-> exists x y, a = Num x /\ b = Num y /\ x <= y.
Proof.
  split.
  - destruct a as [x|], b as [y|]; simpl; try discriminate.
    intros H. exists x, y. rewrite Qle_bool_iff in H. auto.
  - intros (x & y & -> & -> & H). simpl. now apply Qle_bool_iff.
Qed.

Lemma gtb_true a b :
  (a >? b)%js = true <-> exists x y, a = Num x /\ b = Num y /\ y < x.
Proof.
  unfold gtb. rewrite ltb_true. split; intros (x & y & ? & ? & ?); exists y, x; auto.
Qed.

Lemma geb_true a b :
  (a >=? b)%js = true <-> exists x y, a = Num x /\ b = Num y /\ y <= x.
Proof.
  unfold geb. rewrite leb_true. split; intros (x & y & ? & ? & ?); exists y, x; auto.
Qed.

Lemma eqv_refl a : eqv a a.
Proof. destruct a; simpl; [reflexivity | exact I]. Qed.

(** The clamp [Math.max(lo, Math.min(hi, x))] of a number lands in
    [[lo, hi]]. *)
Lemma clamp_between lo hi x :
  lo <= hi -> between lo hi (JsNum.max (Num lo) (JsNum.min (Num hi) (Num x))).
Proof.
  intros Hlh. simpl.
  destruct (Qle_bool hi x) eqn:E1.
  - destruct (Qle_bool lo hi) eqn:E2.
    + split; [assumption | apply Qle_refl].
    + apply Qle_bool_false in E2. split; [apply Qle_refl | assumption].
  - apply Qle_bool_false in E1.
    destruct (Qle_bool lo x) eqn:E2.
    + apply Qle_bool_iff in E2. split; [assumption | now apply Qlt_le_weak].
    + split; [apply Qle_refl | assumption].
Qed.

End JsNumFacts.

Module JsStringFacts.

Lemma String_app_assoc (a b c : string) : (a +:+ b) +:+ c = a +:+ (b +:+ c).
Proof.
  induction a as [|x a IH]; [reflexivity|].
  change (String x ((a +:+ b) +:+ c) = String x (a +:+ (b +:+ c))). now rewrite IH.
Qed.

(** *** Numbers in ids *)

Lemma pretty_N_char_digit (x : N) :
  (x < 10)%N -> digit_value (pretty_N_char x) = Some (Z.of_N x).
Proof.
  intros H.
  assert (x = 0 \/ x = 1 \/ x = 2 \/ x = 3 \/ x = 4 \/ x = 5 \/ x = 6 \/ x = 7
          \/ x = 8 \/ x = 9)%N as Hx by lia.
  repeat (destruct Hx as [->|Hx]; [reflexivity|]). now subst.
Qed.

Lemma pretty_N_go_digits (x : N) : forall s,
  digits_only s = true -> digits_only (pretty_N_go x s) = true.
Proof.
  induction (N.lt_wf_0 x) as [x _ IH]. intros s Hs.
  destruct (N.eq_dec x 0%N) as [->|Hx]; [now rewrite pretty_N_go_0|].
  rewrite pretty_N_go_step by lia. apply IH; [apply N.div_lt; lia|].
  cbn [digits_only]. rewrite Hs, andb_true_r. unfold is_digit.
  rewrite pretty_N_char_digit; [reflexivity|]. apply N.mod_lt. lia.
Qed.

(** Reading the digits that [pretty_N_go] writes. *)
Lemma read_pretty_N_go (x : N) : forall s,
  (0 < x)%N ->
  read_digits digit_value 10 None (pretty_N_go x s)
  = read_digits digit_value 10 (Some (Z.of_N x)) s.
Proof.
  induction (N.lt_wf_0 x) as [x _ IH]. intros s Hx.
  rewrite pretty_N_go_step by exact Hx.
  destruct (N.eq_dec (x / 10)%N 0%N) as [Hq|Hq].
  - rewrite Hq, pretty_N_go_0. cbn [read_digits].
    rewrite pretty_N_char_digit by (apply N.mod_lt; lia).
    f_equal. f_equal. pose proof (N.div_mod x 10%N ltac:(lia)) as H.
    apply (f_equal Z.of_N) in H. rewrite N2Z.inj_add, N2Z.inj_mul, Hq in H.
    change (Z.of_N 0) with 0%Z in H. change (Z.of_N 10) with 10%Z in H.
    symmetry. exact H.
  - rewrite IH; [|apply N.div_lt; lia|now apply N.neq_0_lt_0]. cbn [read_digits].
    rewrite pretty_N_char_digit by (apply N.mod_lt; lia).
    f_equal. f_equal. pose proof (N.div_mod x 10%N ltac:(lia)) as H.
    apply (f_equal Z.of_N) in H. rewrite N2Z.inj_add, N2Z.inj_mul in H.
    change (Z.of_N 10) with 10%Z in H. symmetry. exact H.
Qed.

Lemma pretty_Z_nonneg (t : Z) : (0 <= t)%Z ->
  pretty t = "0"%string \/ exists x, (0 < x)%N /\ Z.of_N x = t /\ pretty t = pretty_N_go x "".
Proof.
  intros Ht. destruct t as [|p|p]; [now left | right | lia].
  exists (N.pos p). split; [lia|]. split; [reflexivity|].
  unfold pretty, pretty_Z, pretty, pretty_positive, pretty, pretty_N.
  now destruct (decide (N.pos p = 0%N)).
Qed.

Lemma pretty_Z_digits (t : Z) : (0 <= t)%Z -> digits_only (pretty t) = true.
Proof.
  intros Ht. destruct (pretty_Z_nonneg t Ht) as [->|(x & _ & _ & ->)]; [reflexivity|].
  now apply pretty_N_go_digits.
Qed.

Lemma trimStart_digits s : digits_only s = true -> trimStart s = s.
Proof.
  destruct s as [|c s]; [reflexivity|]. cbn [digits_only trimStart].
  rewrite andb_true_iff. intros [Hc _].
  assert (is_space c = false) as ->; [|reflexivity].
  revert Hc. unfold is_digit, digit_value, is_space.
  destruct c as [[] [] [] [] [] [] [] []]; cbn; (reflexivity || discriminate).
Qed.

(** [parseInt] reads back what [pretty] writes for a time. *)
Lemma parseInt_pretty (t : Z) : (0 <= t)%Z -> parseInt (pretty t) = Num (inject_Z t).
Proof.
  intros Ht. unfold parseInt. rewrite trimStart_digits by now apply pretty_Z_digits.
  destruct (pretty_Z_nonneg t Ht) as [E|(x & Hx & <- & E)]; rewrite E.
  - assert (t = 0%Z) as -> by (apply (inj pretty); exact E). reflexivity.
  - pose proof (pretty_N_go_digits x "" eq_refl) as Hd.
    pose proof (read_pretty_N_go x "" Hx) as Hr. cbn [read_digits] in Hr.
    destruct (pretty_N_go x "") as [|c s] eqn:Es.
    + cbn [read_digits] in Hr. discriminate.
    + cbn [digits_only] in Hd. apply andb_true_iff in Hd as [Hc Hs].
      assert (Hsign : c <> "-"%char /\ c <> "+"%char)
        by (split; intros ->; discriminate).
      assert (Hhex : forall s', s = String "x" s' \/ s = String "X" s' -> False).
      { intros s2 [-> | ->]; cbn [digits_only] in Hs; discriminate. }
      destruct Hsign as [Hm Hp].
      assert (Hgo : (let '(sign, s0) :=
                       match String c s with
                       | String "-" s' => ((-1)%Z, s')
                       | String "+" s' => (1%Z, s')
                       | _ => (1%Z, String c s)
                       end in
                     match
                       match s0 with
                       | String "0" (String "x" s') | String "0" (String "X" s') =>
                           read_digits hex_value 16 None s'
                       | _ => read_digits digit_value 10 None s0
                       end
                     with
                     | Some n => Num (inject_Z (sign * n))
                     | None => NaN
                     end)
                    = match read_digits digit_value 10 None (String c s) with
                      | Some n => Num (inject_Z (1 * n))
                      | None => NaN
                      end).
      { destruct c as [[] [] [] [] [] [] [] []]; try congruence; try reflexivity.
        destruct s as [|c' s']; [reflexivity|].
        destruct c' as [[] [] [] [] [] [] [] []]; try reflexivity;
          exfalso; eapply Hhex; eauto. }
      rewrite Hgo, Hr. now rewrite Z.mul_1_l.
Qed.

Lemma after_last_digits s : digits_only s = true -> after_last "-" s = None.
Proof.
  induction s as [|c s IH]; [reflexivity|]. cbn [digits_only after_last].
  rewrite andb_true_iff. intros [Hc Hs]. rewrite (IH Hs).
  destruct (Ascii.eqb_spec c "-") as [->|_]; [discriminate | reflexivity].
Qed.

(** The time is what follows the last dash of an id. *)
Lemma split_pop_id_at prefix (t : Z) : (0 <= t)%Z ->
  split_pop "-" (id_at prefix t) = pretty t.
Proof.
  intros Ht. unfold split_pop, id_at.
  assert (H : after_last "-" (prefix +:+ "-" +:+ pretty t) = Some (pretty t)).
  { induction prefix as [|c p IH].
    - change ("" +:+ "-" +:+ pretty t) with (String "-" (pretty t)).
      cbn [after_last]. now rewrite after_last_digits by now apply pretty_Z_digits.
    - change (String c p +:+ "-" +:+ pretty t) with (String c (p +:+ "-" +:+ pretty t)).
      cbn [after_last]. now rewrite IH. }
  now rewrite H.
Qed.

End JsStringFacts.

Module FeesFacts.

(** The fees are taker fees on both sides, the withdrawal fee of the buy
    venue when the venues differ and the caller asked for it, and their
    sum. *)
Lemma calculateArbitrageFees_breakdown buyExchange sellExchange buyPrice sellPrice
    includeWithdrawal :
  let f := calculateArbitrageFees buyExchange sellExchange buyPrice sellPrice
             includeWithdrawal in
  buyFee f = (buyPrice * taker_of (getExchangeFees buyExchange))%js
  /\ sellFee f = (sellPrice * taker_of (getExchangeFees sellExchange))%js
  /\ withdrawalFee f =
       (if includeWithdrawal && negb (String.eqb buyExchange sellExchange)
        then withdrawal_of (getExchangeFees buyExchange) else Num 0)
  /\ totalFees f = (buyFee f + sellFee f + withdrawalFee f)%js.
Proof. repeat split. Qed.

(** A venue that is neither a key of the table nor a member of
    [Object.prototype] gets the default profile. *)
Lemma getExchangeFees_default exchangeId :
  EXCHANGE_FEES !! toLowerCase exchangeId = None ->
  inherited (toLowerCase exchangeId) = false ->
  getExchangeFees exchangeId = OwnFees DEFAULT_FEES.
Proof. unfold getExchangeFees, EXCHANGE_FEES_get. now intros -> ->. Qed.

(** C7, where the code departs from it: the venue id "constructor" is not
    in the fee table, yet it does not get the default profile.  The lookup
    finds [Object.prototype.constructor], which is truthy and has no rates,
    so the fees of a trade bought there are [NaN]. *)
Theorem getExchangeFees_inherited_key :
  EXCHANGE_FEES !! "constructor"%string = None
  /\ getExchangeFees "constructor" = Inherited "constructor"
  /\ getExchangeFees "constructor" <> OwnFees DEFAULT_FEES
  /\ buyFee (calculateArbitrageFees "constructor" "binance" (Num 100) (Num 101) true) = NaN
  /\ totalFees (calculateArbitrageFees "constructor" "binance" (Num 100) (Num 101) true) = NaN.
Proof. repeat split; try (vm_compute; reflexivity). discriminate. Qed.

(** *** The rates of the table *)

Lemma EXCHANGE_FEES_plausible key f : EXCHANGE_FEES !! key = Some f -> plausible f.
Proof.
  intros H. apply elem_of_list_to_map_2 in H.
  change (plausible (snd (key, f))). revert H. generalize (key, f). apply Forall_forall.
  repeat constructor; cbn [snd]; unfold plausible, mk_fees; cbn [taker withdrawal];
    eexists _, _; (split; [reflexivity|]); (split; [reflexivity|]); lra.
Qed.

Lemma getExchangeFees_plausible exchangeId :
  inherited (toLowerCase exchangeId) = false ->
  exists f, getExchangeFees exchangeId = OwnFees f /\ plausible f.
Proof.
  intros Hi. unfold getExchangeFees, EXCHANGE_FEES_get. rewrite Hi.
  destruct (EXCHANGE_FEES !! toLowerCase exchangeId) as [f|] eqn:E.
  - exists f. split; [reflexivity|]. eapply EXCHANGE_FEES_plausible, E.
  - exists DEFAULT_FEES. split; [reflexivity|].
    unfold plausible, DEFAULT_FEES, mk_fees. cbn [taker withdrawal].
    eexists _, _. split; [reflexivity|]. split; [reflexivity|]. lra.
Qed.

(** A rate that is a number comes from a profile, not from
    [Object.prototype]. *)
Lemma taker_of_Num exchangeId t :
  taker_of (getExchangeFees exchangeId) = Num t -> 0.0002 <= t /\ t <= 0.006.
Proof.
  unfold getExchangeFees, EXCHANGE_FEES_get.
  destruct (EXCHANGE_FEES !! toLowerCase exchangeId) as [f|] eqn:E.
  - destruct (EXCHANGE_FEES_plausible _ _ E) as (t' & w & Ht & _ & H1 & H2 & _).
    cbn [taker_of]. rewrite Ht. intros [= <-]. auto.
  - destruct (inherited (toLowerCase exchangeId)); cbn [taker_of]; [discriminate|].
    unfold DEFAULT_FEES, mk_fees. cbn [taker]. intros [= <-]. lra.
Qed.

Lemma withdrawal_of_Num exchangeId w :
  withdrawal_of (getExchangeFees exchangeId) = Num w -> 5 <= w /\ w <= 25.
Proof.
  unfold getExchangeFees, EXCHANGE_FEES_get.
  destruct (EXCHANGE_FEES !! toLowerCase exchangeId) as [f|] eqn:E.
  - destruct (EXCHANGE_FEES_plausible _ _ E) as (t' & w' & _ & Hw & _ & _ & H1 & H2).
    cbn [withdrawal_of]. rewrite Hw. intros [= <-]. auto.
  - destruct (inherited (toLowerCase exchangeId)); cbn [withdrawal_of]; [discriminate|].
    unfold DEFAULT_FEES, mk_fees. cbn [withdrawal]. intros [= <-]. lra.
Qed.

(** X16: for venue ids that are not the name of a member of
    [Object.prototype], and prices that are not negative, every fee of
    [calculateArbitrageFees] is a number: each trading fee is between 0.02%
    and 0.6% of its price, the withdrawal fee is at most 25, and zero when
    it is not asked for or both ids are the same; the total is their sum. *)
Theorem calculateArbitrageFees_proper buyExchange sellExchange (a b : Q)
    includeWithdrawal :
  inherited (toLowerCase buyExchange) = false ->
  inherited (toLowerCase sellExchange) = false ->
  0 <= a -> 0 <= b ->
  let f := calculateArbitrageFees buyExchange sellExchange (Num a) (Num b)
             includeWithdrawal in
  exists bf sf wf,
    buyFee f = Num bf /\ sellFee f = Num sf /\ withdrawalFee f = Num wf
    /\ totalFees f = Num (bf + sf + wf)
    /\ 0.0002 * a <= bf /\ bf <= 0.006 * a
    /\ 0.0002 * b <= sf /\ sf <= 0.006 * b
    /\ 0 <= wf /\ wf <= 25
    /\ (includeWithdrawal && negb (String.eqb buyExchange sellExchange) = false
        -> wf == 0).
Proof.
  intros Hb Hs Ha0 Hb0 f.
  destruct (getExchangeFees_plausible buyExchange Hb)
    as (fb & Efb & tb & wb & Htb & Hwb & Hb1 & Hb2 & Hb3 & Hb4).
  destruct (getExchangeFees_plausible sellExchange Hs)
    as (fs & Efs & ts & ws & Hts & _ & Hs1 & Hs2 & _).
  unfold f, calculateArbitrageFees, calculateTradingFee, getWithdrawalFee.
  rewrite Efb, Efs. cbn [taker_of withdrawal_of buyFee sellFee withdrawalFee totalFees].
  rewrite Htb, Hts, Hwb. cbn [mul lift2].
  destruct (includeWithdrawal && negb (String.eqb buyExchange sellExchange)).
  - exists (a * tb), (b * ts), wb. cbn [add lift2].
    repeat split; try reflexivity; try nra; try lra.
  - exists (a * tb), (b * ts), 0. cbn [add lift2].
    repeat split; try reflexivity; try nra; try lra.
Qed.

End FeesFacts.

Module ScoringFacts.
Import JsNumFacts.

Lemma risk_adjust_num (c1 c2 c3 : bool) (x : Q) (d1 d2 d3 : Q) :
  exists y,
    (if c1 then (Num x + Num d1)%js
     else if c2 then (Num x + Num d2)%js
     else if c3 then (Num x - Num d3)%js else Num x) = Num y.
Proof. destruct c1, c2, c3; simpl; eauto. Qed.

Lemma calculateRiskScore_between buyExchange sellExchange spreadPercent volume :
  between 1 10 (calculateRiskScore buyExchange sellExchange spreadPercent volume).
Proof.
  unfold calculateRiskScore, NEUTRAL_RISK_SCORE.
  destruct (risk_adjust_num (spreadPercent <? Num 0.5)%js (spreadPercent <? Num 1)%js
              (spreadPercent >? Num 2)%js 5 2 1 1) as [s1 ->].
  destruct (risk_adjust_num (volume <? Num 1000)%js (volume <? Num 10000)%js
              (volume >? Num 100000)%js s1 2 1 1) as [s2 ->].
  destruct (PriceData.fromCache buyExchange), (PriceData.fromCache sellExchange);
    cbn [add lift2]; apply clamp_between; discriminate.
Qed.

Lemma calculateConfidence_between (spreadPercent riskScore : Q) (volume : number)
    (buyFromCache sellFromCache : bool) :
  between 0 100
    (calculateConfidence (Num spreadPercent) volume (Num riskScore)
                         buyFromCache sellFromCache).
Proof.
  unfold calculateConfidence, BASE_CONFIDENCE.
  destruct (volume >? Num 10000)%js, (volume >? Num 100000)%js,
    buyFromCache, sellFromCache;
    cbn [add sub mul lift2 negb]; apply clamp_between; discriminate.
Qed.

(** A spread that is not a number would pass through the clamp
    ([Math.min] and [Math.max] return [NaN] for it); the scanner never
    passes one ([consider_Some] below). *)
Lemma calculateConfidence_NaN volume riskScore buyFromCache sellFromCache :
  calculateConfidence NaN volume riskScore buyFromCache sellFromCache = NaN.
Proof.
  unfold calculateConfidence.
  destruct (volume >? Num 10000)%js, (volume >? Num 100000)%js,
    buyFromCache, sellFromCache, riskScore; reflexivity.
Qed.

(** So would a risk score that is not a number. *)
Lemma calculateConfidence_NaN_riskScore spreadPercent volume buyFromCache sellFromCache :
  calculateConfidence spreadPercent volume NaN buyFromCache sellFromCache = NaN.
Proof.
  unfold calculateConfidence.
  destruct (volume >? Num 10000)%js, (volume >? Num 100000)%js,
    buyFromCache, sellFromCache, spreadPercent; reflexivity.
Qed.

Lemma between_num lo hi a : between lo hi a -> exists x, a = Num x /\ lo <= x <= hi.
Proof. destruct a as [x|]; simpl; [eauto | tauto]. Qed.

End ScoringFacts.

Module ScannerFacts.
Import JsNumFacts JsStringFacts FeesFacts ScoringFacts.

Lemma crossed_true buy sell :
  crossed buy sell = true <->
  exists a b, PriceData.ask buy = Num a /\ PriceData.bid sell = Num b
              /\ 0 < a /\ 0 < b /\ a < b.
Proof.
  unfold crossed. rewrite !andb_true_iff, !gtb_true, ltb_true. split.
  - intros ((((_ & _) & (a & z & Ha & Hz & Hpos)) & (b & z' & Hb & Hz' & Hpos')) & H).
    destruct H as (a' & b' & Ha' & Hb' & Hlt).
    injection Hz as <-. injection Hz' as <-.
    rewrite Ha in Ha'. injection Ha' as <-. rewrite Hb in Hb'. injection Hb' as <-.
    exists a, b. auto.
  - intros (a & b & Ha & Hb & Ha0 & Hb0 & Hab). rewrite Ha, Hb. simpl.
    assert (Qeq_bool a 0 = false) as ->.
    { apply not_true_iff_false. rewrite Qeq_bool_iff. intros E. rewrite E in Ha0.
      now apply Qlt_irrefl in Ha0. }
    assert (Qeq_bool b 0 = false) as ->.
    { apply not_true_iff_false. rewrite Qeq_bool_iff. intros E. rewrite E in Hb0.
      now apply Qlt_irrefl in Hb0. }
    simpl. repeat split; eauto 10.
Qed.

Lemma min_pos (x y : Q) :
  0 < x -> 0 < y -> 0 < (if Qle_bool x y then x else y).
Proof. intros; destruct (Qle_bool x y); assumption. Qed.

Lemma consider_Some symbol cfg now buy sell opp :
  consider symbol cfg now buy sell = Some opp -> Pushed cfg buy sell opp.
Proof.
  unfold consider.
  destruct (crossed buy sell) eqn:Hc; [|discriminate].
  apply crossed_true in Hc as (a & b & Ha & Hb & Ha0 & Hb0 & Hab).
  destruct (analyzeOpportunity symbol buy sell cfg now) as [o|] eqn:Han; [|discriminate].
  destruct (meetsThreshold o cfg) eqn:Hm; [|discriminate].
  intros [= <-].
  unfold analyzeOpportunity in Han.
  set (f := calculateFees buy sell (PriceData.ask buy) (PriceData.bid sell) cfg) in *.
  rewrite Ha, Hb in Han.
  assert (Hd : Qeq_bool a 0 = false).
  { apply not_true_iff_false. rewrite Qeq_bool_iff. intros E. rewrite E in Ha0.
    now apply Qlt_irrefl in Ha0. }
  destruct (totalFees f) as [tf|] eqn:Htf.
  - cbn [sub lift2 leb] in Han.
    destruct (Qle_bool (b - a - tf) 0) eqn:Hnp; [discriminate|].
    apply Qle_bool_false in Hnp.
    destruct (PriceData.volume buy) as [vb|] eqn:Hvb; [|discriminate].
    destruct (PriceData.volume sell) as [vs|] eqn:Hvs;
      [|cbn in Han; rewrite ?orb_true_r in Han; discriminate].
    cbn [truthy leb] in Han.
    destruct (Qle_bool vb 0) eqn:Hvb0;
      [rewrite ?orb_true_r, ?orb_true_l in Han; cbn in Han;
       rewrite ?orb_true_r in Han; discriminate|].
    destruct (Qle_bool vs 0) eqn:Hvs0;
      [rewrite ?orb_true_r in Han; discriminate|].
    apply Qle_bool_false in Hvb0, Hvs0.
    destruct (negb (negb (Qeq_bool vb 0)) || negb (negb (Qeq_bool vs 0)) || false || false);
      [discriminate|].
    injection Han as <-.
    exists a, b, tf, (if Qle_bool vb vs then vb else vs).
    split;
      cbn [buyExchange sellExchange buyPrice sellPrice fees netProfit volume available
           riskScore confidence]; try assumption; try reflexivity.
    + lra.
    + now apply min_pos.
    + apply calculateRiskScore_between.
    + cbn [gtb ltb]. rewrite (proj2 (Qlt_bool_iff 0 a) Ha0). cbn [div]. rewrite Hd.
      cbn [mul lift2 JsNum.min].
      destruct (between_num _ _ _ (calculateRiskScore_between buy sell
                  (Num ((b - a) / a * 100))
                  (Num (if Qle_bool vb vs then vb else vs)))) as (r & -> & _).
      apply calculateConfidence_between.
  - exfalso. cbn [sub lift2 leb] in Han.
    destruct (negb (truthy (PriceData.volume buy)) || negb (truthy (PriceData.volume sell))
              || (PriceData.volume buy <=? Num 0)%js || (PriceData.volume sell <=? Num 0)%js);
      [discriminate|].
    injection Han as <-.
    unfold meetsThreshold in Hm. cbn [netProfitPercent div mul lift2 geb leb] in Hm.
    destruct (minProfitPercent cfg); discriminate.
Qed.


Lemma In_indexed_from {A : Type} (l : list A) (n i : nat) (x : A) :
  In (i, x) (combine (seq n (length l)) l) <-> (n <= i)%nat /\ l !! (i - n)%nat = Some x.
Proof.
  revert n. induction l as [|y l IH]; intros n; simpl.
  - split; [tauto | intros [_ H]; discriminate].
  - rewrite IH. split.
    + intros [[= <- <-] | [Hle Hl]].
      * split; [lia|]. now rewrite Nat.sub_diag.
      * split; [lia|]. replace (i - n)%nat with (S (i - S n)) by lia. exact Hl.
    + intros [Hle Hl]. destruct (i - n)%nat as [|k] eqn:E.
      * left. injection Hl as ->. f_equal. lia.
      * right. split; [lia|]. replace (i - S n)%nat with k by lia. exact Hl.
Qed.

Lemma In_indexed {A : Type} (l : list A) (i : nat) (x : A) :
  In (i, x) (indexed l) <-> l !! i = Some x.
Proof.
  unfold indexed. rewrite In_indexed_from, Nat.sub_0_r. intuition lia.
Qed.

(** The double loop visits exactly the pairs of distinct positions. *)
Lemma In_ordered_pairs priceData buy sell :
  In (buy, sell) (ordered_pairs priceData) <->
  exists i j, i <> j /\ priceData !! i = Some buy /\ priceData !! j = Some sell.
Proof.
  unfold ordered_pairs. rewrite in_flat_map. split.
  - intros ([i b] & Hi & H). rewrite in_flat_map in H.
    destruct H as ([j s] & Hj & H).
    destruct (Nat.eqb_spec i j) as [->|Hne]; [contradiction|].
    destruct H as [[= -> ->]|[]].
    exists i, j. rewrite <- !In_indexed. auto.
  - intros (i & j & Hne & Hi & Hj). exists (i, buy). split; [now apply In_indexed|].
    rewrite in_flat_map. exists (j, sell). split; [now apply In_indexed|].
    destruct (Nat.eqb_spec i j); [contradiction | now left].
Qed.

Lemma In_omap {A B : Type} (f : A -> option B) (l : list A) (y : B) :
  In y (omap f l) <-> exists x, In x l /\ f x = Some y.
Proof.
  rewrite <- list_elem_of_In, list_elem_of_omap.
  split; intros (x & H1 & H2); exists x; split; auto; now apply list_elem_of_In.
Qed.

Lemma In_findOpportunities symbol cfg now priceData opp :
  In opp (findOpportunities symbol cfg now priceData) <->
  exists i j buy sell,
    i <> j /\ priceData !! i = Some buy /\ priceData !! j = Some sell
    /\ consider symbol cfg now buy sell = Some opp.
Proof.
  unfold findOpportunities. rewrite In_omap. split.
  - intros ([buy sell] & Hin & H). apply In_ordered_pairs in Hin as (i & j & ? & ? & ?).
    exists i, j, buy, sell. auto.
  - intros (i & j & buy & sell & Hne & Hi & Hj & H). exists (buy, sell).
    split; [|exact H]. apply In_ordered_pairs. eauto.
Qed.

(** *** Sorting *)

Lemma insert_sorted_perm x l : Permutation (insert_sorted x l) (x :: l).
Proof.
  induction l as [|y l IH]; cbn [insert_sorted]; [reflexivity|].
  destruct (by_netProfit x y >? Num 0)%js; [|reflexivity].
  rewrite IH. apply perm_swap.
Qed.

Lemma sort_by_netProfit_perm l : Permutation (sort_by_netProfit l) l.
Proof.
  induction l as [|x l IH]; simpl; [reflexivity|].
  rewrite insert_sorted_perm. now constructor.
Qed.

Lemma In_sort_by_netProfit x l : In x (sort_by_netProfit l) <-> In x l.
Proof.
  split; apply Permutation_in;
    [apply sort_by_netProfit_perm | symmetry; apply sort_by_netProfit_perm].
Qed.

Lemma insert_sorted_sorted x l :
  has_netProfit x -> Forall has_netProfit l ->
  StronglySorted descending l -> StronglySorted descending (insert_sorted x l).
Proof.
  intros Hx Hl Hs. induction Hs as [|y l Hs IH Hy]; cbn [insert_sorted].
  - repeat constructor.
  - inversion Hl as [|? ? Hy' Hl']; subst.
    assert (exists px, netProfit x = Num px) as [px Epx]
      by (unfold has_netProfit in Hx; destruct (netProfit x); [eauto | contradiction]).
    assert (exists py, netProfit y = Num py) as [py Epy]
      by (unfold has_netProfit in Hy'; destruct (netProfit y); [eauto | contradiction]).
    unfold by_netProfit. rewrite Epx, Epy. cbn [sub lift2 gtb ltb].
    destruct (Qlt_bool 0 (py - px)) eqn:E.
    + apply Qlt_bool_iff in E. constructor; [now apply IH|].
      apply List.Forall_forall. intros z Hz.
      apply (Permutation_in _ (insert_sorted_perm x l)) in Hz.
      destruct Hz as [<-|Hz].
      * unfold descending. rewrite Epy, Epx. cbn. apply Qle_bool_iff. lra.
      * rewrite List.Forall_forall in Hy. exact (Hy z Hz).
    + apply Qlt_bool_false in E. constructor; [now constructor|].
      constructor.
      * unfold descending. rewrite Epx, Epy. cbn. apply Qle_bool_iff. lra.
      * rewrite List.Forall_forall in Hy |- *. intros z Hz. specialize (Hy z Hz).
        unfold descending in *. rewrite Epx. rewrite Epy in Hy.
        apply geb_true in Hy as (u & v & [= <-] & Hv & Huv).
        rewrite Hv. cbn. apply Qle_bool_iff. lra.
Qed.

Lemma sort_by_netProfit_sorted l :
  Forall has_netProfit l -> StronglySorted descending (sort_by_netProfit l).
Proof.
  induction 1 as [|x l Hx Hl IH]; cbn [sort_by_netProfit fold_right]; [constructor|].
  apply insert_sorted_sorted.
  - exact Hx.
  - apply List.Forall_forall. intros z Hz.
    apply (proj1 (In_sort_by_netProfit z l)) in Hz.
    rewrite List.Forall_forall in Hl. exact (Hl z Hz).
  - exact IH.
Qed.

(** *** The figures of an opportunity *)

Lemma calculateFees_nonneg buy sell (a b : Q) cfg fee :
  0 < a -> 0 < b ->
  totalFees (calculateFees buy sell (Num a) (Num b) cfg) = Num fee -> 0 <= fee.
Proof.
  intros Ha Hb. unfold calculateFees. cbn [totalFees].
  unfold calculateArbitrageFees, calculateTradingFee, getWithdrawalFee.
  cbn [buyFee sellFee withdrawalFee].
  assert (Ht : forall ex p x, 0 < p ->
            (Num p * taker_of (getExchangeFees ex))%js = Num x -> 0 <= x).
  { intros ex p x Hp. destruct (taker_of (getExchangeFees ex)) as [t|] eqn:E; [|discriminate].
    apply taker_of_Num in E. cbn. intros [= <-]. nra. }
  assert (Hw : forall ex x, withdrawal_of (getExchangeFees ex) = Num x -> 0 <= x).
  { intros ex x E. apply withdrawal_of_Num in E. lra. }
  destruct (includeTradingFees cfg), (includeWithdrawalFees cfg); cbn [andb].
  - destruct (Num a * taker_of (getExchangeFees (PriceData.exchange buy)))%js
      as [x|] eqn:Ex; [|discriminate].
    destruct (Num b * taker_of (getExchangeFees (PriceData.exchange sell)))%js
      as [y|] eqn:Ey; [|discriminate].
    apply Ht in Ex, Ey; [|assumption..].
    destruct (negb _).
    + destruct (withdrawal_of _) as [z|] eqn:Ez; [|discriminate].
      apply Hw in Ez. cbn. intros [= <-]. lra.
    + cbn. intros [= <-]. lra.
  - destruct (Num a * taker_of (getExchangeFees (PriceData.exchange buy)))%js
      as [x|] eqn:Ex; [|discriminate].
    destruct (Num b * taker_of (getExchangeFees (PriceData.exchange sell)))%js
      as [y|] eqn:Ey; [|discriminate].
    apply Ht in Ex, Ey; [|assumption..]. cbn. intros [= <-]. lra.
  - destruct (negb _).
    + destruct (withdrawal_of _) as [z|] eqn:Ez; [|discriminate].
      apply Hw in Ez. cbn. intros [= <-]. lra.
    + cbn. intros [= <-]. lra.
  - cbn. intros [= <-]. lra.
Qed.

Lemma consider_analyzed symbol cfg now buy sell opp :
  consider symbol cfg now buy sell = Some opp ->
  exists a b fee vol risk, Analyzed symbol now buy sell opp a b fee vol risk.
Proof.
  unfold consider.
  destruct (crossed buy sell) eqn:Hc; [|discriminate].
  apply crossed_true in Hc as (a & b & Ha & Hb & Ha0 & Hb0 & Hab).
  destruct (analyzeOpportunity symbol buy sell cfg now) as [o|] eqn:Han; [|discriminate].
  destruct (meetsThreshold o cfg) eqn:Hm; [|discriminate].
  intros [= <-].
  unfold analyzeOpportunity in Han.
  pose proof (calculateFees_nonneg buy sell a b cfg) as Hfee.
  set (f := calculateFees buy sell (PriceData.ask buy) (PriceData.bid sell) cfg) in *.
  assert (Hf : f = calculateFees buy sell (Num a) (Num b) cfg)
    by (unfold f; now rewrite Ha, Hb).
  rewrite Ha, Hb in Han.
  assert (Hd : Qeq_bool a 0 = false).
  { apply not_true_iff_false. rewrite Qeq_bool_iff. intros E. rewrite E in Ha0.
    now apply Qlt_irrefl in Ha0. }
  destruct (totalFees f) as [tf|] eqn:Htf.
  - cbn [sub lift2 leb] in Han.
    destruct (Qle_bool (b - a - tf) 0) eqn:Hnp; [discriminate|].
    apply Qle_bool_false in Hnp.
    destruct (PriceData.volume buy) as [vb|] eqn:Hvb; [|discriminate].
    destruct (PriceData.volume sell) as [vs|] eqn:Hvs;
      [|cbn in Han; rewrite ?orb_true_r in Han; discriminate].
    cbn [truthy leb] in Han.
    destruct (Qle_bool vb 0) eqn:Hvb0;
      [rewrite ?orb_true_r, ?orb_true_l in Han; cbn in Han;
       rewrite ?orb_true_r in Han; discriminate|].
    destruct (Qle_bool vs 0) eqn:Hvs0;
      [rewrite ?orb_true_r in Han; discriminate|].
    apply Qle_bool_false in Hvb0, Hvs0.
    destruct (negb (negb (Qeq_bool vb 0)) || negb (negb (Qeq_bool vs 0)) || false || false);
      [discriminate|].
    cbn [gtb ltb] in Han. rewrite (proj2 (Qlt_bool_iff 0 a) Ha0) in Han.
    cbn [div mul lift2 JsNum.min] in Han. rewrite Hd in Han. cbn [mul lift2] in Han.
    set (vol := if Qle_bool vb vs then vb else vs) in *.
    destruct (between_num _ _ _ (calculateRiskScore_between buy sell
                (Num ((b - a) / a * 100)) (Num vol))) as (r & Hr & Hr1 & Hr2).
    rewrite Hr in Han.
    injection Han as <-.
    exists a, b, tf, vol, r.
    split;
      cbn [id buyExchange sellExchange buyPrice sellPrice fees netProfit volume available
           optimal riskScore confidence spread spreadPercent potentialProfit
           netProfitPercent executionTime warnings];
      try assumption; try reflexivity; try (split; assumption).
    + unfold id_at. now rewrite !String_app_assoc.
    + split; [|lra]. apply Hfee; [assumption..|]. now rewrite <- Hf.
    + now apply min_pos.
    + unfold estimateExecutionTime.
      destruct (String.eqb (PriceData.exchange buy) (PriceData.exchange sell));
        reflexivity.
  - exfalso. cbn [sub lift2 leb] in Han.
    destruct (negb (truthy (PriceData.volume buy)) || negb (truthy (PriceData.volume sell))
              || (PriceData.volume buy <=? Num 0)%js || (PriceData.volume sell <=? Num 0)%js);
      [discriminate|].
    injection Han as <-.
    unfold meetsThreshold in Hm. cbn [netProfitPercent div mul lift2 geb leb] in Hm.
    destruct (minProfitPercent cfg); discriminate.
Qed.

End ScannerFacts.

Module ScanTheorems.
Import JsNumFacts ScoringFacts ScannerFacts.

Section WithGateway.

Context {G Instance : Type}.
Variable getExchange : string -> Runtime * G -> Completion Instance * (Runtime * G).
Variable has_fetchTicker : Instance -> bool.
Variable fetchTicker :
  Instance -> string -> Runtime * G -> Completion TickerData.t * (Runtime * G).
Variable Math_random : nat -> Q.

Abbreviation World := (@Scanner.World G).
Abbreviation scanForArbitrage :=
  (Scanner.scanForArbitrage getExchange has_fetchTicker fetchTicker Math_random).
Abbreviation fetchPricesFromExchanges :=
  (Scanner.fetchPricesFromExchanges getExchange has_fetchTicker fetchTicker Math_random).
Abbreviation quotes :=
  (Scanner.quotes getExchange has_fetchTicker fetchTicker Math_random).
Abbreviation compared_at :=
  (Scanner.compared_at getExchange has_fetchTicker fetchTicker Math_random).

Lemma scanForArbitrage_result symbol exchanges config w :
  fst (scanForArbitrage symbol exchanges config w) =
  sort_by_netProfit
    (findOpportunities symbol (merge_config config)
       (compared_at symbol exchanges w) (quotes symbol exchanges w)).
Proof.
  unfold Scanner.scanForArbitrage, Scanner.quotes, Scanner.compared_at.
  destruct (fetchPricesFromExchanges _ _ _ _) as [[priceData lim] [rt sv]].
  reflexivity.
Qed.

(** Every opportunity a scan returns was pushed by the loop body for a pair
    of distinct positions of the fetched quotes. *)
Lemma scanForArbitrage_In symbol exchanges config w opp :
  In opp (fst (scanForArbitrage symbol exchanges config w)) <->
  exists i j buy sell,
    i <> j
    /\ quotes symbol exchanges w !! i = Some buy
    /\ quotes symbol exchanges w !! j = Some sell
    /\ consider symbol (merge_config config) (compared_at symbol exchanges w)
                buy sell = Some opp.
Proof.
  rewrite scanForArbitrage_result, In_sort_by_netProfit. apply In_findOpportunities.
Qed.

Lemma scanForArbitrage_Pushed symbol exchanges config w opp :
  In opp (fst (scanForArbitrage symbol exchanges config w)) ->
  exists buy sell, Pushed (merge_config config) buy sell opp.
Proof.
  rewrite scanForArbitrage_In. intros (i & j & buy & sell & _ & _ & _ & H).
  exists buy, sell. eapply consider_Some, H.
Qed.

(** C1 (as amended): the [netProfit] of a returned opportunity is the
    per-unit profit after fees times the available volume,
    [(sellPrice - buyPrice - totalFees) * volume].  The per-unit profit
    and the volume are positive: these are the two tests
    [analyzeOpportunity] makes.  The product itself is not tested; it is
    not negative. *)
Theorem scanForArbitrage_netProfit symbol exchanges config (w : World) :
  Forall (fun opp =>
            eqv (netProfit opp)
                ((sellPrice opp - buyPrice opp - totalFees (fees opp))
                 * available (volume opp))%js
            /\ (sellPrice opp - buyPrice opp - totalFees (fees opp) >? Num 0)%js = true
            /\ (available (volume opp) >? Num 0)%js = true
            /\ (netProfit opp >=? Num 0)%js = true)
         (fst (scanForArbitrage symbol exchanges config w)).
Proof.
  apply List.Forall_forall. intros opp Hin.
  apply scanForArbitrage_Pushed in Hin as (buy & sell & a & b & fee & vol & H).
  rewrite (pushed_netProfit _ _ _ _ _ _ _ _ H), (pushed_sellPrice _ _ _ _ _ _ _ _ H),
    (pushed_buyPrice _ _ _ _ _ _ _ _ H), (pushed_totalFees _ _ _ _ _ _ _ _ H),
    (pushed_available _ _ _ _ _ _ _ _ H).
  pose proof (pushed_profitable _ _ _ _ _ _ _ _ H) as Hfee.
  pose proof (pushed_vol_pos _ _ _ _ _ _ _ _ H) as Hvol.
  split; [|split; [|split]].
  - simpl. reflexivity.
  - apply gtb_true. do 2 eexists. split; [reflexivity|]. split; [reflexivity|].
    lra.
  - apply gtb_true. do 2 eexists. split; [reflexivity|]. split; [reflexivity|].
    lra.
  - apply geb_true. do 2 eexists. split; [reflexivity|]. split; [reflexivity|].
    nra.
Qed.

(** C5: the opportunities a scan returns are those the loop body pushes for
    the ordered pairs of distinct fetched quotes; it pushes one for a pair
    only if the ask of the buy venue is below the bid of the sell venue and
    both are strictly positive; and for a pair with [sell.bid <= buy.ask]
    it pushes none. *)
Theorem scanForArbitrage_crossed_pairs_only symbol exchanges config (w : World) :
  let priceData := quotes symbol exchanges w in
  let cfg := merge_config config in
  let now := compared_at symbol exchanges w in
  (forall opp,
     In opp (fst (scanForArbitrage symbol exchanges config w)) <->
     exists i j buy sell,
       i <> j /\ priceData !! i = Some buy /\ priceData !! j = Some sell
       /\ consider symbol cfg now buy sell = Some opp)
  /\ (forall buy sell opp,
        consider symbol cfg now buy sell = Some opp ->
        exists a b,
          PriceData.ask buy = Num a /\ PriceData.bid sell = Num b
          /\ 0 < a /\ 0 < b /\ a < b
          /\ buyExchange opp = PriceData.exchange buy
          /\ sellExchange opp = PriceData.exchange sell
          /\ buyPrice opp = Num a /\ sellPrice opp = Num b)
  /\ (forall buy sell,
        (PriceData.bid sell <=? PriceData.ask buy)%js = true ->
        consider symbol cfg now buy sell = None).
Proof.
  intros priceData cfg now. split; [|split].
  - intros opp. apply scanForArbitrage_In.
  - intros buy sell opp H. apply consider_Some in H as (a & b & fee & vol & H).
    destruct H as [Hbuy Hsell Hapos Hbpos Hcross HbuyEx HsellEx HbuyP HsellP _ _ _ _ _ _ _ _].
    exists a, b. repeat split; assumption.
  - intros buy sell Hle. unfold consider.
    destruct (crossed buy sell) eqn:Hc; [|reflexivity].
    apply crossed_true in Hc as (a & b & Ha & Hb & _ & _ & Hab).
    rewrite Ha, Hb in Hle. apply leb_true in Hle as (x & y & [= <-] & [= <-] & Hle).
    exfalso. lra.
Qed.

(** C6 (as amended): the risk score is in [1, 10] whatever the inputs,
    [NaN] included.  The confidence is in [0, 100] when the spread is a
    number and the risk score is one that [calculateRiskScore] can return
    (a number in [1, 10]), whatever the volume (zero, [NaN]) and a zero
    spread included; it is [NaN], and so in no range, when the spread or
    the risk score is [NaN].  The scanner passes neither: the [riskScore]
    and the [confidence] of every opportunity a scan returns are in
    range. *)
Theorem riskScore_and_confidence_in_range :
  (forall buyExchange sellExchange spreadPercent volume,
     between 1 10 (calculateRiskScore buyExchange sellExchange spreadPercent volume))
  /\ (forall (spreadPercent riskScore : Q) volume buyFromCache sellFromCache,
        1 <= riskScore <= 10 ->
        between 0 100
          (calculateConfidence (Num spreadPercent) volume (Num riskScore)
                               buyFromCache sellFromCache))
  /\ (forall spreadPercent volume riskScore buyFromCache sellFromCache,
        calculateConfidence NaN volume riskScore buyFromCache sellFromCache = NaN
        /\ calculateConfidence spreadPercent volume NaN buyFromCache sellFromCache = NaN)
  /\ (forall symbol exchanges config (w : World),
        Forall (fun opp => between 1 10 (riskScore opp)
                           /\ between 0 100 (confidence opp))
               (fst (scanForArbitrage symbol exchanges config w))).
Proof.
  split; [|split; [|split]].
  - apply calculateRiskScore_between.
  - intros. apply calculateConfidence_between.
  - intros. split;
      [apply calculateConfidence_NaN | apply calculateConfidence_NaN_riskScore].
  - intros. apply List.Forall_forall. intros opp Hin.
    apply scanForArbitrage_Pushed in Hin as (buy & sell & a & b & fee & vol & H).
    split; [exact (pushed_riskScore _ _ _ _ _ _ _ _ H)
           | exact (pushed_confidence _ _ _ _ _ _ _ _ H)].
Qed.

(** C8: every returned opportunity meets the three thresholds of the
    configuration in force, which are the caller's where the caller gives
    them and the defaults (0.1 %, 7, 100) elsewhere, and the list is in
    descending order of [netProfit]. *)
Theorem scanForArbitrage_thresholds_and_order symbol exchanges config (w : World) :
  let cfg := merge_config config in
  let found := fst (scanForArbitrage symbol exchanges config w) in
  Forall (fun opp =>
            (netProfitPercent opp >=? minProfitPercent cfg)%js = true
            /\ (riskScore opp <=? maxRiskScore cfg)%js = true
            /\ (available (volume opp) >=? minVolume cfg)%js = true) found
  /\ StronglySorted descending found
  /\ minProfitPercent cfg = default (Num 0.1) (PartialConfig.minProfitPercent config)
  /\ maxRiskScore cfg = default (Num 7) (PartialConfig.maxRiskScore config)
  /\ minVolume cfg = default (Num 100) (PartialConfig.minVolume config).
Proof.
  intros cfg found. split; [|split; [|repeat split]].
  - apply List.Forall_forall. intros opp Hin.
    apply scanForArbitrage_Pushed in Hin as (buy & sell & a & b & fee & vol & H).
    pose proof (pushed_threshold _ _ _ _ _ _ _ _ H) as Hm.
    unfold meetsThreshold in Hm. apply andb_true_iff in Hm as [Hm H3].
    apply andb_true_iff in Hm as [H1 H2]. auto.
  - unfold found. rewrite scanForArbitrage_result.
    apply sort_by_netProfit_sorted, List.Forall_forall. intros opp Hin.
    apply In_findOpportunities in Hin as (i & j & buy & sell & _ & _ & _ & H).
    apply consider_Some in H as (a & b & fee & vol & H).
    unfold has_netProfit. now rewrite (pushed_netProfit _ _ _ _ _ _ _ _ H).
Qed.

(** C10: a second [startContinuousScanning] while the scanner runs throws
    'Scanner is already running', scans nothing and leaves everything as
    it was: the running flag, the stored opportunities, the time of the
    last scan, and the limiter, the cache and the clock as well. *)
Theorem startContinuousScanning_already_running config stop passes (w : World) :
  scannerRunning (scanner w) = true ->
  startContinuousScanning getExchange has_fetchTicker fetchTicker Math_random
                          config stop passes w
  = (Rejected (Error_new "Scanner is already running"), w).
Proof.
  intros H. unfold startContinuousScanning. now rewrite H.
Qed.

End WithGateway.

End ScanTheorems.


Module LimiterFacts.

Section WithOperation.

Variable Math_random : nat -> Q.
Context {W T : Type}.

Abbreviation body := (executeWithBackoff_body Math_random (W := W) (T := T)).
Abbreviation backoff := (Limiter.backoff Math_random (W := W) (T := T)).
Abbreviation executeWithBackoff := (Limiter.executeWithBackoff Math_random (W := W) (T := T)).
Abbreviation at_call := (Limiter.at_call Math_random).

Lemma getOrCreateState_count exchangeId now lim :
  retryCount (snd (getOrCreateState exchangeId now (retryStates lim)))
  = retry_count exchangeId lim.
Proof.
  unfold getOrCreateState, retry_count.
  destruct (retryStates lim !! exchangeId); reflexivity.
Qed.

Lemma getOrCreateState_lookup exchangeId now m :
  fst (getOrCreateState exchangeId now m) !! exchangeId
  = Some (snd (getOrCreateState exchangeId now m)).
Proof.
  unfold getOrCreateState. destruct (m !! exchangeId) eqn:E; simpl; [exact E|].
  apply lookup_insert_eq.
Qed.

Lemma retry_count_failed exchangeId lim now0 now tr :
  retry_count exchangeId {| retryStates := failed exchangeId lim now0 now; trace := tr |}
  = S (retry_count exchangeId lim).
Proof.
  unfold failed, retry_count at 1. cbn [retryStates].
  destruct (getOrCreateState exchangeId now0 (retryStates lim)) as [m st] eqn:E.
  rewrite lookup_insert_eq. cbn [retryCount].
  change st with (snd (m, st)). rewrite <- E. now rewrite getOrCreateState_count.
Qed.

Lemma retry_count_reset exchangeId now m tr :
  is_Some (m !! exchangeId) ->
  retry_count exchangeId {| retryStates := resetState exchangeId now m; trace := tr |} = 0%nat.
Proof.
  intros [st Hst]. unfold retry_count, resetState. cbn [retryStates].
  rewrite lookup_alter_eq, Hst. reflexivity.
Qed.

Lemma retry_count_reset_created exchangeId now0 now lim tr :
  retry_count exchangeId
    {| retryStates :=
         resetState exchangeId now (fst (getOrCreateState exchangeId now0 (retryStates lim)));
       trace := tr |} = 0%nat.
Proof. apply retry_count_reset. rewrite getOrCreateState_lookup. eauto. Qed.

Lemma retry_count_reset_failed exchangeId now0 now1 now lim tr :
  retry_count exchangeId
    {| retryStates := resetState exchangeId now (failed exchangeId lim now0 now1);
       trace := tr |} = 0%nat.
Proof.
  apply retry_count_reset. unfold failed.
  destruct (getOrCreateState exchangeId now0 (retryStates lim)).
  rewrite lookup_insert_eq. eauto.
Qed.

(** The four ways through the body. *)
Lemma body_Returned retry exchangeId operation context lim rt w v rt' w' :
  operation (fst (at_call exchangeId lim rt), w) = (Returned v, (rt', w')) ->
  body retry exchangeId operation context lim (rt, w)
  = (Returned v,
     {| retryStates :=
          resetState exchangeId (clock rt')
            (fst (getOrCreateState exchangeId (clock rt) (retryStates lim)));
        trace := snd (at_call exchangeId lim rt) |},
     (rt', w')).
Proof.
  unfold executeWithBackoff_body, at_call.
  rewrite <- (getOrCreateState_count exchangeId (clock rt) lim).
  destruct (getOrCreateState exchangeId (clock rt) (retryStates lim)) as [m st].
  cbn [fst snd].
  destruct (0 <? retryCount st)%nat.
  - destruct (calculateDelay Math_random (retryCount st) rt) as [d rt1]. cbn [fst snd].
    intros ->. now rewrite <- app_assoc.
  - cbn [fst snd]. now intros ->.
Qed.

Lemma body_Threw retry exchangeId operation context lim rt w e rt' w' :
  operation (fst (at_call exchangeId lim rt), w) = (Threw e, (rt', w')) ->
  body retry exchangeId operation context lim (rt, w)
  = let m := failed exchangeId lim (clock rt) (clock rt') in
    let tr := snd (at_call exchangeId lim rt) in
    if (maxRetries <? S (retry_count exchangeId lim))%nat then
      (Threw (Error_new (maxRetriesMessage exchangeId context e)),
       {| retryStates := resetState exchangeId (clock rt') m; trace := tr |}, (rt', w'))
    else if isNonRetryableError e then
      (Threw e, {| retryStates := resetState exchangeId (clock rt') m; trace := tr |},
       (rt', w'))
    else retry {| retryStates := m; trace := tr |} (rt', w').
Proof.
  unfold executeWithBackoff_body, at_call, failed.
  rewrite <- (getOrCreateState_count exchangeId (clock rt) lim).
  destruct (getOrCreateState exchangeId (clock rt) (retryStates lim)) as [m st].
  cbn [fst snd].
  destruct (0 <? retryCount st)%nat.
  - destruct (calculateDelay Math_random (retryCount st) rt) as [d rt1]. cbn [fst snd].
    intros ->. cbn [retryCount]. now rewrite <- app_assoc.
  - cbn [fst snd]. now intros ->.
Qed.

Lemma backoff_eq budget exchangeId operation context lim env :
  backoff budget exchangeId operation context lim env
  = body (match budget with
          | S budget => backoff budget exchangeId operation context
          | O => fun lim env => (Threw (Error_new "unreachable"), lim, env)
          end) exchangeId operation context lim env.
Proof. destruct budget; reflexivity. Qed.

(** The depth of the recursion does not matter once it covers the retries
    that are left. *)
Lemma backoff_budget exchangeId operation context b1 :
  forall b2 lim env,
    (maxRetries <= b1 + retry_count exchangeId lim)%nat ->
    (maxRetries <= b2 + retry_count exchangeId lim)%nat ->
    backoff b1 exchangeId operation context lim env
    = backoff b2 exchangeId operation context lim env.
Proof.
  induction b1 as [|b1 IH]; intros b2 lim [rt w] H1 H2; rewrite (backoff_eq _ _ _ _ lim), (backoff_eq b2).
  all: destruct (operation (fst (at_call exchangeId lim rt), w)) as [[v|e] [rt' w']] eqn:Hop.
  all: try (rewrite !(body_Returned _ _ _ _ _ _ _ _ _ _ Hop); reflexivity).
  all: rewrite !(body_Threw _ _ _ _ _ _ _ _ _ _ Hop); cbv zeta.
  all: destruct (maxRetries <? S (retry_count exchangeId lim))%nat eqn:Hmax; [reflexivity|].
  all: destruct (isNonRetryableError e); [reflexivity|].
  all: apply Nat.ltb_ge in Hmax.
  - lia.
  - destruct b2 as [|b2]; [lia|].
    apply IH; rewrite retry_count_failed; lia.
Qed.

(** [executeWithBackoff] satisfies the recursive equation of the source. *)
Lemma executeWithBackoff_unfold exchangeId operation context lim env :
  executeWithBackoff exchangeId operation context lim env
  = body (executeWithBackoff exchangeId operation context)
         exchangeId operation context lim env.
Proof.
  unfold Limiter.executeWithBackoff. rewrite backoff_eq.
  destruct env as [rt w].
  destruct (operation (fst (at_call exchangeId lim rt), w)) as [[v|e] [rt' w']] eqn:Hop.
  - now rewrite !(body_Returned _ _ _ _ _ _ _ _ _ _ Hop).
  - rewrite !(body_Threw _ _ _ _ _ _ _ _ _ _ Hop); cbv zeta.
    destruct (maxRetries <? S (retry_count exchangeId lim))%nat eqn:Hmax; [reflexivity|].
    destruct (isNonRetryableError e); [reflexivity|].
    apply Nat.ltb_ge in Hmax.
    change maxRetries with (S (Nat.pred maxRetries)) at 2.
    apply backoff_budget; rewrite retry_count_failed; simpl; unfold maxRetries in *; lia.
Qed.


Lemma at_call_trace exchangeId lim rt :
  exists evs, snd (at_call exchangeId lim rt) = trace lim ++ evs
              /\ attempts (snd (at_call exchangeId lim rt)) = S (attempts (trace lim)).
Proof.
  unfold at_call. destruct (0 <? retry_count exchangeId lim)%nat; cbn [snd];
    eexists; (split; [reflexivity|]);
    unfold attempts; rewrite List.filter_app, length_app; simpl; lia.
Qed.

Lemma at_call_fresh exchangeId lim rt :
  retry_count exchangeId lim = 0%nat ->
  at_call exchangeId lim rt = (rt, trace lim ++ [EvAttempt exchangeId]).
Proof. unfold at_call. now intros ->. Qed.

(** A call only ever adds to the trace. *)
Lemma backoff_trace exchangeId operation context budget :
  forall lim env,
    exists evs,
      trace (snd (fst (backoff budget exchangeId operation context lim env)))
      = trace lim ++ evs.
Proof.
  induction budget as [|budget IH]; intros lim [rt w]; rewrite backoff_eq.
  all: destruct (at_call_trace exchangeId lim rt) as (evs & Hevs & _).
  all: destruct (operation (fst (at_call exchangeId lim rt), w)) as [[v|e] [rt' w']] eqn:Hop.
  all: try (rewrite (body_Returned _ _ _ _ _ _ _ _ _ _ Hop); cbn [fst snd trace]; eauto).
  all: rewrite (body_Threw _ _ _ _ _ _ _ _ _ _ Hop); cbv zeta.
  all: destruct (maxRetries <? S (retry_count exchangeId lim))%nat;
    [cbn [fst snd trace]; eauto|].
  all: destruct (isNonRetryableError e); [cbn [fst snd trace]; eauto|].
  - cbn [fst snd trace]; eauto.
  - destruct (IH {| retryStates := failed exchangeId lim (clock rt) (clock rt');
                    trace := snd (at_call exchangeId lim rt) |} (rt', w')) as (evs' & ->).
    cbn [trace]. rewrite Hevs, <- app_assoc. eauto.
Qed.

(** With a retry count of zero the first thing a call does is to call the
    operation: there is no initial delay. *)
Lemma executeWithBackoff_no_initial_delay exchangeId operation context lim env :
  retry_count exchangeId lim = 0%nat ->
  exists evs,
    trace (snd (fst (executeWithBackoff exchangeId operation context lim env)))
    = trace lim ++ EvAttempt exchangeId :: evs.
Proof.
  intros Hrc. unfold Limiter.executeWithBackoff. rewrite backoff_eq.
  destruct env as [rt w].
  destruct (operation (fst (at_call exchangeId lim rt), w)) as [[v|e] [rt' w']] eqn:Hop.
  - rewrite (body_Returned _ _ _ _ _ _ _ _ _ _ Hop), at_call_fresh by exact Hrc.
    cbn [fst snd trace]. exists []. reflexivity.
  - rewrite (body_Threw _ _ _ _ _ _ _ _ _ _ Hop), at_call_fresh by exact Hrc. cbv zeta.
    destruct (maxRetries <? S (retry_count exchangeId lim))%nat;
      [cbn [fst snd trace]; exists []; reflexivity|].
    destruct (isNonRetryableError e); [cbn [fst snd trace]; exists []; reflexivity|].
    cbn [snd].
    destruct (backoff_trace exchangeId operation context (Nat.pred maxRetries)
                {| retryStates := failed exchangeId lim (clock rt) (clock rt');
                   trace := trace lim ++ [EvAttempt exchangeId] |} (rt', w')) as (evs & Hevs).
    exists evs. cbn [Nat.pred maxRetries] in Hevs. cbn [maxRetries].
    rewrite Hevs. cbn [trace]. now rewrite <- app_assoc.
Qed.

(** A first attempt that fails with a non-retryable error, whatever the
    operation: the error is thrown on after that one attempt and the retry
    count is zero again. *)
Lemma executeWithBackoff_non_retryable_first exchangeId (operation : Operation W T)
    context lim rt w e rt' w' :
  retry_count exchangeId lim = 0%nat ->
  operation (rt, w) = (Threw e, (rt', w')) ->
  isNonRetryableError e = true ->
  exists lim',
    executeWithBackoff exchangeId operation context lim (rt, w)
    = (Threw e, lim', (rt', w'))
    /\ retry_count exchangeId lim' = 0%nat
    /\ trace lim' = trace lim ++ [EvAttempt exchangeId].
Proof.
  intros Hrc Hop He. unfold Limiter.executeWithBackoff. rewrite backoff_eq.
  assert (Hop' : operation (fst (at_call exchangeId lim rt), w) = (Threw e, (rt', w')))
    by (now rewrite at_call_fresh).
  rewrite (body_Threw _ _ _ _ _ _ _ _ _ _ Hop'). cbv zeta.
  rewrite Hrc, He. cbn [Nat.ltb Nat.leb maxRetries].
  eexists. split; [reflexivity|]. split; [apply retry_count_reset_failed|].
  cbn [trace]. now rewrite at_call_fresh.
Qed.

(** An operation that keeps failing with retryable errors is given up on
    after [maxRetries] retries: the terminal error is thrown and the retry
    count is zero again. *)
Lemma backoff_persistent_failure exchangeId (operation : Operation W T) context :
  (forall env, exists e env', operation env = (Threw e, env') /\ retryable e) ->
  forall n lim env,
    (retry_count exchangeId lim + n = maxRetries)%nat ->
    exists e lim' env',
      backoff n exchangeId operation context lim env
      = (Threw (Error_new (maxRetriesMessage exchangeId context e)), lim', env')
      /\ retry_count exchangeId lim' = 0%nat
      /\ attempts (trace lim') = (attempts (trace lim) + S n)%nat.
Proof.
  intros Hf. induction n as [|n IH]; intros lim [rt w] Hrc; rewrite backoff_eq.
  all: destruct (Hf (fst (at_call exchangeId lim rt), w)) as (e & [rt' w'] & Hop & He).
  all: rewrite (body_Threw _ _ _ _ _ _ _ _ _ _ Hop); cbv zeta.
  all: destruct (at_call_trace exchangeId lim rt) as (_ & _ & Hat).
  - destruct (Nat.ltb_spec maxRetries (S (retry_count exchangeId lim))) as [_|Hge]; [|lia].
    exists e. eexists _, _. split; [reflexivity|].
    split; [apply retry_count_reset_failed|]. cbn [trace]. lia.
  - destruct (Nat.ltb_spec maxRetries (S (retry_count exchangeId lim))) as [Hlt|_]; [lia|].
    rewrite He.
    destruct (IH {| retryStates := failed exchangeId lim (clock rt) (clock rt');
                    trace := snd (at_call exchangeId lim rt) |} (rt', w'))
      as (e' & lim' & env' & Hrun & Hrc' & Hat').
    + rewrite retry_count_failed. lia.
    + exists e', lim', env'. split; [exact Hrun|]. split; [exact Hrc'|].
      cbn [trace] in Hat'. lia.
Qed.

Lemma executeWithBackoff_persistent_failure exchangeId (operation : Operation W T)
    context lim env :
  (forall env, exists e env', operation env = (Threw e, env') /\ retryable e) ->
  retry_count exchangeId lim = 0%nat ->
  exists e lim' env',
    executeWithBackoff exchangeId operation context lim env
    = (Threw (Error_new (maxRetriesMessage exchangeId context e)), lim', env')
    /\ retry_count exchangeId lim' = 0%nat
    /\ attempts (trace lim') = (attempts (trace lim) + 6)%nat.
Proof.
  intros Hf Hrc.
  destruct (backoff_persistent_failure exchangeId operation context Hf maxRetries lim env)
    as (e & lim' & env' & Hrun & Hrc' & Hat); [lia|].
  exists e, lim', env'. auto.
Qed.

End WithOperation.

(** *** Scripted operations *)

Section Scripted.

Variable Math_random : nat -> Q.
Context {T : Type}.

Abbreviation run :=
  (Limiter.backoff Math_random (W := list (Completion T)) (T := T)).

(** A run of retryable failures: each is retried, each adds one to the
    retry count and one attempt to the trace. *)
Lemma scripted_retries exchangeId context (errors : list JsError) :
  forall budget lim rt rest,
    Forall retryable errors ->
    (retry_count exchangeId lim + length errors <= maxRetries)%nat ->
    (length errors <= budget)%nat ->
    exists lim' rt',
      run budget exchangeId (scripted (T := T)) context lim (rt, map Threw errors ++ rest)
      = run (budget - length errors) exchangeId (scripted (T := T)) context lim' (rt', rest)
      /\ retry_count exchangeId lim' = (retry_count exchangeId lim + length errors)%nat
      /\ attempts (trace lim') = (attempts (trace lim) + length errors)%nat.
Proof.
  induction errors as [|e errors IH]; intros budget lim rt rest Hre Hrc Hb.
  - exists lim, rt. cbn [map app length]. rewrite Nat.sub_0_r, !Nat.add_0_r. auto.
  - cbn [length] in Hrc, Hb. destruct budget as [|budget]; [lia|].
    inversion Hre as [|? ? He Hre']; subst.
    rewrite backoff_eq. cbn [map app].
    assert (Hop : scripted (fst (at_call Math_random exchangeId lim rt),
                            Threw e :: map Threw errors ++ rest)
                  = (Threw e, (fst (at_call Math_random exchangeId lim rt),
                               map Threw errors ++ rest))).
    { unfold scripted. now destruct (at_call Math_random exchangeId lim rt). }
    rewrite (body_Threw _ _ _ _ _ _ _ _ _ _ _ Hop). cbv zeta.
    destruct (Nat.ltb_spec maxRetries (S (retry_count exchangeId lim))) as [Hlt|_]; [lia|].
    rewrite He.
    destruct (IH budget
                {| retryStates :=
                     failed exchangeId lim (clock rt)
                       (clock (fst (at_call Math_random exchangeId lim rt)));
                   trace := snd (at_call Math_random exchangeId lim rt) |}
                (fst (at_call Math_random exchangeId lim rt)) rest Hre')
      as (lim' & rt' & Hrun & Hrc' & Hat).
    + rewrite retry_count_failed. lia.
    + lia.
    + exists lim', rt'. cbn [length Nat.sub]. split; [exact Hrun|].
      rewrite retry_count_failed in Hrc'. cbn [trace] in Hat.
      destruct (at_call_trace Math_random exchangeId lim rt) as (_ & _ & Hn).
      rewrite Hn in Hat. split; lia.
Qed.


Lemma scripted_next (completion : Completion T) rest exchangeId lim rt :
  scripted (T := T) (fst (at_call Math_random exchangeId lim rt), completion :: rest)
  = (completion, (fst (at_call Math_random exchangeId lim rt), rest)).
Proof. unfold scripted. now destruct (at_call Math_random exchangeId lim rt). Qed.

(** C3 (as amended): when the first attempt and all [maxRetries] retries
    fail, six attempts in a row, the call throws the one terminal error
    'Max retries (5) exceeded for <venue>...', which carries the message of
    the last failure; the retry count of the venue is back at zero and the
    next call for the venue starts with the operation, not with a delay. *)
Theorem executeWithBackoff_max_retries exchangeId context
    (errors : list JsError) (last : JsError) lim rt rest :
  retry_count exchangeId lim = 0%nat ->
  length errors = maxRetries ->
  Forall retryable errors ->
  exists lim' rt',
    Limiter.executeWithBackoff Math_random exchangeId (scripted (T := T)) context lim
      (rt, map Threw errors ++ Threw last :: rest)
    = (Threw (Error_new ("Max retries (5) exceeded for " +:+ exchangeId
                         +:+ context_suffix context +:+ ". Last error: "
                         +:+ show (message last))),
       lim', (rt', rest))
    /\ retry_count exchangeId lim' = 0%nat
    /\ attempts (trace lim') = (attempts (trace lim) + 6)%nat
    /\ forall (W' T' : Type) (operation : Operation W' T') context' env,
         exists evs,
           trace (snd (fst (Limiter.executeWithBackoff Math_random exchangeId
                              operation context' lim' env)))
           = trace lim' ++ EvAttempt exchangeId :: evs.
Proof.
  intros Hrc Hlen Hre. unfold Limiter.executeWithBackoff.
  destruct (scripted_retries exchangeId context errors maxRetries lim rt
              (Threw last :: rest) Hre) as (lim1 & rt1 & Hrun & Hrc1 & Hat1); [lia..|].
  rewrite Hrun, Hlen, Nat.sub_diag, backoff_eq.
  rewrite (body_Threw _ _ _ _ _ _ _ _ _ _ _ (scripted_next _ _ _ _ _)). cbv zeta.
  rewrite Hrc1, Hrc, Hlen. cbn [Nat.add Nat.ltb Nat.leb maxRetries].
  eexists _, _. split; [reflexivity|]. split; [apply retry_count_reset_failed|].
  split.
  - cbn [trace]. destruct (at_call_trace Math_random exchangeId lim1 rt1) as (_ & _ & ->).
    rewrite Hat1, Hlen. unfold maxRetries. lia.
  - intros W' T' operation context' env.
    apply executeWithBackoff_no_initial_delay, retry_count_reset_failed.
Qed.

(** C4 (as amended): a non-retryable failure within the retry budget is
    thrown on as it is, with no further attempt, and the retry count of
    the venue is reset to zero. *)
Theorem executeWithBackoff_non_retryable exchangeId context
    (errors : list JsError) (e : JsError) lim rt rest :
  retry_count exchangeId lim = 0%nat ->
  (length errors < maxRetries)%nat ->
  Forall retryable errors ->
  isNonRetryableError e = true ->
  exists lim' rt',
    Limiter.executeWithBackoff Math_random exchangeId (scripted (T := T)) context lim
      (rt, map Threw errors ++ Threw e :: rest)
    = (Threw e, lim', (rt', rest))
    /\ retry_count exchangeId lim' = 0%nat
    /\ attempts (trace lim') = (attempts (trace lim) + S (length errors))%nat.
Proof.
  intros Hrc Hlen Hre He. unfold Limiter.executeWithBackoff.
  destruct (scripted_retries exchangeId context errors maxRetries lim rt
              (Threw e :: rest) Hre) as (lim1 & rt1 & Hrun & Hrc1 & Hat1); [lia..|].
  rewrite Hrun, backoff_eq.
  rewrite (body_Threw _ _ _ _ _ _ _ _ _ _ _ (scripted_next _ _ _ _ _)). cbv zeta.
  destruct (Nat.ltb_spec maxRetries (S (retry_count exchangeId lim1))) as [Hlt|_]; [lia|].
  rewrite He.
  eexists _, _. split; [reflexivity|]. split; [apply retry_count_reset_failed|].
  cbn [trace]. destruct (at_call_trace Math_random exchangeId lim1 rt1) as (_ & _ & ->).
  lia.
Qed.

End Scripted.

(** *** Batches *)

Section Batch.

Variable Math_random : nat -> Q.
Context {W T : Type}.

Abbreviation executeBatch := (Limiter.executeBatch Math_random (W := W) (T := T)).
Abbreviation run_group := (Limiter.run_group Math_random (W := W) (T := T)).
Abbreviation run_groups := (Limiter.run_groups Math_random (W := W) (T := T)).

Lemma run_group_settles ops :
  forall results lim env,
    Forall settled results ->
    length (fst (fst (run_group ops results lim env))) = (length results + length ops)%nat
    /\ Forall settled (fst (fst (run_group ops results lim env))).
Proof.
  induction ops as [|op ops IH]; intros results lim env Hres; cbn [Limiter.run_group].
  - cbn [fst length]. split; [lia | assumption].
  - destruct (Limiter.executeWithBackoff Math_random (exchangeId op) (operation op)
                (context op) lim env) as [[[v|e] lim'] env'].
    all: match goal with
         | |- context [Limiter.run_group _ _ (?rs ++ [?r]) _ _] =>
             destruct (IH (rs ++ [r]) lim' env') as [Hlen Hall]
         end.
    all: try (apply Forall_app; split; [assumption|]; constructor; [|constructor]).
    all: try (left; cbn; eauto; fail).
    all: try (right; cbn; eauto; fail).
    all: rewrite length_app in Hlen; cbn [length] in *; split; [lia | assumption].
Qed.

Lemma run_groups_settles groups :
  forall results lim env,
    Forall settled results ->
    length (fst (fst (run_groups groups results lim env)))
    = (length results + length (concat (map snd groups)))%nat
    /\ Forall settled (fst (fst (run_groups groups results lim env))).
Proof.
  induction groups as [|[k ops] groups IH]; intros results lim env Hres;
    cbn [Limiter.run_groups].
  - cbn [fst map concat length]. split; [lia | assumption].
  - destruct (0 <? length results)%nat.
    all: match goal with
         | |- context [Limiter.run_group _ ?os ?rs ?l ?e] =>
             destruct (run_group_settles os rs l e Hres) as [Hlen Hall];
             destruct (Limiter.run_group Math_random os rs l e) as [[res' lim'] env']
         end.
    all: cbn [fst] in Hlen, Hall.
    all: destruct (IH res' lim' env' Hall) as [Hlen' Hall'].
    all: cbn [map snd concat]; rewrite length_app; split; [lia | assumption].
Qed.

Lemma push_group_perm (op : BatchOperation W T) grouped :
  Permutation (concat (map snd (push_group op grouped)))
              (concat (map snd grouped) ++ [op]).
Proof.
  induction grouped as [|[k ops] grouped IH]; cbn [push_group map snd concat].
  - reflexivity.
  - destruct (String.eqb k (exchangeId op)); cbn [map snd concat].
    + rewrite <- !app_assoc. apply Permutation_app_head, Permutation_app_comm.
    + rewrite IH, app_assoc. reflexivity.
Qed.

(** Grouping by exchange keeps every operation, once. *)
Lemma group_operations_perm (operations : list (BatchOperation W T)) :
  Permutation (concat (map snd (group_operations operations))) operations.
Proof.
  unfold group_operations.
  enough (forall grouped,
            Permutation
              (concat (map snd (fold_left (fun g op => push_group op g) operations grouped)))
              (concat (map snd grouped) ++ operations)) as H by apply (H []).
  induction operations as [|op operations IH]; intros grouped; cbn [fold_left].
  - now rewrite app_nil_r.
  - rewrite IH, push_group_perm, <- app_assoc. reflexivity.
Qed.

Lemma run_group_cons op ops results lim env :
  run_group (op :: ops) results lim env
  = let o := Limiter.executeWithBackoff Math_random (exchangeId op) (operation op)
               (context op) lim env in
    run_group ops (results ++ [settle o]) (snd (fst o)) (snd o).
Proof.
  cbn [Limiter.run_group]. unfold settle.
  now destruct (Limiter.executeWithBackoff _ _ _ _ _ _) as [[[v|e] lim'] env'].
Qed.

(** The inner loop appends the entries of its operations, in order. *)
Lemma run_group_entries ops :
  forall results lim env,
    exists added,
      fst (fst (run_group ops results lim env)) = results ++ added
      /\ Forall2 (entry_of Math_random) ops added.
Proof.
  induction ops as [|op ops IH]; intros results lim env.
  - exists []. cbn [Limiter.run_group fst]. rewrite app_nil_r. split; constructor.
  - rewrite run_group_cons. cbv zeta.
    set (o := Limiter.executeWithBackoff Math_random (exchangeId op) (operation op)
                (context op) lim env).
    destruct (IH (results ++ [settle o]) (snd (fst o)) (snd o)) as (added & -> & Hall).
    exists (settle o :: added). rewrite <- app_assoc. split; [reflexivity|].
    constructor; [|exact Hall]. exists lim, env. reflexivity.
Qed.

Lemma run_groups_entries groups :
  forall results lim env,
    exists added,
      fst (fst (run_groups groups results lim env)) = results ++ added
      /\ Forall2 (entry_of Math_random) (concat (map snd groups)) added.
Proof.
  induction groups as [|[k ops] groups IH]; intros results lim env;
    cbn [Limiter.run_groups].
  - exists []. cbn [fst map concat]. rewrite app_nil_r. split; constructor.
  - destruct (0 <? length results)%nat.
    all: match goal with
         | |- context [Limiter.run_group _ ?os ?rs ?l ?e] =>
             destruct (run_group_entries os rs l e) as (added & Hres & Hall);
             destruct (Limiter.run_group Math_random os rs l e) as [[res' lim'] env']
         end.
    all: cbn [fst] in Hres; subst res'.
    all: destruct (IH (results ++ added) lim' env') as (added' & -> & Hall').
    all: exists (added ++ added'); rewrite <- app_assoc; split; [reflexivity|].
    all: cbn [map snd concat]; now apply Forall2_app.
Qed.

Lemma backoff_always_fails exchangeId (operation : Operation W T) context budget :
  always_fails operation ->
  forall lim env, exists e lim' env',
    Limiter.backoff Math_random budget exchangeId operation context lim env
    = (Threw e, lim', env').
Proof.
  intros Hf. induction budget as [|budget IH]; intros lim [rt w]; rewrite backoff_eq.
  all: destruct (Hf (fst (at_call Math_random exchangeId lim rt), w)) as (e & [rt' w'] & Hop).
  all: rewrite (body_Threw _ _ _ _ _ _ _ _ _ _ _ Hop); cbv zeta.
  all: destruct (maxRetries <? S (retry_count exchangeId lim))%nat; [eauto|].
  all: destruct (isNonRetryableError e); eauto.
Qed.

Lemma backoff_always_succeeds exchangeId (operation : Operation W T) context budget :
  always_succeeds operation ->
  forall lim env, exists v lim' env',
    Limiter.backoff Math_random budget exchangeId operation context lim env
    = (Returned v, lim', env').
Proof.
  intros Hs lim [rt w]. rewrite backoff_eq.
  destruct (Hs (fst (at_call Math_random exchangeId lim rt), w)) as (v & [rt' w'] & Hop).
  rewrite (body_Returned _ _ _ _ _ _ _ _ _ _ _ Hop). eauto.
Qed.


Lemma settle_fails exchangeId (operation : Operation W T) context lim env :
  always_fails operation ->
  success (settle (Limiter.executeWithBackoff Math_random exchangeId operation
                     context lim env)) = false.
Proof.
  intros Hf.
  destruct (backoff_always_fails exchangeId operation context maxRetries Hf lim env)
    as (e & lim' & env' & H).
  unfold Limiter.executeWithBackoff, settle. now rewrite H.
Qed.

Lemma settle_succeeds exchangeId (operation : Operation W T) context lim env :
  always_succeeds operation ->
  success (settle (Limiter.executeWithBackoff Math_random exchangeId operation
                     context lim env)) = true.
Proof.
  intros Hs.
  destruct (backoff_always_succeeds exchangeId operation context maxRetries Hs lim env)
    as (v & lim' & env' & H).
  unfold Limiter.executeWithBackoff, settle. now rewrite H.
Qed.

(** A batch of two: each operation is run once, in the order given, and
    the entries come in that order. *)
Lemma executeBatch_two (op1 op2 : BatchOperation W T) lim env :
  exists lim1 env1 lim2 env2,
    fst (fst (executeBatch [op1; op2] lim env))
    = [ settle (Limiter.executeWithBackoff Math_random (exchangeId op1) (operation op1)
                  (context op1) lim1 env1);
        settle (Limiter.executeWithBackoff Math_random (exchangeId op2) (operation op2)
                  (context op2) lim2 env2) ].
Proof.
  unfold Limiter.executeBatch, group_operations. cbn [fold_left push_group].
  destruct (String.eqb (exchangeId op1) (exchangeId op2)).
  - cbn [Limiter.run_groups length Nat.ltb Nat.leb app]. rewrite !run_group_cons. cbv zeta.
    cbn [Limiter.run_group app fst]. eauto 10.
  - cbn [Limiter.run_groups length Nat.ltb Nat.leb app]. rewrite run_group_cons. cbv zeta.
    change (run_group [] ?r ?l ?e) with (r, l, e). cbv beta iota.
    cbn [app length Nat.ltb Nat.leb]. rewrite run_group_cons. cbv zeta.
    cbn [Limiter.run_group app fst]. eauto 10.
Qed.

(** C9: [executeBatch] throws nothing and returns a settled list with one
    entry per operation: as many entries as operations, each
    [{success: true, result}] or [{success: false, error}], the entries of
    the operations taken group by group.  With one persistently failing
    and one succeeding operation on venues X, Y, in either order, the list
    has one [{success: false}] and one [{success: true}] entry. *)
Theorem executeBatch_settled_list :
  (forall (operations : list (BatchOperation W T)) lim env,
     let results := fst (fst (executeBatch operations lim env)) in
     let grouped := concat (map snd (group_operations operations)) in
     length results = length operations
     /\ Forall settled results
     /\ Permutation grouped operations
     /\ Forall2 (entry_of Math_random) grouped results)
  /\ (forall X Y failing succeeding context1 context2 lim env,
        always_fails failing ->
        always_succeeds succeeding ->
        map success
          (fst (fst (executeBatch
             [ {| exchangeId := X; operation := failing; context := context1 |};
               {| exchangeId := Y; operation := succeeding; context := context2 |} ]
             lim env))) = [false; true]
        /\ map success
          (fst (fst (executeBatch
             [ {| exchangeId := X; operation := succeeding; context := context1 |};
               {| exchangeId := Y; operation := failing; context := context2 |} ]
             lim env))) = [true; false]).
Proof.
  split.
  - intros operations lim env results grouped.
    destruct (run_groups_settles (group_operations operations) [] lim env) as [Hlen Hall];
      [constructor|].
    split; [|split; [|split]].
    + unfold results, Limiter.executeBatch. rewrite Hlen. cbn [length Nat.add].
      apply Permutation_length, group_operations_perm.
    + exact Hall.
    + apply group_operations_perm.
    + destruct (run_groups_entries (group_operations operations) [] lim env)
        as (added & Hres & Hadded).
      unfold results, Limiter.executeBatch. now rewrite Hres.
  - intros X Y failing succeeding context1 context2 lim env Hf Hs. split.
    + destruct (executeBatch_two
                  {| exchangeId := X; operation := failing; context := context1 |}
                  {| exchangeId := Y; operation := succeeding; context := context2 |}
                  lim env) as (l1 & e1 & l2 & e2 & ->).
      cbn [map exchangeId operation context].
      now rewrite (settle_fails _ failing _ _ _ Hf), (settle_succeeds _ succeeding _ _ _ Hs).
    + destruct (executeBatch_two
                  {| exchangeId := X; operation := succeeding; context := context1 |}
                  {| exchangeId := Y; operation := failing; context := context2 |}
                  lim env) as (l1 & e1 & l2 & e2 & ->).
      cbn [map exchangeId operation context].
      now rewrite (settle_fails _ failing _ _ _ Hf), (settle_succeeds _ succeeding _ _ _ Hs).
Qed.

End Batch.
(** *** Every call, whatever the operation *)

Section Calls.

Variable Math_random : nat -> Q.
Context {W T : Type}.

Lemma Qfloor_lt_Z x z : x < inject_Z z -> (Qfloor x < z)%Z.
Proof.
  intros H. rewrite Zlt_Qlt. eapply Qle_lt_trans; [apply Qfloor_le | exact H].
Qed.

Lemma Qfloor_ge_Z x z : inject_Z z <= x -> (z <= Qfloor x)%Z.
Proof. intros H. rewrite <- (Qfloor_Z z). now apply Qfloor_resp_le. Qed.

Lemma calculateDelay_le_maxDelay n rt :
  (fst (calculateDelay Math_random n rt) <= maxDelay)%Z.
Proof.
  unfold calculateDelay. cbn [fst].
  destruct (Qle_bool _ _) eqn:E.
  - apply Qle_bool_iff in E. apply Qfloor_resp_le in E. now rewrite Qfloor_Z in E.
  - rewrite Qfloor_Z. lia.
Qed.

Lemma calculateDelay_range n rt :
  0 <= Math_random (draws rt) -> Math_random (draws rt) < 1 ->
  let exponentialDelay := (2 ^ (Z.of_nat n - 1) * baseDelay)%Z in
  let delay := fst (calculateDelay Math_random n rt) in
  (Z.min exponentialDelay maxDelay <= delay)%Z
  /\ (delay <= maxDelay)%Z
  /\ (delay < exponentialDelay + 1000)%Z.
Proof.
  intros H0 H1 e delay. split; [|split]; [| apply calculateDelay_le_maxDelay |].
  all: unfold delay, calculateDelay; cbn [fst]; fold e.
  all: destruct (Qle_bool _ _) eqn:E.
  - apply Z.le_trans with e; [lia|]. apply Qfloor_ge_Z. lra.
  - rewrite Qfloor_Z. lia.
  - apply Qfloor_lt_Z. rewrite inject_Z_plus.
    assert (inject_Z 1000 == 1000) by reflexivity. lra.
  - rewrite Qfloor_Z. apply JsNumFacts.Qle_bool_false in E.
    rewrite Zlt_Qlt, inject_Z_plus. assert (inject_Z 1000 == 1000) by reflexivity. lra.
Qed.

(** X1: [calculateDelay(retryCount)], for a retry count of at least one
    and [Math.random()] in [0, 1): the delay is at least the exponential
    delay [2^(retryCount-1) * 1000] ms and at most a second of jitter
    more, cut off at [maxDelay] = 60000 ms.  (The jitter is less than a
    second; the sum is stated with the bound it can reach when it is
    rounded.) *)
Theorem calculateDelay_bounds (retryCount : nat) (rt : Runtime) :
  (1 <= retryCount)%nat ->
  0 <= Math_random (draws rt) -> Math_random (draws rt) < 1 ->
  let exponentialDelay := (2 ^ (Z.of_nat retryCount - 1) * baseDelay)%Z in
  let delay := fst (calculateDelay Math_random retryCount rt) in
  (Z.min exponentialDelay maxDelay <= delay)%Z
  /\ (delay <= maxDelay)%Z
  /\ (delay <= exponentialDelay + 1000)%Z.
Proof.
  intros _ H0 H1 exponentialDelay delay.
  destruct (calculateDelay_range retryCount rt H0 H1) as (Hlo & Hmax & Hhi).
  fold exponentialDelay delay in Hlo, Hmax, Hhi.
  split; [exact Hlo|]. split; [exact Hmax | lia].
Qed.

Lemma resetState_other exchangeId other now m :
  other <> exchangeId -> resetState exchangeId now m !! other = m !! other.
Proof. intros H. unfold resetState. now rewrite lookup_alter_ne. Qed.

Lemma getOrCreateState_other exchangeId other now m :
  other <> exchangeId -> fst (getOrCreateState exchangeId now m) !! other = m !! other.
Proof.
  intros H. unfold getOrCreateState. destruct (m !! exchangeId); cbn [fst]; [reflexivity|].
  now rewrite lookup_insert_ne.
Qed.

Lemma failed_other exchangeId other lim now0 now :
  other <> exchangeId -> failed exchangeId lim now0 now !! other = retryStates lim !! other.
Proof.
  intros H. unfold failed.
  pose proof (getOrCreateState_other exchangeId other now0 (retryStates lim) H) as Ho.
  destruct (getOrCreateState exchangeId now0 (retryStates lim)) as [m st]. cbn [fst] in Ho.
  now rewrite lookup_insert_ne.
Qed.

Lemma at_call_events exchangeId lim rt :
  exists evs, snd (Limiter.at_call Math_random exchangeId lim rt) = trace lim ++ evs
              /\ Forall (own_event exchangeId) evs
              /\ attempts evs = 1%nat.
Proof.
  unfold Limiter.at_call. destruct (0 <? retry_count exchangeId lim)%nat; cbn [snd];
    eexists; (split; [reflexivity|]); split; try reflexivity;
    repeat constructor. apply calculateDelay_le_maxDelay.
Qed.

Lemma attempts_app tr1 tr2 : attempts (tr1 ++ tr2) = (attempts tr1 + attempts tr2)%nat.
Proof. unfold attempts. now rewrite List.filter_app, length_app. Qed.

(** Whatever the operation does and whatever the state: a call ends with
    the retry count of its venue at zero, leaves the other venues alone,
    and calls the operation at least once and at most once more than the
    retries that are left. *)
Lemma backoff_summary exchangeId (operation : Operation W T) context budget :
  forall lim env,
    (maxRetries <= budget + retry_count exchangeId lim)%nat ->
    let lim' := snd (fst (Limiter.backoff Math_random budget exchangeId operation context
                            lim env)) in
    retry_count exchangeId lim' = 0%nat
    /\ (forall other, other <> exchangeId ->
          retryStates lim' !! other = retryStates lim !! other)
    /\ exists evs, trace lim' = trace lim ++ evs
         /\ Forall (own_event exchangeId) evs
         /\ (1 <= attempts evs <= S (maxRetries - retry_count exchangeId lim))%nat.
Proof.
  induction budget as [|budget IH]; intros lim [rt w] Hb; rewrite backoff_eq.
  all: destruct (at_call_events exchangeId lim rt) as (evs & Hevs & Hown & Hone).
  all: destruct (operation (fst (Limiter.at_call Math_random exchangeId lim rt), w))
         as [[v|e] [rt' w']] eqn:Hop.
  all: try (rewrite (body_Returned _ _ _ _ _ _ _ _ _ _ _ Hop); cbn [fst snd];
            split; [apply retry_count_reset_created|];
            split; [intros other Ho; cbn [retryStates];
                    now rewrite resetState_other, getOrCreateState_other|];
            exists evs; cbn [trace]; split; [exact Hevs|]; split; [exact Hown|lia]).
  all: rewrite (body_Threw _ _ _ _ _ _ _ _ _ _ _ Hop); cbv zeta.
  all: destruct (Nat.ltb_spec maxRetries (S (retry_count exchangeId lim))) as [Hlt|Hge].
  all: try (cbn [fst snd];
            split; [apply retry_count_reset_failed|];
            split; [intros other Ho; cbn [retryStates];
                    now rewrite resetState_other, failed_other|];
            exists evs; cbn [trace]; split; [exact Hevs|]; split; [exact Hown|lia]).
  all: destruct (isNonRetryableError e).
  all: try (cbn [fst snd];
            split; [apply retry_count_reset_failed|];
            split; [intros other Ho; cbn [retryStates];
                    now rewrite resetState_other, failed_other|];
            exists evs; cbn [trace]; split; [exact Hevs|]; split; [exact Hown|lia]).
  - lia.
  - set (lim1 := {| retryStates := failed exchangeId lim (clock rt) (clock rt');
                    trace := snd (Limiter.at_call Math_random exchangeId lim rt) |}).
    assert (Hrc1 : retry_count exchangeId lim1 = S (retry_count exchangeId lim))
      by apply retry_count_failed.
    destruct (IH lim1 (rt', w')) as (Hrc & Hother & evs' & Htr & Hown' & Hat); [lia|].
    split; [exact Hrc|]. split.
    + intros other Ho. rewrite (Hother other Ho). unfold lim1. cbn [retryStates].
      now apply failed_other.
    + exists (evs ++ evs'). rewrite Htr. unfold lim1 at 1. cbn [trace].
      rewrite Hevs, <- app_assoc. split; [reflexivity|].
      split; [now apply Forall_app|]. rewrite attempts_app. lia.
Qed.

(** X2: for an operation that returns or that throws an error object (an
    object whose [code] and [message] are strings or absent, which is what
    [JsError] holds), and whatever state the limiter is in: when
    [executeWithBackoff] is through (result or error) the retry count of
    its venue is zero. *)
Theorem executeWithBackoff_leaves_retry_count_zero exchangeId (operation : Operation W T)
    context lim env :
  retry_count exchangeId
    (snd (fst (Limiter.executeWithBackoff Math_random exchangeId operation context lim env)))
  = 0%nat.
Proof.
  unfold Limiter.executeWithBackoff.
  apply (backoff_summary exchangeId operation context maxRetries lim env). lia.
Qed.

(** X3: a call for one venue never changes the retry state the limiter
    holds for another venue. *)
Theorem executeWithBackoff_other_venues exchangeId (operation : Operation W T)
    context lim env other :
  other <> exchangeId ->
  retryStates
    (snd (fst (Limiter.executeWithBackoff Math_random exchangeId operation context lim env)))
    !! other
  = retryStates lim !! other.
Proof.
  intros Ho. unfold Limiter.executeWithBackoff.
  apply (backoff_summary exchangeId operation context maxRetries lim env); [lia | exact Ho].
Qed.

(** X4: a call of [executeWithBackoff] calls the operation at least once
    and at most [maxRetries + 1] = 6 times, only ever for its own venue,
    and never sleeps longer than [maxDelay] = 60 s at a time. *)
Theorem executeWithBackoff_bounded exchangeId (operation : Operation W T) context lim env :
  exists evs,
    trace (snd (fst (Limiter.executeWithBackoff Math_random exchangeId operation context
                       lim env)))
    = trace lim ++ evs
    /\ Forall (own_event exchangeId) evs
    /\ (1 <= attempts evs <= 6)%nat.
Proof.
  unfold Limiter.executeWithBackoff.
  destruct (backoff_summary exchangeId operation context maxRetries lim env)
    as (_ & _ & evs & Htr & Hown & Hat); [lia|].
  exists evs. split; [exact Htr|]. split; [exact Hown|]. unfold maxRetries in Hat. lia.
Qed.

End Calls.

(** *** The back-off schedule *)

Section Schedule.

Variable Math_random : nat -> Q.
Context {T : Type}.

(** [Math.random()] is in [0, 1). *)
Hypothesis Math_random_range : forall k, 0 <= Math_random k /\ Math_random k < 1.

(** Up to [maxRetries] the cap [maxDelay] is not reached. *)
Lemma calculateDelay_retry n rt :
  (1 <= n <= maxRetries)%nat ->
  (2 ^ (Z.of_nat n - 1) * 1000 <= fst (calculateDelay Math_random n rt)
   <= 2 ^ (Z.of_nat n - 1) * 1000 + 999)%Z.
Proof.
  intros Hn. destruct (Math_random_range (draws rt)) as [H0 H1].
  destruct (calculateDelay_range Math_random n rt H0 H1) as (Hlo & _ & Hhi).
  unfold baseDelay, maxDelay in *.
  assert (2 ^ (Z.of_nat n - 1) <= 16)%Z.
  { unfold maxRetries in Hn. change 16%Z with (2 ^ 4)%Z. apply Z.pow_le_mono_r; lia. }
  lia.
Qed.

Lemma at_call_retry exchangeId lim rt :
  (0 < retry_count exchangeId lim)%nat ->
  Limiter.at_call Math_random exchangeId lim rt
  = let delay := fst (calculateDelay Math_random (retry_count exchangeId lim) rt) in
    ({| clock := clock rt + delay; draws := S (draws rt) |},
     trace lim ++ [EvSleep delay; EvAttempt exchangeId]).
Proof.
  intros H. unfold Limiter.at_call. apply Nat.ltb_lt in H. rewrite H. reflexivity.
Qed.

Lemma pow2_pred (n : nat) : (1 <= n)%nat ->
  (2 ^ Z.of_nat n = 2 * 2 ^ (Z.of_nat n - 1))%Z.
Proof.
  intros H. replace (Z.of_nat n) with (Z.succ (Z.of_nat n - 1)) at 1 by lia.
  apply Z.pow_succ_r. lia.
Qed.

(** From a retry count [r > 0]: [n] more retryable failures, then a
    success.  Every attempt is preceded by its back-off. *)
Lemma scripted_schedule exchangeId context (v : T) (errors : list JsError) :
  forall budget lim rt rest,
    Forall retryable errors ->
    (0 < retry_count exchangeId lim)%nat ->
    (retry_count exchangeId lim + length errors <= maxRetries)%nat ->
    (length errors <= budget)%nat ->
    exists lim' rt',
      Limiter.backoff Math_random budget exchangeId (scripted (T := T)) context lim
        (rt, map Threw errors ++ Returned v :: rest)
      = (Returned v, lim', (rt', rest))
      /\ retry_count exchangeId lim' = 0%nat
      /\ attempts (trace lim') = (attempts (trace lim) + length errors + 1)%nat
      /\ draws rt' = (draws rt + length errors + 1)%nat
      /\ let r := Z.of_nat (retry_count exchangeId lim) in
         let n := Z.of_nat (length errors) in
         ((2 ^ (r + n) - 2 ^ (r - 1)) * 1000 <= clock rt' - clock rt
          <= (2 ^ (r + n) - 2 ^ (r - 1)) * 1000 + 999 * (n + 1))%Z.
Proof.
  induction errors as [|e errors IH]; intros budget lim rt rest Hre Hr Hrc Hb.
  - cbn [map app length] in *. rewrite backoff_eq.
    pose proof (scripted_next Math_random (Returned v) rest exchangeId lim rt) as Hop.
    rewrite (body_Returned _ _ _ _ _ _ _ _ _ _ _ Hop).
    eexists _, _. split; [reflexivity|].
    split; [apply retry_count_reset_created|].
    destruct (at_call_trace Math_random exchangeId lim rt) as (_ & _ & Hat).
    cbn [trace]. split; [lia|]. rewrite at_call_retry by exact Hr. cbv zeta.
    cbn [fst draws clock]. split; [lia|].
    pose proof (calculateDelay_retry (retry_count exchangeId lim) rt ltac:(lia)) as Hd.
    rewrite Z.add_0_r, (pow2_pred (retry_count exchangeId lim)) by lia. lia.
  - cbn [length] in Hrc, Hb. destruct budget as [|budget]; [lia|].
    inversion Hre as [|? ? He Hre']; subst.
    rewrite backoff_eq. cbn [map app].
    pose proof (scripted_next Math_random (Threw e) (map Threw errors ++ Returned v :: rest)
                  exchangeId lim rt) as Hop.
    rewrite (body_Threw _ _ _ _ _ _ _ _ _ _ _ Hop). cbv zeta.
    destruct (Nat.ltb_spec maxRetries (S (retry_count exchangeId lim))) as [Hlt|_]; [lia|].
    rewrite He.
    set (lim1 := {| retryStates := _; trace := _ |}).
    assert (Hrc1 : retry_count exchangeId lim1 = S (retry_count exchangeId lim))
      by apply retry_count_failed.
    destruct (IH budget lim1 (fst (Limiter.at_call Math_random exchangeId lim rt)) rest Hre')
      as (lim' & rt' & Hrun & Hrc' & Hat & Hdraws & Hclock); [lia..|].
    exists lim', rt'. split; [exact Hrun|]. split; [exact Hrc'|].
    destruct (at_call_trace Math_random exchangeId lim rt) as (_ & _ & Hn).
    cbv zeta in Hclock. rewrite Hrc1 in Hclock.
    subst lim1. cbn [trace] in Hat.
    rewrite at_call_retry in Hdraws, Hclock by exact Hr. cbv zeta in Hdraws, Hclock.
    cbn [fst draws clock] in Hdraws, Hclock.
    split; [cbn [length]; lia|]. split; [cbn [length]; lia|].
    cbv zeta.
    pose proof (calculateDelay_retry (retry_count exchangeId lim) rt ltac:(lia)) as Hd.
    cbn [length].
    replace (Z.of_nat (S (retry_count exchangeId lim)) + Z.of_nat (length errors))%Z
      with (Z.of_nat (retry_count exchangeId lim) + Z.of_nat (S (length errors)))%Z
      in Hclock by lia.
    replace (Z.of_nat (S (retry_count exchangeId lim)) - 1)%Z
      with (Z.of_nat (retry_count exchangeId lim)) in Hclock by lia.
    rewrite (pow2_pred (retry_count exchangeId lim)) in Hclock by lia.
    lia.
Qed.

(** X5: the back-off schedule.  A call that finds no retry count, fails
    [k <= maxRetries] times in a row with retryable errors and then
    succeeds returns that result after [k + 1] attempts and leaves the
    retry count at zero.  It has slept before each retry, [2^(i-1)] seconds
    and at most a second of jitter before the [i]-th: between
    [(2^k - 1) * 1000] and [(2^k - 1) * 1000 + 1000 * k] ms in all. *)
Theorem executeWithBackoff_backoff_schedule exchangeId context
    (errors : list JsError) (v : T) lim rt rest :
  retry_count exchangeId lim = 0%nat ->
  Forall retryable errors ->
  (length errors <= maxRetries)%nat ->
  exists lim' rt',
    Limiter.executeWithBackoff Math_random exchangeId (scripted (T := T)) context lim
      (rt, map Threw errors ++ Returned v :: rest)
    = (Returned v, lim', (rt', rest))
    /\ retry_count exchangeId lim' = 0%nat
    /\ attempts (trace lim') = (attempts (trace lim) + length errors + 1)%nat
    /\ let k := Z.of_nat (length errors) in
       ((2 ^ k - 1) * 1000 <= clock rt' - clock rt <= (2 ^ k - 1) * 1000 + 1000 * k)%Z.
Proof.
  intros Hrc Hre Hk. unfold Limiter.executeWithBackoff. rewrite backoff_eq.
  destruct errors as [|e errors].
  - cbn [map app length].
    pose proof (scripted_next Math_random (Returned v) rest exchangeId lim rt) as Hop.
    rewrite (body_Returned _ _ _ _ _ _ _ _ _ _ _ Hop).
    rewrite at_call_fresh by exact Hrc. cbn [fst snd].
    eexists _, _. split; [reflexivity|].
    split; [apply retry_count_reset_created|]. cbn [trace].
    split; [rewrite attempts_app; cbn; lia|]. cbn. lia.
  - cbn [map app length] in *. inversion Hre as [|? ? He Hre']; subst.
    pose proof (scripted_next Math_random (Threw e) (map Threw errors ++ Returned v :: rest)
                  exchangeId lim rt) as Hop.
    rewrite (body_Threw _ _ _ _ _ _ _ _ _ _ _ Hop). cbv zeta.
    rewrite Hrc, He. cbn [Nat.ltb Nat.leb maxRetries].
    set (lim1 := {| retryStates := _; trace := _ |}).
    assert (Hrc1 : retry_count exchangeId lim1 = 1%nat)
      by (unfold lim1; rewrite retry_count_failed; lia).
    destruct (scripted_schedule exchangeId context v errors 4
                lim1 (fst (Limiter.at_call Math_random exchangeId lim rt)) rest Hre')
      as (lim' & rt' & Hrun & Hrc' & Hat & _ & Hclock);
      [lia | unfold maxRetries in *; lia | unfold maxRetries in *; lia |].
    exists lim', rt'. split; [exact Hrun|]. split; [exact Hrc'|].
    cbv zeta in Hclock. rewrite Hrc1 in Hclock.
    subst lim1. cbn [trace] in Hat. rewrite at_call_fresh in Hat, Hclock by exact Hrc.
    cbn [fst snd] in Hat, Hclock. rewrite attempts_app in Hat. cbn in Hat.
    split; [lia|].
    replace (Z.of_nat (S (length errors))) with (1 + Z.of_nat (length errors))%Z by lia.
    change (Z.of_nat 1) with 1%Z in Hclock.
    change (2 ^ (1 - 1))%Z with 1%Z in Hclock. lia.
Qed.

End Schedule.

(** *** The order of a batch *)

Section BatchOrder.

Variable Math_random : nat -> Q.
Context {W T : Type}.

Lemma push_group_new (op : BatchOperation W T) grouped :
  ~ In (exchangeId op) (map fst grouped) ->
  push_group op grouped = grouped ++ [(exchangeId op, [op])].
Proof.
  induction grouped as [|[k ops] grouped IH]; cbn [push_group map fst app In]; [reflexivity|].
  intros H. destruct (String.eqb_spec k (exchangeId op)) as [->|_]; [tauto|].
  rewrite IH by tauto. reflexivity.
Qed.

Lemma group_operations_distinct (operations : list (BatchOperation W T)) :
  forall grouped,
    List.NoDup (map exchangeId operations) ->
    (forall op, In op operations -> ~ In (exchangeId op) (map fst grouped)) ->
    fold_left (fun grouped op => push_group op grouped) operations grouped
    = grouped ++ map (fun op => (exchangeId op, [op])) operations.
Proof.
  induction operations as [|op operations IH]; intros grouped Hnd Hnew; cbn [fold_left map].
  - now rewrite app_nil_r.
  - cbn [map] in Hnd. apply List.NoDup_cons_iff in Hnd as [Hop Hnd].
    rewrite push_group_new by (apply Hnew; now left).
    rewrite IH; [now rewrite <- app_assoc | exact Hnd |].
    intros op' Hin. rewrite map_app, in_app_iff. cbn [map fst In].
    intros [H|[H|[]]].
    + apply (Hnew op'); [now right | exact H].
    + apply Hop. rewrite H. now apply in_map.
Qed.

Lemma concat_singletons (operations : list (BatchOperation W T)) :
  concat (map snd (map (fun op => (exchangeId op, [op])) operations)) = operations.
Proof. induction operations as [|op l IH]; cbn; [reflexivity | now rewrite IH]. Qed.

Lemma group_operations_NoDup (operations : list (BatchOperation W T)) :
  List.NoDup (map exchangeId operations) ->
  concat (map snd (group_operations operations)) = operations.
Proof.
  intros Hnd. unfold group_operations.
  rewrite group_operations_distinct; [apply concat_singletons | exact Hnd | intros ? ? []].
Qed.







Lemma executeBatch_entries (operations : list (BatchOperation W T)) lim env :
  Forall2 (entry_of Math_random)
    (concat (map snd (group_operations operations)))
    (fst (fst (Limiter.executeBatch Math_random operations lim env))).
Proof.
  destruct (run_groups_entries Math_random (group_operations operations) [] lim env)
    as (added & Hres & Hadded).
  unfold Limiter.executeBatch. now rewrite Hres.
Qed.











(** X7: when no two operations of a batch are for the same venue, the
    result is in the order of the input: entry [i] is the entry of
    operation [i]. *)
Theorem executeBatch_order_distinct_venues (operations : list (BatchOperation W T))
    lim env :
  List.NoDup (map exchangeId operations) ->
  Forall2 (entry_of Math_random) operations
    (fst (fst (Limiter.executeBatch Math_random operations lim env))).
Proof.
  intros Hnd. rewrite <- (group_operations_NoDup operations Hnd) at 1.
  apply executeBatch_entries.
Qed.

End BatchOrder.

End LimiterFacts.

Module CacheFacts.

Section WithValue.

Context {V : Type} (truthy_value : V -> bool).

Abbreviation step := (Cache.step truthy_value).
Abbreviation run := (Cache.run truthy_value).
Abbreviation Cache := (MarketDataCache V).
Abbreviation stored_at := (Cache.stored_at truthy_value).

(** *** From [MarketDataCache] to the cache of one class *)

(** The TTLs are positive, so the constructor does not throw. *)
Lemma MarketDataCache_new_empty : MarketDataCache_new (V := V) = Some empty_caches.
Proof. reflexivity. Qed.

Lemma cache_of_with_cache d c (m : Cache) : cache_of d (with_cache d c m) = c.
Proof. now destruct d. Qed.

Lemma cache_of_count d d' r (m : Cache) :
  cache_of d (count truthy_value d' r m) = cache_of d m.
Proof. now destruct d. Qed.

Lemma step_LRU d o (m : Cache) :
  fst (step d o m) = fst (LRU_step o (cache_of d m))
  /\ cache_of d (snd (step d o m)) = snd (LRU_step o (cache_of d m)).
Proof.
  destruct o as [k now|k data now|k now|]; cbn [Cache.step LRU_step fst snd].
  - unfold get_in. destruct (LRU_get k now (cache_of d m)) as [r c]. cbn [fst snd].
    now rewrite cache_of_count, cache_of_with_cache.
  - unfold set_in. now rewrite cache_of_with_cache.
  - now rewrite cache_of_with_cache.
  - unfold clear_in. now rewrite cache_of_with_cache.
Qed.

Lemma run_LRU d ops : forall m : Cache, cache_of d (run d ops m) = LRU_run ops (cache_of d m).
Proof.
  induction ops as [|o ops IH]; intros m; cbn [Cache.run LRU_run]; [reflexivity|].
  rewrite IH. f_equal. apply step_LRU.
Qed.

Lemma LRU_run_app ops1 ops2 : forall c : LRUCache V,
  LRU_run (ops1 ++ ops2) c = LRU_run ops2 (LRU_run ops1 c).
Proof. induction ops1 as [|o ops1 IH]; intros c; cbn [app LRU_run]; auto. Qed.

(** The options of a cache never change. *)
Lemma LRU_step_options o (c : LRUCache V) :
  ttl (snd (LRU_step o c)) = ttl c
  /\ max (snd (LRU_step o c)) = max c
  /\ updateAgeOnGet (snd (LRU_step o c)) = updateAgeOnGet c.
Proof.
  destruct o as [k now|k data now|k now|]; cbn [LRU_step snd].
  - unfold LRU_get. destruct (find_entry k (entries c)); [|auto].
    destruct (isStale c now e); auto.
  - unfold LRU_set. destruct (find_entry k (entries c)); [auto|].
    destruct (length (entries c) <? max c)%nat; auto.
  - unfold LRU_purge. destruct (find_entry k (entries c)); [|auto].
    destruct (isStale c now e); auto.
  - auto.
Qed.

Lemma LRU_run_options ops : forall c : LRUCache V,
  ttl (LRU_run ops c) = ttl c
  /\ max (LRU_run ops c) = max c
  /\ updateAgeOnGet (LRU_run ops c) = updateAgeOnGet c.
Proof.
  induction ops as [|o ops IH]; intros c; cbn [LRU_run]; [auto|].
  destruct (IH (snd (LRU_step o c))) as (-> & -> & ->). apply LRU_step_options.
Qed.

Lemma empty_caches_options d :
  ttl (cache_of d (empty_caches (V := V))) = class_ttl d
  /\ max (cache_of d (empty_caches (V := V))) = class_max d
  /\ updateAgeOnGet (cache_of d (empty_caches (V := V))) = class_refresh d
  /\ entries (cache_of d (empty_caches (V := V))) = [].
Proof. now destruct d. Qed.

(** *** Entries *)

Lemma find_entry_Some k (l : list (Entry V)) e :
  find_entry k l = Some e -> In e l /\ key e = k.
Proof.
  unfold find_entry. intros H. apply find_some in H as [Hin Hk].
  split; [assumption|]. now apply String.eqb_eq.
Qed.

Lemma In_remove_key k (l : list (Entry V)) e :
  In e (remove_key k l) -> In e l /\ key e <> k.
Proof.
  unfold remove_key. rewrite filter_In. intros [Hin Hk]. split; [assumption|].
  unfold has_key in Hk. apply negb_true_iff in Hk. now apply String.eqb_neq.
Qed.

Lemma In_removelast {A : Type} (l : list A) x : In x (removelast l) -> In x l.
Proof.
  induction l as [|y l IH]; [simpl; tauto|]. cbn [removelast].
  destruct l as [|z l]; [simpl; tauto|]. intros [->|H]; [now left | right; auto].
Qed.


(** *** Expiry *)

Lemma fresh_since_snoc (c0 : LRUCache V) ops o k v t :
  fresh_since c0 ops k v t -> fresh_since c0 (ops ++ [o]) k v t.
Proof.
  intros [Hin | (Hr & ops1 & ops2 & -> & Hget)].
  - left. apply in_or_app. now left.
  - right. split; [assumption|]. exists ops1, (ops2 ++ [o]).
    split; [|assumption]. now rewrite <- app_assoc.
Qed.

Lemma LRU_get_Some k now (c : LRUCache V) v :
  fst (LRU_get k now c) = Some v <->
  exists e, find_entry k (entries c) = Some e /\ isStale c now e = false /\ value e = v.
Proof.
  unfold LRU_get. destruct (find_entry k (entries c)) as [e|].
  - destruct (isStale c now e) eqn:E; cbn [fst].
    + split; [discriminate | intros (e' & [= <-] & H & _); congruence].
    + split; [intros [= <-]; eauto | intros (e' & [= <-] & _ & <-); reflexivity].
  - cbn [fst]. split; [discriminate | intros (e' & H & _); discriminate].
Qed.

(** Every entry of a cache that started empty is accounted for by the
    history. *)
Lemma entries_fresh_since (c0 : LRUCache V) ops :
  entries c0 = [] ->
  forall e, In e (entries (LRU_run ops c0)) ->
            fresh_since c0 ops (key e) (value e) (start e).
Proof.
  intros Hempty. induction ops as [|o ops IH] using rev_ind; intros e.
  - cbn [LRU_run]. rewrite Hempty. intros [].
  - rewrite LRU_run_app. cbn [LRU_run].
    set (c := LRU_run ops c0) in *.
    assert (Hkeep : In e (entries c) ->
                    fresh_since c0 (ops ++ [o]) (key e) (value e) (start e))
      by (intros H; apply fresh_since_snoc, IH, H).
    destruct o as [k now|k data now|k now|]; cbn [LRU_step snd].
    + unfold LRU_get. destruct (find_entry k (entries c)) as [e1|] eqn:Hfind; [|exact Hkeep].
      destruct (isStale c now e1) eqn:Hstale; cbn [snd with_entries entries].
      * intros H. apply In_remove_key in H as [H _]. auto.
      * intros [<-|H]; [|apply In_remove_key in H as [H _]; auto].
        apply find_entry_Some in Hfind as Hk. destruct Hk as [Hin Hk].
        destruct (updateAgeOnGet c) eqn:Hr; [|auto].
        cbn [key value start]. right.
        destruct (LRU_run_options ops c0) as (_ & _ & Hopt). fold c in Hopt.
        split; [congruence|]. exists ops, []. split; [now rewrite Hk|].
        fold c. cbn [LRU_step]. rewrite Hk. apply LRU_get_Some. exists e1. auto.
    + unfold LRU_set.
      assert (Hnew : fresh_since c0 (ops ++ [OpSet k data now]) k data now)
        by (left; apply in_or_app; right; now left).
      destruct (find_entry k (entries c)) as [e1|]; cbn [with_entries entries].
      * intros [<-|H]; [exact Hnew | apply In_remove_key in H as [H _]; auto].
      * destruct (length (entries c) <? max c)%nat; cbn [with_entries entries].
        -- intros [<-|H]; [exact Hnew | auto].
        -- intros [<-|H]; [exact Hnew | apply In_removelast in H; auto].
    + unfold LRU_purge. destruct (find_entry k (entries c)) as [e1|]; [|exact Hkeep].
      destruct (isStale c now e1); [|exact Hkeep]. cbn [with_entries entries].
      intros H. apply In_remove_key in H as [H _]. auto.
    + intros [].
Qed.

(** A get returns a value only within the TTL of the moment the value was
    stored or, when gets reset the age, last read. *)
Lemma LRU_get_within_ttl (c0 : LRUCache V) ops k now v :
  entries c0 = [] ->
  fst (LRU_get k now (LRU_run ops c0)) = Some v ->
  exists t, (now - t <= ttl c0)%Z /\ fresh_since c0 ops k v t.
Proof.
  intros Hempty Hget. apply LRU_get_Some in Hget as (e & Hfind & Hstale & <-).
  apply find_entry_Some in Hfind as [Hin <-].
  exists (start e). split; [|now apply entries_fresh_since].
  unfold isStale in Hstale. destruct (LRU_run_options ops c0) as (Httl & _ & _).
  rewrite Httl in Hstale. apply Z.ltb_ge in Hstale. exact Hstale.
Qed.


(** *** Round trip *)

Lemma find_entry_split k (pre post : list (Entry V)) e :
  Forall (fun x => key x <> k) pre -> key e = k ->
  find_entry k (pre ++ e :: post) = Some e.
Proof.
  intros Hpre He. unfold find_entry. induction Hpre as [|x pre Hx Hpre IH]; cbn [app find].
  - unfold has_key. rewrite He, String.eqb_refl. reflexivity.
  - unfold has_key at 1. apply String.eqb_neq in Hx. now rewrite Hx.
Qed.

Lemma remove_key_split k k' (pre post : list (Entry V)) e :
  key e = k -> k' <> k ->
  remove_key k' (pre ++ e :: post) = remove_key k' pre ++ e :: remove_key k' post.
Proof.
  intros He Hne. unfold remove_key. rewrite List.filter_app. cbn [List.filter].
  unfold has_key at 2. rewrite He.
  assert (String.eqb k k' = false) as -> by (apply String.eqb_neq; congruence).
  reflexivity.
Qed.

Lemma remove_key_length k (l : list (Entry V)) : (length (remove_key k l) <= length l)%nat.
Proof. apply List.filter_length_le. Qed.

Lemma remove_key_Forall k (P : Entry V -> Prop) l :
  Forall P l -> Forall P (remove_key k l).
Proof.
  intros H. apply List.Forall_forall. intros x Hx. apply In_remove_key in Hx as [Hx _].
  rewrite List.Forall_forall in H. auto.
Qed.

(** One quiet operation leaves the entry of [k] in the cache, at most one
    place further from the most recently used end. *)
Lemma LRU_step_survives k v t0 now o (c : LRUCache V) pre e post :
  entries c = pre ++ e :: post ->
  key e = k -> value e = v -> (t0 <= start e)%Z ->
  Forall (fun x => key x <> k) pre ->
  quiet k t0 now o ->
  (now - t0 <= ttl c)%Z ->
  (length pre + weight k o < max c)%nat ->
  exists pre' e' post',
    entries (snd (LRU_step o c)) = pre' ++ e' :: post'
    /\ key e' = k /\ value e' = v /\ (t0 <= start e')%Z
    /\ Forall (fun x => key x <> k) pre'
    /\ (length pre' <= length pre + weight k o)%nat.
Proof.
  intros Hc He Hv Hs Hpre [Ho Ht] Httl Hn.
  assert (Hfresh : forall t, (t0 <= t <= now)%Z -> isStale c t e = false)
    by (intros t Hrange; unfold isStale; apply Z.ltb_ge; lia).
  assert (Hsame : exists pre' e' post',
            entries c = pre' ++ e' :: post'
            /\ key e' = k /\ value e' = v /\ (t0 <= start e')%Z
            /\ Forall (fun x => key x <> k) pre'
            /\ (length pre' <= length pre + weight k o)%nat)
    by (exists pre, e, post; repeat split; auto; lia).
  assert (Hremoved : forall k', k' <> k -> exists pre' e' post',
            remove_key k' (entries c) = pre' ++ e' :: post'
            /\ key e' = k /\ value e' = v /\ (t0 <= start e')%Z
            /\ Forall (fun x => key x <> k) pre'
            /\ (length pre' <= length pre + weight k o)%nat).
  { intros k' Hne. exists (remove_key k' pre), e, (remove_key k' post).
    rewrite Hc. split; [now apply (remove_key_split k)|].
    repeat split; auto using remove_key_Forall.
    pose proof (remove_key_length k' pre). lia. }
  assert (Hfront : forall k' x, k' <> k -> key x = k' -> weight k o = 1%nat ->
            exists pre' e' post',
              x :: remove_key k' (entries c) = pre' ++ e' :: post'
              /\ key e' = k /\ value e' = v /\ (t0 <= start e')%Z
              /\ Forall (fun x => key x <> k) pre'
              /\ (length pre' <= length pre + weight k o)%nat).
  { intros k' x Hne Hx Hw. exists (x :: remove_key k' pre), e, (remove_key k' post).
    rewrite Hc, (remove_key_split k k' pre post e He Hne). split; [reflexivity|].
    repeat split; auto.
    - constructor; [congruence | now apply remove_key_Forall].
    - pose proof (remove_key_length k' pre). cbn [length]. lia. }
  destruct o as [k' now'|k' data now'|k' now'|]; cbn [LRU_step snd].
  - (* get *)
    specialize (Ht now' eq_refl). unfold LRU_get.
    destruct (String.eqb_spec k' k) as [->|Hne].
    + rewrite Hc, (find_entry_split _ _ _ _ Hpre He), (Hfresh _ Ht).
      cbn [snd with_entries entries].
      eexists [], _, _. split; [reflexivity|].
      destruct (updateAgeOnGet c); cbn [key value start length];
        repeat split; auto; try lia.
    + assert (Hw : weight (V := V) k (OpGet k' now') = 1%nat).
      { unfold weight, touches_other. apply String.eqb_neq in Hne. now rewrite Hne. }
      destruct (find_entry k' (entries c)) as [e1|] eqn:Hfind; [|exact Hsame].
      apply find_entry_Some in Hfind as [_ Hk1].
      destruct (isStale c now' e1); cbn [snd with_entries entries]; [now apply Hremoved|].
      apply Hfront; auto. now destruct (updateAgeOnGet c).
  - (* set *)
    cbn [overwrites] in Ho. apply String.eqb_neq in Ho as Hne.
    assert (Hw : weight k (OpSet k' data now') = 1%nat).
    { unfold weight, touches_other. now rewrite Ho. }
    unfold LRU_set. destruct (find_entry k' (entries c)) as [e1|] eqn:Hfind;
      cbn [with_entries entries]; [now apply Hfront|].
    destruct (length (entries c) <? max c)%nat eqn:Hfull; cbn [with_entries entries].
    + eexists (_ :: pre), e, post. rewrite Hc. split; [reflexivity|].
      do 3 (split; [assumption|]). split; [|cbn [length]; lia].
      constructor; [cbn [key]; congruence | assumption].
    + apply Nat.ltb_ge in Hfull. rewrite Hc, length_app in Hfull. cbn [length] in Hfull.
      destruct post as [|p post]; [cbn [length] in Hfull; lia|].
      eexists (_ :: pre), e, (removelast (p :: post)).
      rewrite Hc, removelast_app by discriminate. split; [reflexivity|].
      do 3 (split; [assumption|]). split; [|cbn [length]; lia].
      constructor; [cbn [key]; congruence | assumption].
  - (* a timer *)
    specialize (Ht now' eq_refl). unfold LRU_purge.
    destruct (String.eqb_spec k' k) as [->|Hne].
    + replace (find_entry k (entries c)) with (Some e)
        by (rewrite Hc; symmetry; now apply find_entry_split).
      rewrite (Hfresh _ Ht). exact Hsame.
    + destruct (find_entry k' (entries c)) as [e1|]; [|exact Hsame].
      destruct (isStale c now' e1); [|exact Hsame].
      cbn [with_entries entries]. now apply Hremoved.
  - discriminate.
Qed.

(** The entry of [k] survives a run of quiet operations when fewer than
    [max] of them touch other keys, and a get within the TTL returns it. *)
Lemma LRU_survives k v t0 now between :
  forall (c : LRUCache V) pre e post,
    entries c = pre ++ e :: post ->
    key e = k -> value e = v -> (t0 <= start e)%Z ->
    Forall (fun x => key x <> k) pre ->
    Forall (quiet k t0 now) between ->
    (t0 <= now)%Z -> (now - t0 <= ttl c)%Z ->
    (length pre + length (List.filter (touches_other k) between) < max c)%nat ->
    fst (LRU_get k now (LRU_run between c)) = Some v.
Proof.
  induction between as [|o between IH];
    intros c pre e post Hc He Hv Hs Hpre Hq Hnow Httl Hn; cbn [LRU_run].
  - apply LRU_get_Some. exists e. rewrite Hc. split; [now apply find_entry_split|].
    split; [|assumption]. unfold isStale. apply Z.ltb_ge. lia.
  - apply Forall_cons_iff in Hq as [Ho Hq'].
    destruct (LRU_step_options o c) as (Ottl & Omax & _).
    assert (Hcount : length (List.filter (touches_other k) (o :: between))
                     = (weight k o + length (List.filter (touches_other k) between))%nat)
      by (cbn [List.filter]; unfold weight; now destruct (touches_other k o)).
    rewrite Hcount in Hn.
    destruct (LRU_step_survives k v t0 now o c pre e post Hc He Hv Hs Hpre Ho Httl)
      as (pre' & e' & post' & Hc' & He' & Hv' & Hs' & Hpre' & Hlen); [lia|].
    eapply IH; try eassumption; rewrite ?Ottl, ?Omax; [assumption | lia].
Qed.


Lemma get_LRU d k now (m : Cache) :
  fst (step d (OpGet k now) m) = fst (LRU_get k now (cache_of d m)).
Proof. apply (step_LRU d (OpGet k now) m). Qed.

(** C2 (as amended): a get returns a value only if at most the TTL of the
    class has passed since the value was set or, in the classes that reset
    the age on a get (all but market metadata), since a get last returned
    it; and a get at most the TTL after a set returns the value set when no
    operation in between sets the key or clears the cache and fewer than
    the capacity of the class read or write other keys. *)
Theorem cache_expiry_and_round_trip (d : DataClass) :
  (forall ops k now v,
     fst (step d (OpGet k now) (run d ops empty_caches)) = Some v ->
     exists t, (now - t <= class_ttl d)%Z /\ stored_at d ops k v t)
  /\ (forall before k v t0 between now,
        Forall (quiet k t0 now) between ->
        (t0 <= now <= t0 + class_ttl d)%Z ->
        (length (List.filter (touches_other k) between) < class_max d)%nat ->
        fst (step d (OpGet k now)
               (run d (before ++ OpSet k v t0 :: between) empty_caches)) = Some v).
Proof.
  destruct (empty_caches_options d) as (Httl & Hmax & Hrefresh & Hempty).
  split.
  - intros ops k now v. rewrite get_LRU, run_LRU. intros Hget.
    apply LRU_get_within_ttl in Hget as (t & Ht & Hfresh); [|exact Hempty].
    exists t. rewrite <- Httl. split; [exact Ht|].
    destruct Hfresh as [Hin | (Hr & ops1 & ops2 & -> & Hget)]; [now left|].
    right. split; [congruence|]. exists ops1, ops2. split; [reflexivity|].
    rewrite get_LRU, run_LRU. exact Hget.
  - intros before k v t0 between now Hq Hnow Hn.
    rewrite get_LRU, run_LRU, LRU_run_app. cbn [LRU_run LRU_step snd].
    set (c := LRU_run before (cache_of d empty_caches)).
    destruct (LRU_run_options before (cache_of d (empty_caches (V := V))))
      as (Ottl & Omax & _). fold c in Ottl, Omax.
    destruct (LRU_step_options (OpSet k v t0) c) as (Sttl & Smax & _).
    cbn [LRU_step snd] in Sttl, Smax.
    assert (Hset : exists post,
               entries (LRU_set k v t0 c)
               = [] ++ {| key := k; value := v; start := t0 |} :: post).
    { unfold LRU_set. destruct (find_entry k (entries c)); [eexists; reflexivity|].
      destruct (length (entries c) <? max c)%nat; eexists; reflexivity. }
    destruct Hset as [post Hset].
    eapply (LRU_survives k v t0 now between _ [] _ post Hset); try reflexivity.
    + constructor.
    + exact Hq.
    + lia.
    + rewrite Sttl, Ottl, Httl. lia.
    + rewrite Smax, Omax, Hmax. cbn [length Nat.add]. exact Hn.
Qed.

End WithValue.

(** *** Size and counters *)

Section Bounds.

Context {V : Type} (truthy_value : V -> bool).

Lemma remove_key_cons k (e : Entry V) l :
  remove_key k (e :: l)
  = if String.eqb (key e) k then remove_key k l else e :: remove_key k l.
Proof.
  unfold remove_key, has_key. cbn [List.filter]. now destruct (String.eqb (key e) k).
Qed.

Lemma remove_key_keys k (l : list (Entry V)) :
  List.NoDup (map key l) ->
  List.NoDup (map key (remove_key k l)) /\ ~ In k (map key (remove_key k l)).
Proof.
  induction l as [|e l IH]; [split; [constructor | intros []]|].
  cbn [map]. intros Hnd. apply List.NoDup_cons_iff in Hnd as [He Hnd].
  destruct (IH Hnd) as [IH1 IH2]. rewrite remove_key_cons.
  destruct (String.eqb_spec (key e) k) as [Hk|Hk]; [auto|]. cbn [map]. split.
  - constructor; [|exact IH1]. intros Hin. apply He.
    apply in_map_iff in Hin as (x & Hx & Hin). apply In_remove_key in Hin as [Hin _].
    rewrite <- Hx. now apply in_map.
  - cbn [In]. intros [H|H]; [congruence | now apply IH2].
Qed.

Lemma find_entry_None k (l : list (Entry V)) :
  find_entry k l = None -> ~ In k (map key l).
Proof.
  unfold find_entry. intros H Hin. apply in_map_iff in Hin as (e & He & Hin).
  apply (find_none _ _ H) in Hin. unfold has_key in Hin. rewrite He, String.eqb_refl in Hin.
  discriminate.
Qed.

Lemma find_entry_length k (l : list (Entry V)) e :
  find_entry k l = Some e -> (S (length (remove_key k l)) <= length l)%nat.
Proof.
  unfold find_entry, remove_key. induction l as [|x l IH]; cbn [find List.filter length];
    [discriminate|].
  destruct (has_key k x); cbn [negb length].
  - intros _. pose proof (List.filter_length_le (fun e => negb (has_key k e)) l). lia.
  - intros H. specialize (IH H). lia.
Qed.

Lemma removelast_keys (l : list (Entry V)) :
  List.NoDup (map key l) -> List.NoDup (map key (removelast l)).
Proof.
  induction l as [|e l IH]; [auto|]. cbn [removelast].
  destruct l as [|e' l]; [constructor|]. cbn [map] in *.
  intros Hnd. apply List.NoDup_cons_iff in Hnd as [He Hnd]. constructor; [|auto].
  intros Hin. apply He. change (key e' :: map key l) with (map key (e' :: l)).
  apply in_map_iff in Hin as (x & Hx & Hin). apply In_removelast in Hin.
  rewrite <- Hx. now apply in_map.
Qed.

Lemma removelast_In_keys (l : list (Entry V)) k :
  In k (map key (removelast l)) -> In k (map key l).
Proof.
  intros Hin. apply in_map_iff in Hin as (x & Hx & Hin). apply In_removelast in Hin.
  rewrite <- Hx. now apply in_map.
Qed.

Lemma removelast_length (l : list (Entry V)) :
  l <> [] -> S (length (removelast l)) = length l.
Proof.
  induction l as [|e l IH]; [congruence|]. intros _. cbn [removelast].
  destruct l as [|e' l]; [reflexivity|]. cbn [length] in *. rewrite IH by discriminate.
  reflexivity.
Qed.

Lemma LRU_step_within o (c : LRUCache V) :
  (1 <= max c)%nat -> within c -> within (snd (LRU_step o c)).
Proof.
  intros Hmax [Hlen Hnd]. unfold within.
  destruct o as [k now|k data now|k now|]; cbn [LRU_step snd].
  - unfold LRU_get. destruct (find_entry k (entries c)) as [e|] eqn:Hfind; [|auto].
    pose proof (find_entry_length _ _ _ Hfind) as Hl.
    destruct (remove_key_keys k (entries c) Hnd) as [Hnd' Hk].
    apply find_entry_Some in Hfind as [_ Hkey].
    destruct (isStale c now e); cbn [snd with_entries entries max length map].
    + split; [lia | exact Hnd'].
    + split; [lia|]. constructor; [|exact Hnd'].
      destruct (updateAgeOnGet c); cbn [key]; now rewrite ?Hkey.
  - unfold LRU_set. destruct (find_entry k (entries c)) as [e|] eqn:Hfind.
    + pose proof (find_entry_length _ _ _ Hfind) as Hl.
      destruct (remove_key_keys k (entries c) Hnd) as [Hnd' Hk].
      cbn [with_entries entries max length map key]. split; [lia | now constructor].
    + apply find_entry_None in Hfind.
      destruct (Nat.ltb_spec (length (entries c)) (max c)) as [Hlt|Hge];
        cbn [with_entries entries max length map key].
      * split; [lia | now constructor].
      * split.
        -- assert (Hne : entries c <> []) by (intros E; rewrite E in Hge; cbn in Hge; lia).
           rewrite (removelast_length _ Hne). exact Hlen.
        -- constructor; [|now apply removelast_keys].
           intros Hin. apply Hfind. now apply removelast_In_keys.
  - unfold LRU_purge. destruct (find_entry k (entries c)) as [e|] eqn:Hfind; [|auto].
    destruct (isStale c now e); [|auto].
    pose proof (find_entry_length _ _ _ Hfind) as Hl.
    destruct (remove_key_keys k (entries c) Hnd) as [Hnd' Hk].
    cbn [with_entries entries max]. split; [lia | exact Hnd'].
  - cbn [LRU_clear with_entries entries max length map]. split; [lia | constructor].
Qed.

Lemma LRU_run_within ops : forall c : LRUCache V,
  (1 <= max c)%nat -> within c -> within (LRU_run ops c).
Proof.
  induction ops as [|o ops IH]; intros c Hmax Hc; cbn [LRU_run]; [exact Hc|].
  apply IH; [|now apply LRU_step_within].
  destruct (LRU_step_options o c) as (_ & -> & _). exact Hmax.
Qed.

(** X8: whatever is done to it, the cache of a data class holds no more
    entries than the class allows (500 tickers, 200 order books, 300
    candle series, 1000 market lists, 200 trade lists) and holds each key
    once. *)
Theorem cache_size_bounded (d : DataClass) (ops : list (CacheOp V)) :
  let c := cache_of d (Cache.run truthy_value d ops empty_caches) in
  (length (entries c) <= class_max d)%nat /\ List.NoDup (map key (entries c)).
Proof.
  cbv zeta. rewrite run_LRU.
  destruct (empty_caches_options (V := V) d) as (_ & Hmax & _ & Hempty).
  destruct (LRU_run_within ops (cache_of d empty_caches)) as [Hlen Hnd].
  - rewrite Hmax. destruct d; cbv; lia.
  - split; rewrite Hempty; [cbn; lia | constructor].
  - destruct (LRU_run_options ops (cache_of d (empty_caches (V := V)))) as (_ & Hm & _).
    rewrite Hm, Hmax in Hlen. auto.
Qed.

End Bounds.

Section Counters.

Context {V : Type} (truthy_value : V -> bool).

Lemma class_eqb_eq a b : class_eqb a b = true <-> a = b.
Proof. destruct a, b; cbn; split; (reflexivity || discriminate || congruence). Qed.

Lemma cache_of_with_cache_ne d d' c (m : MarketDataCache V) :
  d' <> d -> cache_of d' (with_cache d c m) = cache_of d' m.
Proof. destruct d, d'; (reflexivity || congruence). Qed.

Lemma metrics_with_cache d c (m : MarketDataCache V) :
  metrics (with_cache d c m) = metrics m.
Proof. reflexivity. Qed.

(** What one operation on class [d] does to the counters and to the
    other classes. *)
Lemma step_counters d o (m : MarketDataCache V) :
  let m' := snd (Cache.step truthy_value d o m) in
  (hits (metrics m' d) + misses (metrics m' d)
   = hits (metrics m d) + misses (metrics m d) + (if is_get o then 1 else 0))%nat
  /\ (forall d', evictions (metrics m' d') = evictions (metrics m d'))
  /\ (forall d', d' <> d ->
        metrics m' d' = metrics m d' /\ cache_of d' m' = cache_of d' m).
Proof.
  cbv zeta. destruct o as [k now|k data now|k now|]; cbn [Cache.step snd is_get].
  2-4: (split; [unfold set_in, clear_in; rewrite ?metrics_with_cache; lia|];
        split; [reflexivity|]; intros d' Hd; split; [reflexivity|];
        unfold set_in, clear_in; now apply cache_of_with_cache_ne).
  unfold get_in. destruct (LRU_get k now (cache_of d m)) as [r c]. cbn [snd].
  split; [|split].
  - unfold count. cbn [metrics].
    assert (class_eqb d d = true) as -> by now apply class_eqb_eq.
    destruct (match r with Some v => truthy_value v | None => false end);
      cbn [hits misses metrics with_cache]; lia.
  - intros d'. unfold count. cbn [metrics].
    destruct (class_eqb d d'); [|reflexivity].
    now destruct (match r with Some v => truthy_value v | None => false end).
  - intros d' Hd. split.
    + unfold count. cbn [metrics].
      destruct (class_eqb d d') eqn:E; [|reflexivity].
      apply class_eqb_eq in E. congruence.
    + rewrite cache_of_count. now apply cache_of_with_cache_ne.
Qed.

(** X9: the counters of a data class count its lookups: after any history
    [hits + misses] has grown by the number of lookups made.  Evictions are
    never counted, for no class, and a history of one class changes neither
    the counters nor the entries of another. *)
Theorem cache_counters (d : DataClass) (ops : list (CacheOp V)) (m : MarketDataCache V) :
  let m' := Cache.run truthy_value d ops m in
  (hits (metrics m' d) + misses (metrics m' d)
   = hits (metrics m d) + misses (metrics m d) + lookups ops)%nat
  /\ (forall d', evictions (metrics m' d') = evictions (metrics m d'))
  /\ (forall d', d' <> d ->
        metrics m' d' = metrics m d' /\ cache_of d' m' = cache_of d' m).
Proof.
  revert m. induction ops as [|o ops IH]; intros m; cbn [Cache.run].
  - unfold lookups. cbn. split; [lia|]. split; [reflexivity|]. auto.
  - destruct (step_counters d o m) as (H1 & H2 & H3).
    destruct (IH (snd (Cache.step truthy_value d o m))) as (I1 & I2 & I3).
    cbv zeta in *. split; [|split].
    + rewrite I1, H1. unfold lookups. cbn [List.filter].
      destruct (is_get o); cbn [length]; lia.
    + intros d'. now rewrite I2, H2.
    + intros d' Hd. destruct (I3 d' Hd) as [-> ->]. now apply H3.
Qed.

(** X10: [calculateHitRate] is a percentage: between 0 and 100, and 0
    (not a division by zero) as long as nothing was looked up. *)
Theorem calculateHitRate_percentage (h m : nat) :
  between 0 100 (calculateHitRate h m)
  /\ calculateHitRate 0 0 = Num 0.
Proof.
  split; [|reflexivity]. unfold calculateHitRate.
  destruct (Nat.ltb_spec 0 (h + m)) as [Hpos|_]; [|cbn; lra].
  unfold div, mul. cbn [lift2].
  assert (Ht : 0 < inject_Z (Z.of_nat (h + m))).
  { change 0 with (inject_Z 0). rewrite <- Zlt_Qlt. lia. }
  assert (Hh : 0 <= inject_Z (Z.of_nat h)).
  { change 0 with (inject_Z 0). rewrite <- Zle_Qle. lia. }
  assert (Hle : inject_Z (Z.of_nat h) <= inject_Z (Z.of_nat (h + m))).
  { rewrite <- Zle_Qle. lia. }
  destruct (Qeq_bool (inject_Z (Z.of_nat (h + m))) 0) eqn:E.
  { apply Qeq_bool_iff in E. lra. }
  cbn [between].
  set (t := inject_Z (Z.of_nat (h + m))) in *. set (x := inject_Z (Z.of_nat h)) in *.
  assert (Hq : 0 <= x / t <= 1).
  { split.
    - apply Qle_shift_div_l; [exact Ht | lra].
    - apply Qle_shift_div_r; [exact Ht | lra]. }
  set (q := x / t) in *. clearbody q. cbn [lift2 between]. lra.
Qed.

(** X11: [clearAllCaches] empties all five caches, so that any lookup
    after it is a miss, and keeps the counters; [resetMetrics] zeroes the
    counters of all five classes and keeps the entries. *)
Theorem clear_and_reset (m : MarketDataCache V) :
  (forall d k now,
     entries (cache_of d (clearAllCaches m)) = []
     /\ fst (get_in truthy_value d k now (clearAllCaches m)) = None)
  /\ metrics (clearAllCaches m) = metrics m
  /\ (forall d, cache_of d (resetMetrics m) = cache_of d m
                /\ metrics (resetMetrics m) d = no_metrics).
Proof.
  split; [|split].
  - intros d k now.
    assert (He : entries (cache_of d (clearAllCaches m)) = []) by now destruct d.
    split; [exact He|].
    unfold get_in, LRU_get, find_entry. rewrite He. reflexivity.
  - reflexivity.
  - intros d. split; [now destruct d | reflexivity].
Qed.

End Counters.

End CacheFacts.

Module ScanProperties.

Import JsNumFacts JsStringFacts ScoringFacts ScannerFacts ScanTheorems LimiterFacts.

(** *** The stored opportunities *)

Lemma head_sorted (l : list ArbitrageOpportunity) top :
  Forall has_netProfit l ->
  head (sort_by_netProfit l) = Some top ->
  In top l /\ Forall (descending top) l.
Proof.
  intros Hnum Hhead.
  pose proof (sort_by_netProfit_sorted l Hnum) as Hs.
  pose proof (sort_by_netProfit_perm l) as Hp.
  destruct (sort_by_netProfit l) as [|x rest] eqn:E; [discriminate|].
  injection Hhead as ->. split.
  - apply (Permutation_in _ Hp). now left.
  - apply List.Forall_forall. intros o Ho.
    apply (Permutation_in _ (Permutation_sym Hp)) in Ho.
    inversion Hs as [|? ? _ Hall]; subst. destruct Ho as [<-|Ho].
    + rewrite List.Forall_forall in Hnum.
      assert (Htop : has_netProfit top) by (apply Hnum, (Permutation_in _ Hp); now left).
      unfold has_netProfit, descending in *. destruct (netProfit top); [|contradiction].
      cbn. apply Qle_bool_iff. lra.
    + rewrite List.Forall_forall in Hall. auto.
Qed.

(** X21: [getOpportunities] lists each stored opportunity once, the
    highest net profit first, and [getStats] reports how many there are and
    the best of them, or [null] when there is none (for stored
    opportunities whose net profit is a number, as those of a scan are). *)
Theorem getStats_topOpportunity (sc : ScannerState) :
  Forall has_netProfit (map snd (opportunities sc)) ->
  Permutation (getOpportunities sc) (map snd (opportunities sc))
  /\ StronglySorted descending (getOpportunities sc)
  /\ ScannerStats.totalOpportunities (getStats sc) = length (opportunities sc)
  /\ match ScannerStats.topOpportunity (getStats sc) with
     | None => opportunities sc = []
     | Some top =>
         In top (map snd (opportunities sc))
         /\ Forall (descending top) (map snd (opportunities sc))
     end.
Proof.
  intros Hnum. split; [apply sort_by_netProfit_perm|].
  split; [now apply sort_by_netProfit_sorted|]. split; [reflexivity|].
  unfold getStats. cbn [ScannerStats.topOpportunity]. unfold getOpportunities.
  destruct (head (sort_by_netProfit (map snd (opportunities sc)))) as [top|] eqn:E.
  - now apply head_sorted.
  - pose proof (Permutation_length (sort_by_netProfit_perm (map snd (opportunities sc)))) as Hl.
    destruct (sort_by_netProfit (map snd (opportunities sc))); [|discriminate].
    rewrite length_map in Hl. destruct (opportunities sc); [reflexivity | discriminate].
Qed.

(** [clearOldOpportunities] goes by the time at the end of the id. *)
Lemma clearOldOpportunities_by_age (maxAge : option Q) (now : Z) (sc : ScannerState)
    prefix (t : Z) opp :
  (0 <= t)%Z ->
  In (id_at prefix t, opp) (opportunities sc) ->
  (In (id_at prefix t, opp)
      (opportunities (clearOldOpportunities (option_map Num maxAge) now sc))
   <-> inject_Z (now - t) <= default 300000 maxAge).
Proof.
  intros Ht Hin. unfold clearOldOpportunities. cbn [opportunities].
  rewrite filter_In.
  rewrite split_pop_id_at, parseInt_pretty by exact Ht.
  assert (Hage : inject_Z now - inject_Z t == inject_Z (now - t)).
  { unfold Z.sub. rewrite inject_Z_plus, inject_Z_opp. reflexivity. }
  assert (Hm : default (Num 300000) (option_map Num maxAge) = Num (default 300000 maxAge))
    by now destruct maxAge.
  rewrite Hm. cbn [sub lift2 gtb ltb]. rewrite negb_true_iff, Qlt_bool_false, Hage.
  tauto.
Qed.


Lemma Map_set_keys {A : Type} k (v : A) m k' :
  In k' (map fst (Map_set k v m)) <-> k' = k \/ In k' (map fst m).
Proof.
  induction m as [|[k0 v0] m IH]; cbn [Map_set map fst In].
  - split; [intros [<-|[]]; now left | intros [->|[]]; now left].
  - destruct (String.eqb_spec k0 k) as [->|Hne]; cbn [map fst In].
    + split; [intros [<-|H]; auto | intros [->|[->|H]]; auto].
    + rewrite IH. split; [intros [<-|[->|H]]; auto | intros [->|[<-|H]]; auto].
Qed.

Lemma store_keys found : forall m k,
  In k (map fst (store found m)) <-> In k (map id found) \/ In k (map fst m).
Proof.
  unfold store. induction found as [|opp found IH]; intros m k; cbn [fold_left map In].
  - tauto.
  - rewrite IH, Map_set_keys. split; [intros [H|[->|H]]; auto | intros [[<-|H]|H]; auto].
Qed.

Section WithGateway.

Context {G Instance : Type}.
Variable getExchange : string -> Runtime * G -> Completion Instance * (Runtime * G).
Variable has_fetchTicker : Instance -> bool.
Variable fetchTicker :
  Instance -> string -> Runtime * G -> Completion TickerData.t * (Runtime * G).
Variable Math_random : nat -> Q.

Abbreviation World := (@Scanner.World G).
Abbreviation scanForArbitrage :=
  (Scanner.scanForArbitrage getExchange has_fetchTicker fetchTicker Math_random).
Abbreviation quotes :=
  (Scanner.quotes getExchange has_fetchTicker fetchTicker Math_random).
Abbreviation compared_at :=
  (Scanner.compared_at getExchange has_fetchTicker fetchTicker Math_random).
Abbreviation startContinuousScanning :=
  (Scanner.startContinuousScanning getExchange has_fetchTicker fetchTicker Math_random).
Abbreviation scanning_loop :=
  (Scanner.scanning_loop getExchange has_fetchTicker fetchTicker Math_random).
Abbreviation scan_pass :=
  (Scanner.scan_pass getExchange has_fetchTicker fetchTicker Math_random).

Lemma scanForArbitrage_Analyzed symbol exchanges config (w : World) opp :
  In opp (fst (scanForArbitrage symbol exchanges config w)) ->
  exists buy sell a b fee vol risk,
    Analyzed symbol (compared_at symbol exchanges w) buy sell opp a b fee vol risk.
Proof.
  rewrite (scanForArbitrage_In getExchange has_fetchTicker fetchTicker Math_random).
  intros (i & j & buy & sell & _ & _ & _ & H). exists buy, sell.
  eapply consider_analyzed, H.
Qed.

(** X17: the figures of every opportunity a scan returns hang together.
    With [a] the buy price, [b] the sell price, [fee] the total fees and
    [vol] the available volume: [0 < a < b], the fees are not negative,
    [spread = b - a], [spreadPercent = (b - a) / a * 100],
    [potentialProfit = (b - a) * vol],
    [netProfit = (b - a - fee) * vol],
    [netProfitPercent = (b - a - fee) / a * 100]; the profit per unit
    [b - a - fee] and the volume are positive, which is what
    [analyzeOpportunity] tests, and the net profit, their product, is not
    negative and at most the potential profit. *)
Theorem scanForArbitrage_figures symbol exchanges config (w : World) :
  Forall (fun opp =>
            exists a b fee vol,
              buyPrice opp = Num a /\ sellPrice opp = Num b
              /\ totalFees (fees opp) = Num fee /\ available (volume opp) = Num vol
              /\ 0 < a /\ a < b /\ 0 <= fee /\ 0 < vol
              /\ spread opp = Num (b - a)
              /\ spreadPercent opp = Num ((b - a) / a * 100)
              /\ potentialProfit opp = Num ((b - a) * vol)
              /\ netProfit opp = Num ((b - a - fee) * vol)
              /\ netProfitPercent opp = Num ((b - a - fee) / a * 100)
              /\ 0 < b - a - fee
              /\ 0 <= (b - a - fee) * vol /\ (b - a - fee) * vol <= (b - a) * vol)
         (fst (scanForArbitrage symbol exchanges config w)).
Proof.
  apply List.Forall_forall. intros opp Hin.
  apply scanForArbitrage_Analyzed in Hin as (buy & sell & a & b & fee & vol & risk & H).
  destruct H. exists a, b, fee, vol.
  destruct analyzed_crossed0, analyzed_fee0.
  repeat split; try assumption; try lra; nra.
Qed.

(** X18: the optimal volume of every opportunity a scan returns is the
    available volume scaled by the risk, [(10 - riskScore) / 10], and by a
    quarter: never negative and never more than 22.5% of what is
    available.  The execution time is estimated at 610 seconds between
    two venues and at 10 for one and the same. *)
Theorem scanForArbitrage_sizing symbol exchanges config (w : World) :
  Forall (fun opp =>
            exists vol risk opt,
              available (volume opp) = Num vol /\ riskScore opp = Num risk
              /\ optimal (volume opp) = Num opt
              /\ opt == vol * ((10 - risk) / 10) * 0.25
              /\ 0 <= opt /\ opt <= 0.225 * vol
              /\ executionTime opp
                 = Num (if String.eqb (buyExchange opp) (sellExchange opp)
                        then 10 else 610))
         (fst (scanForArbitrage symbol exchanges config w)).
Proof.
  apply List.Forall_forall. intros opp Hin.
  apply scanForArbitrage_Analyzed in Hin as (buy & sell & a & b & fee & vol & risk & H).
  destruct H. exists vol, risk, (vol * ((10 - risk) / 10) * 0.25).
  destruct analyzed_risk0 as [Hr1 Hr2].
  rewrite analyzed_buyExchange0, analyzed_sellExchange0.
  assert (Hrf : 0 <= (10 - risk) / 10 /\ (10 - risk) / 10 <= 0.9).
  { split; [apply Qle_shift_div_l | apply Qle_shift_div_r]; lra. }
  set (rf := (10 - risk) / 10) in *. clearbody rf. destruct Hrf.
  repeat split; try assumption; try reflexivity; nra.
Qed.



(** *** Too few venues *)

Lemma length_omap_le {A B : Type} (f : A -> option B) (l : list A) :
  (length (omap f l) <= length l)%nat.
Proof.
  induction l as [|x l IH]; cbn [omap list_omap length]; [lia|].
  destruct (f x); cbn [length]; lia.
Qed.

Lemma quotes_length symbol exchanges (w : World) :
  (length (quotes symbol exchanges w) <= length exchanges)%nat.
Proof.
  unfold Scanner.quotes, Scanner.fetchPricesFromExchanges.
  match goal with
  | |- context [executeBatch ?r ?ops ?l ?e] =>
      pose proof (run_groups_settles r (group_operations ops) [] l e
                    (List.Forall_nil _)) as [Hlen _];
      pose proof (Permutation_length (group_operations_perm ops)) as Hp;
      unfold executeBatch;
      destruct (run_groups r (group_operations ops) [] l e) as [[results lim'] env'];
      rewrite length_map in Hp
  end.
  cbn [fst snd length] in *. etransitivity; [apply length_omap_le|]. lia.
Qed.

Lemma ordered_pairs_short (priceData : list PriceData.t) :
  (length priceData <= 1)%nat -> ordered_pairs priceData = [].
Proof.
  destruct priceData as [|x [|y l]]; cbn [length]; [reflexivity | reflexivity | lia].
Qed.

(** X19: an arbitrage needs two venues.  A scan over no venue or a single
    one returns no opportunity, whatever that venue quotes. *)
Theorem scanForArbitrage_needs_two_venues symbol exchanges config (w : World) :
  (length exchanges <= 1)%nat ->
  fst (scanForArbitrage symbol exchanges config w) = [].
Proof.
  intros Hlen.
  rewrite (scanForArbitrage_result getExchange has_fetchTicker fetchTicker Math_random).
  unfold findOpportunities. rewrite ordered_pairs_short; [reflexivity|].
  pose proof (quotes_length symbol exchanges w). lia.
Qed.

(** *** Stopping and starting again *)






(** *** Ageing *)

(** X22: [clearOldOpportunities(maxAge)] reads the age of an opportunity
    off the end of its id, and the id a scan gives ends in the time of the
    scan, whatever dashes the symbol or the venue ids hold.  So every
    opportunity a scan returns is stored under its id, and what is stored
    under that id is kept exactly when the scan is at most [maxAge] old
    (five minutes if none is given). *)
Theorem clearOldOpportunities_after_scan symbol exchanges config (w : World)
    (maxAge : option Q) (now : Z) opp :
  (0 <= compared_at symbol exchanges w)%Z ->
  In opp (fst (scanForArbitrage symbol exchanges config w)) ->
  let sc := scanner (snd (scanForArbitrage symbol exchanges config w)) in
  (exists stored, In (id opp, stored) (opportunities sc))
  /\ forall stored,
       In (id opp, stored) (opportunities sc) ->
       (In (id opp, stored)
           (opportunities (clearOldOpportunities (option_map Num maxAge) now sc))
        <-> inject_Z (now - compared_at symbol exchanges w) <= default 300000 maxAge).
Proof.
  intros Ht Hin sc. split.
  - assert (Hk : In (id opp) (map fst (opportunities sc))).
    { unfold sc, Scanner.scanForArbitrage.
      pose proof (scanForArbitrage_result getExchange has_fetchTicker fetchTicker
                    Math_random symbol exchanges config w) as Hres.
      unfold Scanner.scanForArbitrage, Scanner.quotes, Scanner.compared_at in Hin, Hres.
      destruct (fetchPricesFromExchanges _ _ _ _ _ _ _ _) as [[priceData lim] [rt sv]].
      cbn [fst snd scanner opportunities] in *.
      apply store_keys. left. now apply in_map. }
    apply in_map_iff in Hk as ([k stored] & Hk & Hs). cbn [fst] in Hk. subst k. eauto.
  - intros stored Hs.
    apply scanForArbitrage_Analyzed in Hin as (buy & sell & a & b & fee & vol & risk & H).
    rewrite (analyzed_id _ _ _ _ _ _ _ _ _ _ H) in Hs |- *.
    now apply clearOldOpportunities_by_age.
Qed.

End WithGateway.


End ScanProperties.

Module ValidationFacts.

Import Validation JsNumFacts.


Ltac each_char c := destruct c as [[] [] [] [] [] [] [] []].

Lemma all_chars_impl (p q : ascii -> bool) s :
  (forall c, p c = true -> q c = true) -> all_chars p s = true -> all_chars q s = true.
Proof.
  intros Hpq. induction s as [|c s IH]; cbn [all_chars]; [reflexivity|].
  rewrite !andb_true_iff. intros [Hc Hs]. auto.
Qed.

Lemma all_chars_app p s1 s2 :
  all_chars p (s1 +:+ s2) = all_chars p s1 && all_chars p s2.
Proof.
  induction s1 as [|c s1 IH]; [reflexivity|].
  change (String c s1 +:+ s2) with (String c (s1 +:+ s2)). cbn [all_chars].
  now rewrite IH, andb_assoc.
Qed.

Lemma upper_ascii_idem c : upper_ascii (upper_ascii c) = upper_ascii c.
Proof. each_char c; reflexivity. Qed.

Lemma lower_alnum_lower c : lower_alnum c = true -> lower_ascii c = c.
Proof. each_char c; (reflexivity || discriminate). Qed.

Lemma lower_alnum_colon c : lower_alnum c = true -> negb (Ascii.eqb c ":") = true.
Proof. each_char c; (reflexivity || discriminate). Qed.

Lemma toLowerCase_fixed s : all_chars lower_alnum s = true -> toLowerCase s = s.
Proof.
  induction s as [|c s IH]; cbn [all_chars toLowerCase]; [reflexivity|].
  rewrite andb_true_iff. intros [Hc Hs]. now rewrite lower_alnum_lower, IH.
Qed.

(** What [validateExchange] lets through. *)
Lemma validateExchange_Returned exchangeId :
  validateExchange exchangeId = Returned tt <->
  exchangeId <> ""%string
  /\ (String.length exchangeId <= MAX_EXCHANGE_ID_LENGTH)%nat
  /\ all_chars lower_alnum exchangeId = true.
Proof.
  unfold validateExchange, lower_alnum_only.
  destruct exchangeId as [|c s]; [split; [discriminate | intros []; congruence]|].
  destruct (Nat.ltb_spec MAX_EXCHANGE_ID_LENGTH (String.length (String c s))).
  - split; [discriminate | intros (_ & H' & _); lia].
  - destruct (all_chars lower_alnum (String c s)) eqn:E; cbn [negb].
    + split; [intros _; repeat split; [discriminate | lia] | reflexivity].
    + split; [discriminate | intros (_ & _ & H'); discriminate].
Qed.

(** *** [sanitizeSymbol] *)

Lemma replace_spaces_no_space b s :
  all_chars (fun x => negb (is_space x)) (replace_spaces "/" b s) = true.
Proof.
  revert b. induction s as [|c s IH]; intros b; cbn [replace_spaces all_chars]; [reflexivity|].
  destruct (is_space c) eqn:E.
  - destruct b; [apply IH|]. cbn [all_chars]. now rewrite IH.
  - cbn [all_chars]. now rewrite E, IH.
Qed.

Lemma replace_spaces_upper b s :
  all_chars (fun x => Ascii.eqb (upper_ascii x) x) s = true ->
  all_chars (fun x => Ascii.eqb (upper_ascii x) x) (replace_spaces "/" b s) = true.
Proof.
  revert b. induction s as [|c s IH]; intros b; cbn [replace_spaces all_chars]; [reflexivity|].
  rewrite andb_true_iff. intros [Hc Hs].
  destruct (is_space c); [destruct b|]; cbn [all_chars]; rewrite ?Hc, ?IH; auto.
Qed.

Lemma toUpperCase_upper s :
  all_chars (fun x => Ascii.eqb (upper_ascii x) x) (toUpperCase s) = true.
Proof.
  induction s as [|c s IH]; cbn [toUpperCase all_chars]; [reflexivity|].
  now rewrite upper_ascii_idem, Ascii.eqb_refl, IH.
Qed.

Lemma replace_char_normal s :
  all_chars (fun x => Ascii.eqb (upper_ascii x) x) s = true ->
  all_chars (fun x => negb (is_space x)) s = true ->
  all_chars normal_char (replace_char ":" "/" s) = true.
Proof.
  induction s as [|c s IH]; cbn [replace_char all_chars]; [reflexivity|].
  rewrite !andb_true_iff. intros [Hc Hs] [Hc' Hs']. split; [|auto].
  unfold normal_char. destruct (Ascii.eqb_spec c ":") as [->|Hne]; [reflexivity|].
  rewrite Hc, Hc'. cbn [andb]. apply negb_true_iff. now apply Ascii.eqb_neq.
Qed.

Lemma trimStart_no_space s :
  all_chars (fun x => negb (is_space x)) s = true -> trimStart s = s.
Proof.
  destruct s as [|c s]; cbn [all_chars trimStart]; [reflexivity|].
  rewrite andb_true_iff. intros [Hc _]. apply negb_true_iff in Hc. now rewrite Hc.
Qed.

Lemma trimEnd_no_space s :
  all_chars (fun x => negb (is_space x)) s = true -> trimEnd s = s.
Proof.
  induction s as [|c s IH]; cbn [all_chars trimEnd]; [reflexivity|].
  rewrite andb_true_iff. intros [Hc Hs]. rewrite (IH Hs).
  apply negb_true_iff in Hc. rewrite Hc. now destruct s.
Qed.

Lemma trim_no_space s :
  all_chars (fun x => negb (is_space x)) s = true -> trim s = s.
Proof.
  intros H. unfold trim. now rewrite trimStart_no_space, trimEnd_no_space.
Qed.

Lemma replace_char_no_space s :
  all_chars (fun x => negb (is_space x)) s = true ->
  all_chars (fun x => negb (is_space x)) (replace_char ":" "/" s) = true.
Proof.
  induction s as [|c s IH]; cbn [replace_char all_chars]; [reflexivity|].
  rewrite !andb_true_iff. intros [Hc Hs]. split; [|auto].
  now destruct (Ascii.eqb c ":").
Qed.

(** The final [trim] of [sanitizeSymbol] finds nothing to remove. *)
Lemma sanitizeSymbol_untrimmed symbol :
  sanitizeSymbol symbol
  = replace_char ":" "/" (replace_spaces "/" false (toUpperCase symbol)).
Proof.
  unfold sanitizeSymbol. apply trim_no_space, replace_char_no_space, replace_spaces_no_space.
Qed.

Lemma sanitizeSymbol_normal symbol : all_chars normal_char (sanitizeSymbol symbol) = true.
Proof.
  rewrite sanitizeSymbol_untrimmed. apply replace_char_normal.
  - apply replace_spaces_upper, toUpperCase_upper.
  - apply replace_spaces_no_space.
Qed.

Lemma normal_fixed s : all_chars normal_char s = true -> sanitizeSymbol s = s.
Proof.
  intros H. rewrite sanitizeSymbol_untrimmed.
  induction s as [|c s IH]; [reflexivity|]. cbn [all_chars] in H.
  apply andb_true_iff in H as [Hc Hs]. unfold normal_char in Hc.
  apply andb_true_iff in Hc as [Hc Hcolon]. apply andb_true_iff in Hc as [Hup Hsp].
  apply Ascii.eqb_eq in Hup. apply negb_true_iff in Hsp, Hcolon.
  cbn [toUpperCase replace_spaces]. rewrite Hup, Hsp. cbn [replace_char].
  rewrite Hcolon, IH by exact Hs. reflexivity.
Qed.

Lemma replace_spaces_length b s :
  (String.length (replace_spaces "/" b s) <= String.length s)%nat.
Proof.
  revert b. induction s as [|c s IH]; intros b; cbn [replace_spaces String.length]; [lia|].
  destruct (is_space c); [destruct b|]; cbn [String.length];
    [specialize (IH true) | specialize (IH true) | specialize (IH false)]; lia.
Qed.

Lemma replace_char_length c n s : String.length (replace_char c n s) = String.length s.
Proof. induction s as [|x s IH]; cbn [replace_char String.length]; congruence. Qed.

Lemma toUpperCase_length s : String.length (toUpperCase s) = String.length s.
Proof. induction s as [|x s IH]; cbn [toUpperCase String.length]; congruence. Qed.

Lemma sanitizeSymbol_length symbol :
  (String.length (sanitizeSymbol symbol) <= String.length symbol)%nat.
Proof.
  rewrite sanitizeSymbol_untrimmed, replace_char_length.
  etransitivity; [apply replace_spaces_length|]. now rewrite toUpperCase_length.
Qed.

Lemma sanitizeSymbol_nonempty symbol :
  symbol <> ""%string -> sanitizeSymbol symbol <> ""%string.
Proof.
  rewrite sanitizeSymbol_untrimmed. destruct symbol as [|c s]; [congruence|]. intros _.
  cbn [toUpperCase replace_spaces]. destruct (is_space (upper_ascii c)); discriminate.
Qed.

Lemma validateSymbol_Returned symbol s :
  validateSymbol symbol = Returned s ->
  s = sanitizeSymbol symbol
  /\ symbol <> ""%string
  /\ (String.length symbol <= MAX_SYMBOL_LENGTH)%nat
  /\ (includes s "/" || includes s "-" || includes s "_") = true.
Proof.
  unfold validateSymbol. destruct symbol as [|c r]; [discriminate|].
  destruct (Nat.ltb_spec MAX_SYMBOL_LENGTH (String.length (String c r))); [discriminate|].
  destruct (includes (sanitizeSymbol (String c r)) "/") eqn:E1;
    destruct (includes (sanitizeSymbol (String c r)) "-") eqn:E2;
    destruct (includes (sanitizeSymbol (String c r)) "_") eqn:E3; cbn [negb andb orb];
    intros [= <-]; rewrite ?E1, ?E2, ?E3;
    repeat split; (discriminate || lia || reflexivity).
Qed.


(** *** Cache keys *)

Lemma colon_split a b r1 r2 :
  free_of ":" a -> free_of ":" b ->
  a +:+ String ":" r1 = b +:+ String ":" r2 -> a = b /\ r1 = r2.
Proof.
  unfold free_of. revert b. induction a as [|x a IH]; intros [|y b]; cbn [all_chars];
    rewrite ?andb_true_iff.
  - intros _ _. cbn. intros [= ->]. auto.
  - intros _ [Hy _]. cbn. intros [= <- _]. discriminate.
  - intros [Hx _] _. cbn. intros [= -> _]. discriminate.
  - intros [_ Ha] [_ Hb]. cbn. intros [= -> H]. destruct (IH b Ha Hb H) as [-> ->]. auto.
Qed.

Lemma colon_in a r : free_of ":" (a +:+ String ":" r) -> False.
Proof.
  unfold free_of. rewrite all_chars_app. cbn [all_chars]. rewrite Ascii.eqb_refl.
  cbn [negb andb]. rewrite andb_false_r. discriminate.
Qed.

Lemma getKey_eq exchange symbol extra :
  getKey exchange symbol extra
  = exchange +:+ String ":"
      match extra with
      | Some (String c x) => symbol +:+ String ":" (String c x)
      | _ => symbol
      end.
Proof. unfold getKey. destruct extra as [[|c x]|]; reflexivity. Qed.

(** [getKey] tells venues, symbols and extras apart as long as neither a
    venue nor a symbol holds a colon. *)
Lemma getKey_inj e1 e2 s1 s2 x1 x2 :
  free_of ":" e1 -> free_of ":" e2 -> free_of ":" s1 -> free_of ":" s2 ->
  getKey e1 s1 x1 = getKey e2 s2 x2 ->
  e1 = e2 /\ s1 = s2 /\ (x1 = x2 \/ (no_extra x1 /\ no_extra x2)).
Proof.
  intros He1 He2 Hs1 Hs2. rewrite !getKey_eq. intros H.
  apply colon_split in H as [-> H]; [|assumption..]. split; [reflexivity|].
  unfold no_extra.
  destruct x1 as [[|c1 x1]|], x2 as [[|c2 x2]|]; subst;
    try (split; [reflexivity|]; auto; fail);
    try (exfalso; eapply colon_in; eassumption);
    try (apply colon_split in H as [-> [= -> ->]]; auto).
Qed.

Lemma free_of_lower_alnum s : all_chars lower_alnum s = true -> free_of ":" s.
Proof. apply all_chars_impl. intros c. apply lower_alnum_colon. Qed.

Lemma free_of_normal s : all_chars normal_char s = true -> free_of ":" s.
Proof.
  apply all_chars_impl. intros c. unfold normal_char. rewrite !andb_true_iff. tauto.
Qed.

Lemma no_space_normal s : all_chars normal_char s = true -> no_space s.
Proof.
  apply all_chars_impl. intros c. unfold normal_char. rewrite !andb_true_iff. tauto.
Qed.

(** X12: a symbol that [validateSymbol] returns is in normal form: no
    colon and no white space is left in it (so the final [trim] of
    [sanitizeSymbol] has nothing to remove), it is no longer than the
    input, and validating it again returns it unchanged. *)
Theorem validateSymbol_normal_form symbol s :
  ascii_only symbol ->
  validateSymbol symbol = Returned s ->
  free_of ":" s /\ no_space s
  /\ (String.length s <= String.length symbol)%nat
  /\ validateSymbol s = Returned s.
Proof.
  intros _ H. apply validateSymbol_Returned in H as (-> & Hne & Hlen & Hsep).
  pose proof (sanitizeSymbol_normal symbol) as Hn.
  pose proof (sanitizeSymbol_length symbol) as Hl.
  pose proof (sanitizeSymbol_nonempty symbol Hne) as Hne'.
  split; [now apply free_of_normal|]. split; [now apply no_space_normal|].
  split; [exact Hl|].
  unfold validateSymbol. destruct (sanitizeSymbol symbol) as [|c r] eqn:E; [congruence|].
  destruct (Nat.ltb_spec MAX_SYMBOL_LENGTH (String.length (String c r))) as [Hlt|_]; [lia|].
  rewrite (normal_fixed _ Hn).
  destruct (includes (String c r) "/"), (includes (String c r) "-"),
    (includes (String c r) "_"); (reflexivity || discriminate).
Qed.

(** X13: two requests that pass validation share a cache key only if
    they are for the same venue, the same symbol and the same extra
    (limit or timeframe): venue ids are made of [a-z0-9] and validated
    symbols hold no colon, so that the colons of a key are its separators. *)
Theorem validated_cache_keys_distinct e1 e2 r1 r2 s1 s2 x1 x2 :
  validateExchange e1 = Returned tt -> validateExchange e2 = Returned tt ->
  ascii_only r1 -> ascii_only r2 ->
  validateSymbol r1 = Returned s1 -> validateSymbol r2 = Returned s2 ->
  getKey e1 s1 x1 = getKey e2 s2 x2 ->
  e1 = e2 /\ s1 = s2 /\ (x1 = x2 \/ (no_extra x1 /\ no_extra x2)).
Proof.
  intros He1 He2 _ _ Hs1 Hs2.
  apply validateExchange_Returned in He1 as (_ & _ & He1), He2 as (_ & _ & He2).
  apply validateSymbol_Returned in Hs1 as (-> & _), Hs2 as (-> & _).
  apply getKey_inj; auto using free_of_lower_alnum, free_of_normal, sanitizeSymbol_normal.
Qed.

(** X14: [validateLimit] returns a whole number between 1 and [max] for a
    limit it accepts, the default 100 without a limit, and lets [NaN]
    through as it is. *)
Theorem validateLimit_range (max : Z) :
  (forall q r, validateLimit (Some (Num q)) max = Returned r ->
     exists n : Z, r = Num (inject_Z n) /\ (1 <= n <= max)%Z
                   /\ inject_Z n <= q /\ q < inject_Z n + 1)
  /\ validateLimit None max = Returned (Num 100)
  /\ validateLimit (Some NaN) max = Returned NaN.
Proof.
  split; [|split; reflexivity].
  intros q r. unfold validateLimit, gtb, ltb.
  destruct (Qlt_bool q 1) eqn:E1; [discriminate|].
  destruct (Qlt_bool (inject_Z max) q) eqn:E2; [discriminate|].
  intros [= <-]. apply Qlt_bool_false in E1, E2.
  exists (Qfloor q). split; [reflexivity|]. split.
  - split.
    + rewrite <- (Qfloor_Z 1). now apply Qfloor_resp_le.
    + rewrite <- (Qfloor_Z max). now apply Qfloor_resp_le.
  - split; [apply Qfloor_le|].
    eapply Qlt_le_trans; [apply Qlt_floor|]. rewrite inject_Z_plus. apply Qle_refl.
Qed.

End ValidationFacts.

Module FormatterFacts.

Import JsNumFacts.

Section Pages.

Context {A : Type}.

Lemma inject_nat_div (a n : nat) : (0 < n)%nat ->
  inject_Z (Z.of_nat a) / inject_Z (Z.of_nat n) == Z.of_nat a # Pos.of_nat n.
Proof.
  intros Hn. unfold Qdiv, Qinv, inject_Z, Qmult, Qeq. cbn [Qnum Qden].
  destruct (Z.of_nat n) as [|p|p] eqn:E; [lia | | lia].
  cbn [Qnum Qden]. assert (Pos.of_nat n = p) as -> by lia. lia.
Qed.

Lemma Qceiling_nat_div (a n : nat) : (0 < n)%nat ->
  Qceiling (inject_Z (Z.of_nat a) / inject_Z (Z.of_nat n))
  = Z.of_nat ((a + n - 1) / n).
Proof.
  intros Hn. rewrite (Qceiling_comp _ _ (inject_nat_div a n Hn)).
  unfold Qceiling, Qfloor, Qopp. cbn [Qnum Qden].
  assert (Hp : Z.pos (Pos.of_nat n) = Z.of_nat n) by lia. rewrite Hp.
  rewrite Nat2Z.inj_div, Nat2Z.inj_sub, Nat2Z.inj_add by lia.
  change (Z.of_nat 1) with 1%Z.
  set (x := Z.of_nat a). set (y := Z.of_nat n). assert (0 < y)%Z by lia.
  assert (0 <= x)%Z by lia. clearbody x y.
  (* -((-x) / y) = (x + y - 1) / y *)
  apply Z.div_unique with (r := ((x + y - 1) - y * (- (- x / y)))%Z); [|lia].
  left. pose proof (Z.div_mod (-x) y ltac:(lia)) as Hdm.
  pose proof (Z.mod_pos_bound (-x) y ltac:(lia)) as Hb. nia.
Qed.

Lemma truncate_nat (k : nat) : Formatter.truncate (inject_Z (Z.of_nat k)) = Z.of_nat k.
Proof.
  unfold Formatter.truncate.
  assert (Qle_bool 0 (inject_Z (Z.of_nat k)) = true) as ->.
  { apply Qle_bool_iff. change 0 with (inject_Z 0). rewrite <- Zle_Qle. lia. }
  apply Qfloor_Z.
Qed.

Lemma slice_index_nat (len k : nat) :
  Formatter.slice_index len (inject_Z (Z.of_nat k)) = Nat.min k len.
Proof.
  unfold Formatter.slice_index. rewrite truncate_nat.
  destruct (Z.ltb_spec (Z.of_nat k) 0); [lia|]. now rewrite Nat2Z.id.
Qed.

(** A slice between whole indices. *)
Lemma slice_nat (items : list A) (i j : nat) : (i <= j)%nat ->
  Formatter.slice items (inject_Z (Z.of_nat i)) (inject_Z (Z.of_nat j))
  = firstn (j - i) (skipn i items).
Proof.
  intros Hij. unfold Formatter.slice. rewrite !slice_index_nat.
  destruct (Nat.le_gt_cases i (length items)) as [Hi|Hi].
  - rewrite (Nat.min_l i) by lia.
    destruct (Nat.le_gt_cases j (length items)) as [Hj|Hj].
    + now rewrite (Nat.min_l j) by lia.
    + rewrite (Nat.min_r j) by lia.
      rewrite !firstn_all2; [reflexivity | |]; rewrite length_skipn; lia.
  - rewrite !Nat.min_r by lia. rewrite !skipn_all2 by lia. now rewrite !firstn_nil.
Qed.

Lemma page_bounds (p n : nat) :
  (inject_Z (Z.of_nat p) - 1) * inject_Z (Z.of_nat n) == inject_Z (Z.of_nat ((p - 1) * n))
  \/ p = 0%nat.
Proof.
  destruct p as [|p]; [now right|]. left.
  rewrite Nat2Z.inj_mul, inject_Z_mult. replace (S p - 1)%nat with p by lia.
  rewrite Nat2Z.inj_succ. unfold Z.succ. rewrite inject_Z_plus.
  change (inject_Z 1) with 1. ring.
Qed.


Lemma truncate_comp x y : x == y -> Formatter.truncate x = Formatter.truncate y.
Proof.
  intros H. unfold Formatter.truncate.
  assert (Qle_bool 0 x = Qle_bool 0 y) as ->.
  { destruct (Qle_bool 0 y) eqn:E.
    - apply Qle_bool_iff. apply Qle_bool_iff in E. now rewrite H.
    - apply not_true_is_false. intros E'. apply Qle_bool_iff in E'. rewrite H in E'.
      apply Qle_bool_iff in E'. congruence. }
  now rewrite (Qfloor_comp _ _ H), (Qceiling_comp _ _ H).
Qed.

Lemma slice_comp (items : list A) x x' y y' :
  x == x' -> y == y' -> Formatter.slice items x y = Formatter.slice items x' y'.
Proof.
  intros Hx Hy. unfold Formatter.slice, Formatter.slice_index.
  now rewrite (truncate_comp _ _ Hx), (truncate_comp _ _ Hy).
Qed.

Lemma Qlt_bool_nat (a b : nat) :
  Qlt_bool (inject_Z (Z.of_nat a)) (inject_Z (Z.of_nat b)) = (a <? b)%nat.
Proof.
  destruct (Nat.ltb_spec a b) as [H|H].
  - apply Qlt_bool_iff. rewrite <- Zlt_Qlt. lia.
  - apply Qlt_bool_false. rewrite <- Zle_Qle. lia.
Qed.

Lemma firstn_plus (n m : nat) : forall l : list A,
  firstn (n + m) l = firstn n l ++ firstn m (skipn n l).
Proof.
  induction n as [|n IH]; intros l; [reflexivity|].
  destruct l as [|x l]; cbn [Nat.add firstn skipn app]; [now rewrite firstn_nil|].
  now rewrite IH.
Qed.

(** The pages of [n] items each. *)
Lemma chunks_from (n : nat) (items : list A) :
  forall (k a : nat),
    concat (map (fun p => firstn n (skipn (p * n) items)) (seq a k))
    = firstn (k * n) (skipn (a * n) items).
Proof.
  induction k as [|k IH]; intros a; [reflexivity|].
  cbn [seq map concat]. rewrite IH. cbn [Nat.mul].
  rewrite firstn_plus, skipn_skipn. now rewrite (Nat.add_comm n (a * n)).
Qed.

Lemma chunks_concat (n k : nat) (items : list A) :
  (length items <= k * n)%nat ->
  concat (map (fun p => firstn n (skipn ((p - 1) * n) items)) (seq 1 k)) = items.
Proof.
  intros Hlen. rewrite <- seq_shift, map_map.
  rewrite (map_ext _ (fun p => firstn n (skipn (p * n) items)))
    by (intros p; now replace (S p - 1)%nat with p by lia).
  rewrite chunks_from. cbn [Nat.mul skipn]. now apply firstn_all2.
Qed.

Lemma pages_cover (len n : nat) : (0 < n)%nat -> (len <= (len + n - 1) / n * n)%nat.
Proof.
  intros Hn. pose proof (Nat.div_mod (len + n - 1) n ltac:(lia)) as Hdm.
  pose proof (Nat.mod_upper_bound (len + n - 1) n ltac:(lia)) as Hb. nia.
Qed.

Lemma paginated_page (items : list A) (n p : nat) exchange rateLimit now :
  (0 < n)%nat -> (1 <= p)%nat ->
  exists r,
    Formatter.paginated items (inject_Z (Z.of_nat p)) (inject_Z (Z.of_nat n))
                        exchange rateLimit now = Returned r
    /\ Formatter.data r = firstn n (skipn ((p - 1) * n) items)
    /\ Formatter.totalPages (Formatter.pagination r)
       = Z.of_nat ((length items + n - 1) / n)
    /\ Formatter.hasNext (Formatter.pagination r) = (p <? (length items + n - 1) / n)%nat
    /\ Formatter.hasPrevious (Formatter.pagination r) = (1 <? p)%nat.
Proof.
  intros Hn Hp. unfold Formatter.paginated.
  assert (Qle_bool (inject_Z (Z.of_nat n)) 0 = false) as ->.
  { apply Qle_bool_false. change 0 with (inject_Z 0). rewrite <- Zlt_Qlt. lia. }
  assert (Qlt_bool (inject_Z (Z.of_nat p)) 1 = false) as ->.
  { apply Qlt_bool_false. change 1 with (inject_Z 1). rewrite <- Zle_Qle. lia. }
  eexists. split; [reflexivity|]. cbn [Formatter.data Formatter.pagination
    Formatter.totalPages Formatter.hasNext Formatter.hasPrevious].
  rewrite Qceiling_nat_div by exact Hn. split; [|split; [reflexivity|split]].
  - destruct (page_bounds p n) as [Hs|Hz]; [|lia].
    rewrite (slice_comp items _ (inject_Z (Z.of_nat ((p - 1) * n)))
               _ (inject_Z (Z.of_nat ((p - 1) * n + n)))).
    + rewrite slice_nat by lia. f_equal. lia.
    + exact Hs.
    + rewrite Hs, Nat2Z.inj_add, inject_Z_plus. reflexivity.
  - apply Qlt_bool_nat.
  - change 1 with (inject_Z (Z.of_nat 1)). apply Qlt_bool_nat.
Qed.

(** X15: [paginated] with a whole page size [n > 0] and whole page
    numbers: page [p] shows the items from [(p-1)*n] on, [n] of them or
    what is left; there are [ceil(length / n)] pages; [hasNext] says
    whether [p] is before the last of them; laid end to end the pages are
    the list of items; a page after the last is empty, not an error. *)
Theorem paginated_pages (items : list A) (n : nat) exchange rateLimit now :
  (0 < n)%nat ->
  let pageSize := inject_Z (Z.of_nat n) in
  let pages := ((length items + n - 1) / n)%nat in
  (forall p : nat, (1 <= p)%nat ->
     exists r,
       Formatter.paginated items (inject_Z (Z.of_nat p)) pageSize exchange rateLimit now
       = Returned r
       /\ Formatter.data r = firstn n (skipn ((p - 1) * n) items)
       /\ Formatter.totalPages (Formatter.pagination r) = Z.of_nat pages
       /\ Formatter.hasNext (Formatter.pagination r) = (p <? pages)%nat
       /\ Formatter.hasPrevious (Formatter.pagination r) = (1 <? p)%nat)
  /\ concat (map (fun p => Formatter.page_items items (inject_Z (Z.of_nat p)) pageSize)
                 (seq 1 pages)) = items
  /\ (forall p : nat, (pages < p)%nat ->
        Formatter.page_items items (inject_Z (Z.of_nat p)) pageSize = []).
Proof.
  intros Hn pageSize pages.
  assert (Hitems : forall p, (1 <= p)%nat ->
            Formatter.page_items items (inject_Z (Z.of_nat p)) pageSize
            = firstn n (skipn ((p - 1) * n) items)).
  { intros p Hp. unfold Formatter.page_items, pageSize.
    destruct (paginated_page items n p "" None 0 Hn Hp) as (r & -> & Hd & _). exact Hd. }
  split; [|split].
  - intros p Hp. now apply paginated_page.
  - rewrite (map_ext_in _ (fun p => firstn n (skipn ((p - 1) * n) items))).
    + apply chunks_concat. now apply pages_cover.
    + intros p Hin. apply in_seq in Hin. apply Hitems. lia.
  - intros p Hp. rewrite Hitems by lia.
    rewrite skipn_all2; [apply firstn_nil|].
    pose proof (pages_cover (length items) n Hn). fold pages in H. nia.
Qed.

End Pages.

End FormatterFacts.

(** * The risk manager *)

Module RiskFacts.

Import JsNumFacts.

Lemma div_Num (x y : Q) : ~ y == 0 -> (Num x / Num y)%js = Num (x / y).
Proof.
  intros Hy. unfold div. destruct (Qeq_bool y 0) eqn:E; [|reflexivity].
  apply Qeq_bool_iff in E. contradiction.
Qed.

Lemma gtb_Num (x y : Q) : (Num x >? Num y)%js = Qlt_bool y x.
Proof. reflexivity. Qed.

Lemma ltb_Num (x y : Q) : (Num x <? Num y)%js = Qlt_bool x y.
Proof. reflexivity. Qed.

Lemma leb_Num (x y : Q) : (Num x <=? Num y)%js = Qle_bool x y.
Proof. reflexivity. Qed.

Lemma Qlt_bool_true x y : x < y -> Qlt_bool x y = true.
Proof. apply Qlt_bool_iff. Qed.

Lemma Qlt_bool_ge x y : y <= x -> Qlt_bool x y = false.
Proof. apply Qlt_bool_false. Qed.

Lemma Qle_bool_gt x y : y < x -> Qle_bool x y = false.
Proof. apply Qle_bool_false. Qed.

(** The last three steps of the sizing: at most [maxRiskPerTrade], and
    neither negative nor above [MAX_KELLY_PERCENT]. *)
Lemma kelly_clamp (x : Q) :
  exists k,
    JsNum.max (Num 0) (JsNum.min (JsNum.min (Num x) Risk.maxRiskPerTrade)
                                 Risk.MAX_KELLY_PERCENT) = Num k
    /\ 0 <= k /\ k <= 0.02.
Proof.
  unfold Risk.maxRiskPerTrade, Risk.MAX_KELLY_PERCENT, JsNum.max, JsNum.min. cbn [lift2].
  eexists. split; [reflexivity|].
  destruct (Qle_bool x 0.02) eqn:E1.
  - apply Qle_bool_iff in E1.
    destruct (Qle_bool x 0.25) eqn:E2; [|apply Qle_bool_false in E2; lra].
    destruct (Qle_bool 0 x) eqn:E3;
      [apply Qle_bool_iff in E3 | apply Qle_bool_false in E3]; lra.
  - assert (Qle_bool 0.02 0.25 = true) as -> by reflexivity.
    assert (Qle_bool 0 0.02 = true) as -> by reflexivity. lra.
Qed.

(** X23: [calculatePositionSize] never commits more than 2% of the
    account.  For a positive balance and entry price, a win rate between 0
    and 100, averages that are not negative, an average win that is
    between a millionth and a million times the average loss if there is
    one (so that their ratio is neither zero nor an infinity, nor the
    Kelly fraction [NaN]) and a volatility that is not negative: the call
    returns a size whose share of the capital [k] is between 0 and
    [maxRiskPerTrade] = 2%, with [value = balance * k],
    [amount = value / entryPrice] and [riskAmount = value *
    stopLossPercent]. *)
Theorem calculatePositionSize_capped (balance entry winRate avgWin avgLoss : Q)
    (volatility stopLossPercent takeProfitRatio : option Q) :
  0 < balance -> 0 < entry ->
  0 <= winRate -> winRate <= 100 ->
  0 <= avgWin -> 0 <= avgLoss ->
  (0 < avgLoss -> avgLoss <= 1000000 * avgWin /\ avgWin <= 1000000 * avgLoss) ->
  0 <= default 0.02 volatility ->
  exists ps k,
    Risk.calculatePositionSize (Num balance) (Num entry) (Num winRate) (Num avgWin)
      (Num avgLoss) (option_map Num volatility) (option_map Num stopLossPercent)
      (option_map Num takeProfitRatio)
    = Returned ps
    /\ 0 <= k /\ k <= 0.02
    /\ Risk.PositionSize.percentOfCapital ps = Num (k * 100)
    /\ Risk.PositionSize.value ps = Num (balance * k)
    /\ Risk.PositionSize.amount ps = Num (balance * k / entry)
    /\ Risk.PositionSize.riskAmount ps
       = Num (balance * k * default 0.02 stopLossPercent)
    /\ Risk.PositionSize.stopLoss ps = Num (entry * (1 - default 0.02 stopLossPercent))
    /\ Risk.PositionSize.takeProfit ps
       = Num (entry * (1 + default 0.02 stopLossPercent * default 2 takeProfitRatio)).
Proof.
  intros Hbal Hent Hw0 Hw1 Haw Hal Hratio Hvol0.
  assert (Hwin : 0 < avgLoss -> 0 < avgWin) by (intros H; destruct (Hratio H); lra).
  assert (Hvol : ~ 1 + default 0.02 volatility * 10 == 0) by lra.
  unfold Risk.calculatePositionSize.
  assert (Hv : default (Num 0.02) (option_map Num volatility)
               = Num (default 0.02 volatility)) by now destruct volatility.
  assert (Hs : default (Num 0.02) (option_map Num stopLossPercent)
               = Num (default 0.02 stopLossPercent)) by now destruct stopLossPercent.
  assert (Ht : default (Num 2) (option_map Num takeProfitRatio)
               = Num (default 2 takeProfitRatio)) by now destruct takeProfitRatio.
  rewrite Hv, Hs, Ht.
  set (v := default 0.02 volatility) in *. set (sl := default 0.02 stopLossPercent).
  set (tp := default 2 takeProfitRatio).
  rewrite !leb_Num, !ltb_Num, !gtb_Num. cbn [Risk.isFinite negb].
  rewrite (Qle_bool_gt balance 0 Hbal), (Qle_bool_gt entry 0 Hent).
  rewrite (Qlt_bool_ge winRate 0 Hw0), (Qlt_bool_ge 100 winRate Hw1).
  rewrite (Qlt_bool_ge avgLoss 0 Hal), (Qlt_bool_ge avgWin 0 Haw).
  cbn [orb].
  assert (Hkelly : exists x,
            ((if Qlt_bool 0 avgLoss
              then ((Num winRate / Num 100
                     * (if Qlt_bool 0 avgLoss then Num avgWin / Num avgLoss
                        else if Qlt_bool 0 avgWin then Risk.MAX_PROFIT_LOSS_RATIO
                             else Num 1)
                     - (Num 1 - Num winRate / Num 100))
                    / (if Qlt_bool 0 avgLoss then Num avgWin / Num avgLoss
                       else if Qlt_bool 0 avgWin then Risk.MAX_PROFIT_LOSS_RATIO
                            else Num 1))
              else Num 0)
             / (Num 1 + Num v * Num 10) / Risk.FRACTIONAL_KELLY_DIVISOR)%js = Num x).
  { unfold Risk.FRACTIONAL_KELLY_DIVISOR.
    destruct (Qlt_bool 0 avgLoss) eqn:El.
    - apply Qlt_bool_iff in El. specialize (Hwin El).
      rewrite (div_Num winRate 100) by (intros E; discriminate E).
      rewrite (div_Num avgWin avgLoss) by lra.
      cbn [mul sub lift2].
      assert (Hb : ~ avgWin / avgLoss == 0).
      { intros E. assert (0 < avgWin / avgLoss) by (apply Qlt_shift_div_l; lra). lra. }
      rewrite div_Num by exact Hb. cbn [add mul lift2].
      rewrite div_Num by exact Hvol. rewrite div_Num by (intros E; discriminate E).
      eauto.
    - cbn [add mul lift2]. rewrite div_Num by exact Hvol.
      rewrite div_Num by (intros E; discriminate E). eauto. }
  destruct Hkelly as [x ->].
  destruct (kelly_clamp x) as (k & -> & Hk0 & Hk1).
  eexists _, k. split; [reflexivity|]. split; [exact Hk0|]. split; [exact Hk1|].
  cbn [Risk.PositionSize.percentOfCapital Risk.PositionSize.value
       Risk.PositionSize.amount Risk.PositionSize.riskAmount
       Risk.PositionSize.stopLoss Risk.PositionSize.takeProfit mul add sub lift2].
  rewrite div_Num by lra. repeat split; reflexivity.
Qed.

(** X24: a dynamic stop is never on the winning side of the entry price,
    and the target derived from it never on the losing side: for a buy
    the stop is at or below the entry and the target at or above it, for a
    sell the other way round (for a positive [atr * multiplier] and ratio;
    the defaults are 2 and 2, and a buy).  The distances are left out:
    the target is [riskRewardRatio] times as far from the entry as the
    stop up to rounding only, and both can coincide with an entry price
    that is large enough. *)
Theorem dynamic_stop_and_target (entry atr : Q) (multiplier ratio : option Q)
    (side : option Risk.Side) :
  0 < atr * default 2 multiplier -> 0 < default 2 ratio ->
  let stop :=
    Risk.calculateDynamicStopLoss (Num entry) (Num atr) (option_map Num multiplier) side in
  let target :=
    Risk.calculateDynamicTakeProfit (Num entry) stop (option_map Num ratio) side in
  exists s t,
    stop = Num s /\ target = Num t
    /\ match default Risk.buy side with
       | Risk.buy => s <= entry /\ entry <= t
       | Risk.sell => t <= entry /\ entry <= s
       end.
Proof.
  intros Hd Hr. cbv zeta.
  unfold Risk.calculateDynamicStopLoss, Risk.calculateDynamicTakeProfit.
  assert (Hm : default (Num 2) (option_map Num multiplier) = Num (default 2 multiplier))
    by now destruct multiplier.
  assert (Hq : default (Num 2) (option_map Num ratio) = Num (default 2 ratio))
    by now destruct ratio.
  rewrite Hm, Hq. set (m := default 2 multiplier) in *. set (r := default 2 ratio) in *.
  destruct (default Risk.buy side); cbn [sub add mul lift2 Risk.abs];
    eexists _, _; (split; [reflexivity|]); (split; [reflexivity|]).
  - assert (Ha : Qabs (entry - (entry - atr * m)) == atr * m).
    { rewrite Qabs_pos; [ring | ring_simplify; lra]. }
    split; [lra|]. rewrite Ha. nra.
  - assert (Ha : Qabs (entry - (entry + atr * m)) == atr * m).
    { rewrite Qabs_neg; [ring | ring_simplify; lra]. }
    split; [rewrite Ha; nra | lra].
Qed.

(** *** Performance *)

Lemma filter_disjoint {A : Type} (p q : A -> bool) (l : list A) :
  (forall x, p x && q x = false) ->
  (length (List.filter p l) + length (List.filter q l) <= length l)%nat.
Proof.
  intros Hpq. induction l as [|x l IH]; cbn [List.filter length]; [lia|].
  specialize (Hpq x). destruct (p x), (q x); cbn [length] in *; (discriminate || lia).
Qed.

(** A sum of profits that are all gains ([sign = 1]) or all losses
    ([sign = -1]). *)
Lemma sum_of_signed (sign : Q) (l : list Risk.Trade.t) :
  Forall (fun t => exists p, Risk.profit_of t = Num p /\ 0 < sign * p) l ->
  forall acc,
    exists s, fold_left (fun sum t => (sum + Risk.profit_of t)%js) l (Num acc) = Num s
              /\ sign * acc <= sign * s /\ (l <> [] -> sign * acc < sign * s).
Proof.
  induction 1 as [|t l (p & Hp & Hpos) _ IH]; intros acc; cbn [fold_left].
  - exists acc. split; [reflexivity|]. split; [lra | congruence].
  - rewrite Hp. cbn [add lift2].
    destruct (IH (acc + p)) as (s & Hs & Hs0 & _).
    exists s. split; [exact Hs|]. split; [nra|]. intros _. nra.
Qed.

Lemma count_pos {A : Type} (l : list A) :
  l <> [] -> 0 < inject_Z (Z.of_nat (length l)).
Proof.
  intros H. change 0 with (inject_Z 0). rewrite <- Zlt_Qlt.
  destruct l; [congruence | cbn [length]; lia].
Qed.

Lemma match_nonempty {A B : Type} (l : list A) (a b : B) :
  l <> [] -> match l with [] => a | _ :: _ => b end = b.
Proof. destruct l; [congruence | reflexivity]. Qed.

Lemma length_pos_ne {A : Type} (l : list A) : (0 <? length l)%nat = true -> l <> [].
Proof. destruct l; [discriminate | discriminate]. Qed.

(** [calculateKellyPercent] is a percentage between 0 and 25. *)
Lemma calculateKellyPercent_range (w r : Q) :
  exists k, Risk.calculateKellyPercent (Num w) (Num r) = Num k /\ 0 <= k /\ k <= 25.
Proof.
  unfold Risk.calculateKellyPercent, Risk.is_zero.
  destruct (Qeq_bool r 0) eqn:E; [exists 0; split; [reflexivity | lra]|].
  assert (Hr : ~ r == 0) by (intros H; apply Qeq_bool_iff in H; congruence).
  cbn [mul sub lift2]. rewrite div_Num by exact Hr.
  unfold Risk.FRACTIONAL_KELLY_DIVISOR, Risk.MAX_KELLY_PERCENT.
  rewrite div_Num by (intros H; discriminate H).
  unfold JsNum.max, JsNum.min. cbn [lift2 mul].
  set (x := (w * r - (1 - w)) / r / 4). clearbody x.
  eexists. split; [reflexivity|].
  destruct (Qle_bool x 0.25) eqn:E1;
    [apply Qle_bool_iff in E1 | apply Qle_bool_false in E1].
  - destruct (Qle_bool 0 x) eqn:E2;
      [apply Qle_bool_iff in E2 | apply Qle_bool_false in E2]; lra.
  - assert (Qle_bool 0 0.25 = true) as -> by reflexivity. lra.
Qed.

(** The running figures of [calculateMaxDrawdown] stay numbers and the
    largest drawdown is never negative. *)
Lemma drawdown_loop (trades : list Risk.Trade.t) :
  Forall Risk.numeric_profit trades ->
  forall peak dd bal : Q, 0 <= dd ->
    exists peak' dd' bal',
      fold_left
        (fun '(peak, maxDrawdown, runningBalance) trade =>
           let runningBalance := (runningBalance + Risk.or_zero (Risk.Trade.profit trade))%js in
           let peak := if (runningBalance >? peak)%js then runningBalance else peak in
           let drawdown := (peak - runningBalance)%js in
           let drawdownPercent :=
             if (peak >? Num 0)%js then (drawdown / peak * Num 100)%js else Num 0 in
           let maxDrawdown :=
             if (drawdownPercent >? maxDrawdown)%js then drawdownPercent
             else maxDrawdown in
           (peak, maxDrawdown, runningBalance))
        trades (Num peak, Num dd, Num bal)
      = (Num peak', Num dd', Num bal') /\ 0 <= dd'.
Proof.
  induction 1 as [|t trades Ht _ IH]; intros peak dd bal Hdd; cbn [fold_left].
  - eauto.
  - assert (exists p, Risk.or_zero (Risk.Trade.profit t) = Num p) as [p ->].
    { unfold Risk.numeric_profit in Ht. unfold Risk.or_zero.
      destruct (Risk.Trade.profit t) as [[x|]|]; [|contradiction|eauto].
      destruct (truthy (Num x)); eauto. }
    cbn [add lift2]. rewrite gtb_Num.
    set (bal1 := bal + p).
    set (peak1 := if Qlt_bool peak bal1 then bal1 else peak).
    assert ((if Qlt_bool peak bal1 then Num bal1 else Num peak) = Num peak1) as ->
      by (unfold peak1; now destruct (Qlt_bool peak bal1)).
    cbn [sub lift2]. rewrite gtb_Num.
    destruct (Qlt_bool 0 peak1) eqn:Ep.
    + apply Qlt_bool_iff in Ep. rewrite div_Num by lra. cbn [mul lift2].
      rewrite gtb_Num.
      destruct (Qlt_bool dd ((peak1 - bal1) / peak1 * 100)) eqn:Ed.
      * apply Qlt_bool_iff in Ed. apply IH. lra.
      * apply IH. exact Hdd.
    + rewrite gtb_Num. destruct (Qlt_bool dd 0) eqn:Ed.
      * apply IH. lra.
      * apply IH. exact Hdd.
Qed.

Lemma calculateMaxDrawdown_nonneg (trades : list Risk.Trade.t) :
  Forall Risk.numeric_profit trades ->
  exists d, Risk.calculateMaxDrawdown trades = Num d /\ 0 <= d.
Proof.
  intros H. unfold Risk.calculateMaxDrawdown.
  destruct trades as [|t trades]; [exists 0; split; [reflexivity | lra]|].
  destruct (drawdown_loop (t :: trades) H 0 0 0) as (peak' & dd' & bal' & Heq & Hd); [lra|].
  exists dd'. split; [|exact Hd].
  exact (f_equal (fun x : number * number * number => let '(_, m, _) := x in m) Heq).
Qed.

Section WithSqrt.

Variable Math_sqrt : number -> number.

Lemma ordinary_numeric (t : Risk.Trade.t) :
  Risk.ordinary_profit t -> Risk.numeric_profit t.
Proof.
  unfold Risk.ordinary_profit, Risk.numeric_profit.
  destruct (Risk.Trade.profit t) as [[p|]|]; tauto.
Qed.

(** X26: [calculatePerformance] on a history with at least one completed
    trade, the profits being numbers of ordinary size (zero, or between a
    billionth and a billion either way): the counts add up (winners and
    losers are among the trades), the win rate is a percentage, the
    average win and the average loss are not negative, neither are the
    profit/loss ratio and the largest drawdown, the Kelly percentage is
    between 0 and 25, and the expectancy is
    [winRate/100 * avgWin - (1 - winRate/100) * avgLoss]. *)
Theorem calculatePerformance_in_range (trades : list Risk.Trade.t) :
  Forall Risk.ordinary_profit trades ->
  Exists (fun t => Risk.completed t = true) trades ->
  let perf := Risk.calculatePerformance Math_sqrt trades in
  exists wr aw al plr dd k,
    Risk.totalTrades perf = length trades
    /\ (Risk.winningTrades perf + Risk.losingTrades perf <= Risk.totalTrades perf)%nat
    /\ Risk.winRate perf = Num wr /\ 0 <= wr /\ wr <= 100
    /\ Risk.avgWin perf = Num aw /\ 0 <= aw
    /\ Risk.avgLoss perf = Num al /\ 0 <= al
    /\ Risk.profitLossRatio perf = Num plr /\ 0 <= plr
    /\ Risk.maxDrawdown perf = Num dd /\ 0 <= dd
    /\ Risk.kellyPercent perf = Num k /\ 0 <= k /\ k <= 25
    /\ Risk.expectancy perf = Num (wr / 100 * aw - (1 - wr / 100) * al).
Proof.
  intros Hord Hex perf.
  assert (Hnum : Forall Risk.numeric_profit trades).
  { apply List.Forall_forall. intros t Ht. rewrite List.Forall_forall in Hord.
    apply ordinary_numeric, Hord, Ht. }
  assert (Hne : trades <> []) by (intros ->; inversion Hex).
  assert (Hperf : perf = Risk.calculatePerformance Math_sqrt trades) by reflexivity.
  clearbody perf. unfold Risk.calculatePerformance in Hperf.
  rewrite match_nonempty in Hperf by exact Hne.
  set (C := List.filter
              (fun t => match Risk.Trade.profit t with Some _ => true | None => false end)
              trades) in *.
  set (Wn := List.filter (fun t => (Risk.profit_of t >? Num 0)%js) C) in *.
  set (Ls := List.filter (fun t => (Risk.profit_of t <? Num 0)%js) C) in *.
  assert (HC : C <> []).
  { apply List.Exists_exists in Hex as (t & Hin & Ht). intros E.
    assert (In t C) by (apply filter_In; split; [exact Hin | exact Ht]).
    rewrite E in H. contradiction. }
  assert (HWL : (length Wn + length Ls <= length C)%nat).
  { apply filter_disjoint. intros x. destruct (Risk.profit_of x) as [p|]; [|reflexivity].
    rewrite gtb_Num, ltb_Num.
    destruct (Qlt_bool 0 p) eqn:E1, (Qlt_bool p 0) eqn:E2; try reflexivity.
    apply Qlt_bool_iff in E1, E2. lra. }
  assert (HCl : (length C <= length trades)%nat) by apply List.filter_length_le.
  pose proof (count_pos C HC) as HCpos.
  (* the win rate *)
  set (wr := inject_Z (Z.of_nat (length Wn)) / inject_Z (Z.of_nat (length C)) * 100).
  assert (Hwr : (Risk.count Wn / Risk.count C * Num 100)%js = Num wr).
  { unfold Risk.count. rewrite div_Num by lra. reflexivity. }
  assert (Hwr0 : 0 <= wr /\ wr <= 100).
  { unfold wr.
    assert (0 <= inject_Z (Z.of_nat (length Wn)))
      by (change 0 with (inject_Z 0); rewrite <- Zle_Qle; lia).
    assert (inject_Z (Z.of_nat (length Wn)) <= inject_Z (Z.of_nat (length C)))
      by (rewrite <- Zle_Qle; lia).
    assert (0 <= inject_Z (Z.of_nat (length Wn)) / inject_Z (Z.of_nat (length C)))
      by (apply Qle_shift_div_l; lra).
    assert (inject_Z (Z.of_nat (length Wn)) / inject_Z (Z.of_nat (length C)) <= 1)
      by (apply Qle_shift_div_r; lra).
    lra. }
  (* the averages *)
  assert (Haw : exists aw,
            (if (0 <? length Wn)%nat
             then (Risk.sum_of Risk.profit_of Wn / Risk.count Wn)%js else Num 0) = Num aw
            /\ 0 <= aw).
  { destruct (0 <? length Wn)%nat eqn:E; [|exists 0; split; [reflexivity | lra]].
    apply length_pos_ne in E. pose proof (count_pos Wn E) as Hpos.
    destruct (sum_of_signed 1 Wn) with (acc := 0) as (s & Hs & _ & Hs1).
    { apply List.Forall_forall. intros t Ht. apply filter_In in Ht as [_ Ht].
      destruct (Risk.profit_of t) as [p|]; [|discriminate].
      rewrite gtb_Num in Ht. apply Qlt_bool_iff in Ht. exists p. split; [reflexivity | lra]. }
    specialize (Hs1 E). unfold Risk.sum_of, Risk.count. rewrite Hs, div_Num by lra.
    eexists. split; [reflexivity|]. apply Qle_shift_div_l; lra. }
  assert (Hal : exists al,
            (if (0 <? length Ls)%nat
             then Risk.abs (Risk.sum_of Risk.profit_of Ls / Risk.count Ls)%js else Num 0)
            = Num al /\ 0 <= al).
  { destruct (0 <? length Ls)%nat eqn:E; [|exists 0; split; [reflexivity | lra]].
    apply length_pos_ne in E. pose proof (count_pos Ls E) as Hpos.
    destruct (sum_of_signed (-1) Ls) with (acc := 0) as (s & Hs & _ & _).
    { apply List.Forall_forall. intros t Ht. apply filter_In in Ht as [_ Ht].
      destruct (Risk.profit_of t) as [p|]; [|discriminate].
      rewrite ltb_Num in Ht. apply Qlt_bool_iff in Ht. exists p. split; [reflexivity | lra]. }
    unfold Risk.sum_of, Risk.count. rewrite Hs, div_Num by lra. cbn [Risk.abs].
    eexists. split; [reflexivity|]. apply Qabs_nonneg. }
  destruct Haw as (aw & Haw & Haw0). destruct Hal as (al & Hal & Hal0).
  rewrite Hwr, Haw, Hal in Hperf.
  (* the ratio *)
  assert (Hplr : exists plr,
            (if (Num al >? Num 0)%js then (Num aw / Num al)%js
             else if (Num aw >? Num 0)%js then Risk.MAX_PROFIT_LOSS_RATIO else Num 0)
            = Num plr /\ 0 <= plr).
  { rewrite !gtb_Num. destruct (Qlt_bool 0 al) eqn:E1.
    - apply Qlt_bool_iff in E1. rewrite div_Num by lra. eexists. split; [reflexivity|].
      apply Qle_shift_div_l; lra.
    - destruct (Qlt_bool 0 aw); eexists; (split; [reflexivity|]);
        unfold Risk.MAX_PROFIT_LOSS_RATIO; lra. }
  destruct Hplr as (plr & Hplr & Hplr0). rewrite Hplr in Hperf.
  rewrite (div_Num wr 100) in Hperf by (intros E; discriminate E).
  destruct (calculateKellyPercent_range (wr / 100) plr) as (k & Hk & Hk0 & Hk1).
  rewrite Hk in Hperf.
  destruct (calculateMaxDrawdown_nonneg C) as (dd & Hdd & Hdd0).
  { apply List.Forall_forall. intros t Ht. apply filter_In in Ht as [Ht _].
    rewrite List.Forall_forall in Hnum. auto. }
  rewrite Hdd in Hperf.
  exists wr, aw, al, plr, dd, k. rewrite Hperf.
  cbn [Risk.totalTrades Risk.winningTrades Risk.losingTrades Risk.winRate Risk.avgWin
       Risk.avgLoss Risk.profitLossRatio Risk.maxDrawdown Risk.kellyPercent
       Risk.expectancy].
  destruct Hwr0. unfold Risk.calculateExpectancy. cbn [mul sub lift2].
  repeat split; try assumption; try reflexivity. lia.
Qed.

End WithSqrt.

End RiskFacts.

(** * The venue gateway *)

Module GatewayFacts.

Import LimiterFacts.

Section WithCcxt.

Context {Instance C T : Type}.
Variable Math_random : nat -> Q.
Variable ccxt_exchanges : list string.
Variable create : string -> Runtime * C -> Instance * (Runtime * C).

Abbreviation getExchange := (Gateway.getExchange ccxt_exchanges create).
Abbreviation Manager := (Gateway.ExchangeManager Instance C).

Lemma includes_prefix (sub rest : string) : includes (sub +:+ rest) sub = true.
Proof.
  assert (H : String.prefix sub (sub +:+ rest) = true).
  { induction sub as [|c sub IH]; [now destruct rest|].
    change (String c sub +:+ rest) with (String c (sub +:+ rest)).
    cbn [String.prefix]. destruct (ascii_dec c c); [exact IH | congruence]. }
  destruct (sub +:+ rest) eqn:E; cbn [includes]; rewrite H; reflexivity.
Qed.

Lemma includes_app (before s sub : string) :
  includes s sub = true -> includes (before +:+ s) sub = true.
Proof.
  intros H. induction before as [|c before IH]; [exact H|].
  change (String c before +:+ s) with (String c (before +:+ s)).
  cbn [includes]. rewrite IH. apply orb_true_r.
Qed.

(** The error for a venue ccxt does not list is one the limiter does not
    retry: its message says "not supported". *)
Lemma unsupported_not_retryable (exchangeId rest : string) :
  isNonRetryableError
    (Validation.createError Validation.TAPSErrorCode.EXCHANGE_NOT_SUPPORTED
       ("Exchange '" +:+ exchangeId +:+ "' is not supported. Available exchanges: "
        +:+ rest))
  = true.
Proof.
  assert (H : message_includes
                (Validation.createError Validation.TAPSErrorCode.EXCHANGE_NOT_SUPPORTED
                   ("Exchange '" +:+ exchangeId
                    +:+ "' is not supported. Available exchanges: " +:+ rest))
                "not supported" = true).
  { unfold message_includes, Validation.createError. cbn [message].
    apply (includes_app "Exchange '"), includes_app.
    apply (includes_app "' is " ("not supported. Available exchanges: " +:+ rest)).
    apply (includes_prefix "not supported" (". Available exchanges: " +:+ rest)). }
  unfold isNonRetryableError.
  match goal with |- (if ?b then _ else _) = _ => destruct b end; [reflexivity|].
  match goal with |- (if ?b then _ else _) = _ => destruct b end; [reflexivity|].
  rewrite H, orb_true_r. reflexivity.
Qed.

Lemma getExchange_unsupported exchangeId rt (manager : Manager) :
  existsb (String.eqb exchangeId) ccxt_exchanges = false ->
  Gateway.exchanges manager !! Gateway.getExchangeKey exchangeId = None ->
  exists e, getExchange exchangeId (rt, manager) = (Threw e, (rt, manager))
            /\ code e = Some "TAPS001" /\ isNonRetryableError e = true.
Proof.
  intros Hno Hnone. unfold Gateway.getExchange, Gateway.createExchange.
  rewrite Hnone, Hno. cbn [negb]. eexists. split; [|split].
  - destruct manager; reflexivity.
  - reflexivity.
  - apply unsupported_not_retryable.
Qed.

(** X27: a request for a venue that ccxt does not list, made through the
    limiter as [executeWithRateLimit] makes it: the operation is never
    called and no instance is made, the TAPS001 error of [createExchange]
    comes back after a single attempt, without a retry or a sleep, and
    the venue's retry count is zero again. *)
Theorem unsupported_venue_not_retried (exchangeId : string)
    (operation : Instance -> Runtime * Manager -> Completion T * (Runtime * Manager))
    (context : option string) (lim : LimiterState) (rt : Runtime) (manager : Manager) :
  existsb (String.eqb exchangeId) ccxt_exchanges = false ->
  Gateway.exchanges manager !! Gateway.getExchangeKey exchangeId = None ->
  retry_count exchangeId lim = 0%nat ->
  exists e lim',
    executeWithBackoff Math_random exchangeId
      (Gateway.with_exchange ccxt_exchanges create exchangeId operation) context lim
      (rt, manager)
    = (Threw e, lim', (rt, manager))
    /\ code e = Some "TAPS001"
    /\ trace lim' = trace lim ++ [EvAttempt exchangeId]
    /\ retry_count exchangeId lim' = 0%nat.
Proof.
  intros Hno Hnone Hrc.
  destruct (getExchange_unsupported exchangeId rt manager Hno Hnone) as (e & He & Hcode & Hnr).
  assert (Hat : at_call Math_random exchangeId lim rt
                = (rt, trace lim ++ [EvAttempt exchangeId])).
  { unfold at_call. rewrite Hrc. reflexivity. }
  assert (Hop : Gateway.with_exchange ccxt_exchanges create exchangeId operation
                  (fst (at_call Math_random exchangeId lim rt), manager)
                = (Threw e, (rt, manager))).
  { rewrite Hat. cbn [fst]. unfold Gateway.with_exchange. rewrite He. reflexivity. }
  rewrite executeWithBackoff_unfold.
  rewrite (body_Threw _ _ _ _ _ _ _ _ _ _ _ Hop). cbv zeta.
  rewrite Hrc, Hnr. cbn [Nat.ltb Nat.leb maxRetries].
  eexists _, _. split; [reflexivity|]. split; [exact Hcode|]. split.
  - cbn [trace]. now rewrite Hat.
  - apply retry_count_reset_failed.
Qed.

(** X28: once [getExchange] has handed out the instance of a venue, every
    later call for that venue returns the same instance and makes none,
    whatever venues were asked for in between. *)
Theorem getExchange_instance_kept (exchangeId : string) (others : list string)
    (env env1 : Runtime * Manager) (exchange : Instance) :
  getExchange exchangeId env = (Returned exchange, env1) ->
  let env2 := fold_left (fun env other => snd (getExchange other env)) others env1 in
  getExchange exchangeId env2 = (Returned exchange, env2).
Proof.
  intros Hget.
  assert (Hkept : forall other env' ,
             Gateway.exchanges (snd env') !! Gateway.getExchangeKey exchangeId = Some exchange ->
             Gateway.exchanges (snd (snd (getExchange other env')))
               !! Gateway.getExchangeKey exchangeId = Some exchange).
  { intros other [rt' m'] Hin. unfold Gateway.getExchange. cbn [snd] in *.
    destruct (Gateway.exchanges m' !! Gateway.getExchangeKey other) eqn:E; [exact Hin|].
    destruct (Gateway.createExchange ccxt_exchanges create other (rt', Gateway.ccxt m'))
      as [[ex|e] [rt'' c]]; cbn [snd Gateway.exchanges]; [|exact Hin].
    destruct (decide (Gateway.getExchangeKey other = Gateway.getExchangeKey exchangeId))
      as [Heq|Hne].
    - rewrite Heq in E. congruence.
    - now rewrite lookup_insert_ne. }
  assert (H1 : Gateway.exchanges (snd env1) !! Gateway.getExchangeKey exchangeId
               = Some exchange).
  { destruct env as [rt m]. unfold Gateway.getExchange in Hget.
    destruct (Gateway.exchanges m !! Gateway.getExchangeKey exchangeId) eqn:E.
    - injection Hget as <- <-. exact E.
    - destruct (Gateway.createExchange ccxt_exchanges create exchangeId (rt, Gateway.ccxt m))
        as [[ex|e] [rt' c]]; [|discriminate].
      injection Hget as <- <-. cbn [snd Gateway.exchanges]. apply lookup_insert_eq. }
  intros env2.
  assert (H2 : Gateway.exchanges (snd env2) !! Gateway.getExchangeKey exchangeId
               = Some exchange).
  { subst env2. clear Hget. revert env1 H1.
    induction others as [|other others IH]; intros env1 H1; [exact H1|].
    cbn [fold_left]. apply IH, Hkept, H1. }
  destruct env2 as [rt2 m2]. unfold Gateway.getExchange. cbn [snd] in H2.
  now rewrite H2.
Qed.

End WithCcxt.

End GatewayFacts.

(** * The properties at work, and where the specification is off *)

Module Examples.

Import ScanTheorems LimiterFacts CacheFacts.

(** The scan of the demo market finds one opportunity: buy on binance at
    100, sell on kraken at 200, 1000 units, 15 of withdrawal fee. *)
Lemma demo_scan_finds_one :
  map (fun opp => (buyExchange opp, sellExchange opp, netProfit opp)) (fst Demo.scan)
  = [("binance"%string, "kraken"%string, Num 85000)].
Proof. vm_compute. reflexivity. Qed.

(** C1 as stated fails on that scan: the opportunity has [netProfit]
    [(200 - 100 - 15) * 1000 = 85000], where the specification's formula
    gives [(200 - 100) * 1000 - 15 = 99985]. *)
Lemma netProfit_claim_counterexample :
  match fst Demo.scan with
  | [opp] =>
      eqv (netProfit opp) (Num 85000)
      /\ eqv (specified_netProfit opp) (Num 99985)
      /\ ~ eqv (netProfit opp) (specified_netProfit opp)
  | _ => False
  end.
Proof. vm_compute. repeat split; discriminate. Qed.

Lemma scanForArbitrage_netProfit_witness :
  Forall (fun opp =>
            eqv (netProfit opp)
                ((sellPrice opp - buyPrice opp - totalFees (fees opp))
                 * available (volume opp))%js
            /\ (sellPrice opp - buyPrice opp - totalFees (fees opp) >? Num 0)%js = true
            /\ (available (volume opp) >? Num 0)%js = true
            /\ (netProfit opp >=? Num 0)%js = true)
         (fst Demo.scan).
Proof.
  exact (scanForArbitrage_netProfit Demo.getExchange Demo.has_fetchTicker
           Demo.fetchTicker Demo.Math_random "BTC/USDT" ["binance"; "kraken"]%string
           Demo.config Demo.world).
Defined.

(** The other way round, selling on binance at 99 what was bought on
    kraken at 201, nothing is pushed. *)
Lemma scanForArbitrage_crossed_pairs_only_witness :
  consider "BTC/USDT" (merge_config Demo.config)
    (compared_at Demo.getExchange Demo.has_fetchTicker Demo.fetchTicker Demo.Math_random
       "BTC/USDT" ["binance"; "kraken"]%string Demo.world)
    Demo.kraken Demo.binance = None.
Proof.
  apply (proj2 (proj2 (scanForArbitrage_crossed_pairs_only Demo.getExchange
           Demo.has_fetchTicker Demo.fetchTicker Demo.Math_random "BTC/USDT"
           ["binance"; "kraken"]%string Demo.config Demo.world))).
  reflexivity.
Defined.

(** Zero spread, zero volume, the highest risk and cached quotes: the
    confidence is in range (it is 50). *)
Lemma riskScore_and_confidence_in_range_witness :
  between 0 100 (calculateConfidence (Num 0) (Num 0) (Num 10) true true).
Proof.
  apply (proj1 (proj2 (riskScore_and_confidence_in_range Demo.getExchange
           Demo.has_fetchTicker Demo.fetchTicker Demo.Math_random))
           0 10 (Num 0) true true).
  split; vm_compute; discriminate.
Defined.

(** C6 as stated fails: with a spread that is not a number the confidence
    is [NaN], which is not within [0, 100]. *)
Lemma confidence_claim_counterexample :
  calculateConfidence NaN (Num 0) (Num 1) false false = NaN
  /\ ~ between 0 100 (calculateConfidence NaN (Num 0) (Num 1) false false).
Proof. vm_compute. split; [reflexivity | intros []]. Qed.

Lemma startContinuousScanning_already_running_witness :
  startContinuousScanning Demo.getExchange Demo.has_fetchTicker Demo.fetchTicker
    Demo.Math_random Demo.config (fun _ => false) 3 (set_running true Demo.world)
  = (Rejected (Error_new "Scanner is already running"), set_running true Demo.world).
Proof.
  apply (startContinuousScanning_already_running Demo.getExchange Demo.has_fetchTicker
           Demo.fetchTicker Demo.Math_random).
  reflexivity.
Defined.

(** C3 as stated fails: an operation that fails five times in a row and
    then answers is not given up on.  The sixth attempt is made and its
    result returned; nothing is thrown. *)
Lemma five_failures_then_success :
  let script := map Threw (repeat Demo.timeout 5) ++ [Returned 42%nat] in
  let '(completion, lim, (_, rest)) :=
    executeWithBackoff Demo.Math_random "binance" scripted None Demo.idle
                       (Demo.start, script) in
  completion = Returned 42%nat
  /\ attempts (trace lim) = 6%nat
  /\ rest = [].
Proof. vm_compute. repeat split. Qed.

Lemma executeWithBackoff_max_retries_witness :
  exists lim' rt',
    executeWithBackoff Demo.Math_random "binance" scripted
      (Some "Fetching BTC/USDT ticker"%string) Demo.idle
      (Demo.start,
       map Threw (repeat Demo.timeout 5) ++ Threw (Error_new "still down")
       :: [Returned 42%nat])
    = (Threw (Error_new
                ("Max retries (5) exceeded for binance (Fetching BTC/USDT ticker). "
                 +:+ "Last error: still down")),
       lim', (rt', [Returned 42%nat]))
    /\ retry_count "binance" lim' = 0%nat
    /\ attempts (trace lim') = 6%nat.
Proof.
  destruct (executeWithBackoff_max_retries Demo.Math_random "binance"
              (Some "Fetching BTC/USDT ticker"%string) (repeat Demo.timeout 5)
              (Error_new "still down") Demo.idle Demo.start [Returned 42%nat])
    as (lim' & rt' & Hrun & Hrc & Hat & _).
  - reflexivity.
  - reflexivity.
  - repeat constructor.
  - exists lim', rt'. split; [exact Hrun|]. split; [exact Hrc | exact Hat].
Defined.

(** C4 as stated fails: after a first attempt that fails with an
    authentication error the error is thrown on, but the retry count of the
    venue is 0, not 1. *)
Lemma non_retryable_resets_retry_count :
  let '(completion, lim, _) :=
    executeWithBackoff Demo.Math_random "binance" scripted None Demo.idle
                       (Demo.start, [Threw (T := nat) Demo.bad_credentials]) in
  completion = Threw Demo.bad_credentials
  /\ retry_count "binance" lim = 0%nat
  /\ retry_count "binance" lim <> 1%nat.
Proof. vm_compute. repeat split. discriminate. Qed.

Lemma executeWithBackoff_non_retryable_witness :
  exists lim' rt',
    executeWithBackoff Demo.Math_random "binance" scripted None Demo.idle
      (Demo.start, map Threw [Demo.timeout] ++ Threw Demo.bad_credentials
                   :: [Returned 42%nat])
    = (Threw Demo.bad_credentials, lim', (rt', [Returned 42%nat]))
    /\ retry_count "binance" lim' = 0%nat
    /\ attempts (trace lim') = (attempts (trace Demo.idle) + 2)%nat.
Proof.
  apply (executeWithBackoff_non_retryable Demo.Math_random "binance" None
           [Demo.timeout] Demo.bad_credentials Demo.idle Demo.start [Returned 42%nat]).
  - reflexivity.
  - unfold maxRetries. cbn [length]. lia.
  - repeat constructor.
  - reflexivity.
Defined.

Lemma executeBatch_settled_list_witness :
  map success
    (fst (fst (executeBatch Demo.Math_random
       [ {| exchangeId := "binance"; operation := Demo.down; context := None |};
         {| exchangeId := "kraken"; operation := Demo.up; context := None |} ]
       Demo.idle (Demo.start, tt)))) = [false; true]
  /\ map success
    (fst (fst (executeBatch Demo.Math_random
       [ {| exchangeId := "binance"; operation := Demo.up; context := None |};
         {| exchangeId := "kraken"; operation := Demo.down; context := None |} ]
       Demo.idle (Demo.start, tt)))) = [true; false].
Proof.
  apply (proj2 (executeBatch_settled_list Demo.Math_random)).
  - intros env. eexists _, _. reflexivity.
  - intros env. eexists _, _. reflexivity.
Defined.

(** A ticker set at time 0 is returned at 9 s, after a read and a write of
    another key and a read of its own. *)
Lemma cache_expiry_and_round_trip_witness :
  fst (step (fun _ : nat => true) Ticker (OpGet "binance:BTC/USDT" 9000)
         (run (fun _ => true) Ticker
            ([] ++ OpSet "binance:BTC/USDT" 7%nat 0
             :: [ OpGet "kraken:BTC/USDT" 10;
                  OpSet "kraken:BTC/USDT" 8%nat 20;
                  OpGet "binance:BTC/USDT" 5000 ])
            empty_caches)) = Some 7%nat.
Proof.
  apply (proj2 (cache_expiry_and_round_trip (fun _ : nat => true) Ticker)).
  - repeat (apply List.Forall_cons; [split; [reflexivity | intros t [= <-]; lia] |]).
    apply List.Forall_nil.
  - unfold class_ttl, TICKER_TTL_MS. lia.
  - apply Nat.ltb_lt. reflexivity.
Defined.

(** C2 as stated fails twice.  A ticker set at time 0 and read at 9 s is
    still returned at 15 s, more than the 10 s TTL after it was inserted:
    the read reset its age.  And an order book set at time 0 is gone at
    2 ms, well within its TTL and never set again, once 200 other keys
    have filled the cache. *)
Lemma cache_claim_counterexample :
  fst (step (fun _ : nat => true) Ticker (OpGet "binance:BTC/USDT" 15000)
         (run (fun _ => true) Ticker
            [OpSet "binance:BTC/USDT" 7%nat 0; OpGet "binance:BTC/USDT" 9000]
            empty_caches)) = Some 7%nat
  /\ (15000 - 0 > class_ttl Ticker)%Z
  /\ fst (step (fun _ : nat => true) OrderBook (OpGet "binance:BTC/USDT" 2)
            (run (fun _ => true) OrderBook
               (OpSet "binance:BTC/USDT" 7%nat 0
                :: map (fun i => OpSet ("kraken:" +:+ pretty i) 0%nat 1) (seq 0 200))
               empty_caches)) = None
  /\ (2 - 0 <= class_ttl OrderBook)%Z.
Proof. vm_compute. repeat split; discriminate. Qed.

(** ** The further properties at concrete inputs *)

(** The third retry waits four seconds, with no jitter here. *)
Lemma calculateDelay_bounds_witness :
  let exponentialDelay := (2 ^ (Z.of_nat 3 - 1) * baseDelay)%Z in
  let delay := fst (calculateDelay Demo.Math_random 3 Demo.start) in
  (Z.min exponentialDelay maxDelay <= delay)%Z
  /\ (delay <= maxDelay)%Z
  /\ (delay <= exponentialDelay + 1000)%Z.
Proof.
  apply (LimiterFacts.calculateDelay_bounds Demo.Math_random 3 Demo.start).
  - lia.
  - vm_compute. discriminate.
  - reflexivity.
Defined.

Lemma executeWithBackoff_other_venues_witness :
  retryStates
    (snd (fst (executeWithBackoff Demo.Math_random "binance" Demo.down None Demo.idle
                 (Demo.start, tt))))
    !! "kraken"
  = retryStates Demo.idle !! "kraken".
Proof.
  apply (LimiterFacts.executeWithBackoff_other_venues Demo.Math_random "binance" Demo.down
           None Demo.idle (Demo.start, tt) "kraken").
  discriminate.
Defined.

(** Two timeouts, then an answer: three attempts, and a sleep of three
    seconds without jitter (of at most five with it). *)
Lemma executeWithBackoff_backoff_schedule_witness :
  exists lim' rt',
    executeWithBackoff Demo.Math_random "binance" scripted None Demo.idle
      (Demo.start, map Threw [Demo.timeout; Demo.timeout] ++ Returned 42%nat :: [])
    = (Returned 42%nat, lim', (rt', []))
    /\ retry_count "binance" lim' = 0%nat
    /\ attempts (trace lim')
       = (attempts (trace Demo.idle) + length [Demo.timeout; Demo.timeout] + 1)%nat
    /\ let k := Z.of_nat (length [Demo.timeout; Demo.timeout]) in
       ((2 ^ k - 1) * 1000 <= clock rt' - clock Demo.start
        <= (2 ^ k - 1) * 1000 + 1000 * k)%Z.
Proof.
  apply (LimiterFacts.executeWithBackoff_backoff_schedule Demo.Math_random).
  - intros k. split; [vm_compute; discriminate | reflexivity].
  - reflexivity.
  - repeat constructor.
  - unfold maxRetries. cbn [length]. lia.
Defined.

Lemma executeBatch_order_distinct_venues_witness :
  Forall2 (entry_of Demo.Math_random)
    [ {| exchangeId := "binance"; operation := Demo.down; context := None |};
      {| exchangeId := "kraken"; operation := Demo.up; context := None |} ]
    (fst (fst (executeBatch Demo.Math_random
       [ {| exchangeId := "binance"; operation := Demo.down; context := None |};
         {| exchangeId := "kraken"; operation := Demo.up; context := None |} ]
       Demo.idle (Demo.start, tt)))).
Proof.
  apply (LimiterFacts.executeBatch_order_distinct_venues Demo.Math_random).
  cbn [map exchangeId].
  apply List.NoDup_cons; [intros [H|[]]; discriminate H|].
  apply List.NoDup_cons; [intros []|]. apply List.NoDup_nil.
Defined.

(** A batch for binance, kraken and binance again runs as the first, the
    third and then the second operation. *)
Lemma by_venue_interleaved :
  map context
    (by_venue
       [ {| exchangeId := "binance"; operation := Demo.up; context := Some "1"%string |};
         {| exchangeId := "kraken"; operation := Demo.up; context := Some "2"%string |};
         {| exchangeId := "binance"; operation := Demo.up; context := Some "3"%string |} ])
  = [Some "1"; Some "3"; Some "2"]%string.
Proof. reflexivity. Qed.

(** Lookups of tickers leave the counters and the entries of the order
    books alone. *)
Lemma cache_counters_witness :
  let m := run (fun _ : nat => true) Ticker
             [OpSet "binance:BTC/USDT" 7%nat 0; OpGet "binance:BTC/USDT" 5;
              OpGet "kraken:BTC/USDT" 6] empty_caches in
  metrics m OrderBook = metrics (V := nat) empty_caches OrderBook
  /\ cache_of OrderBook m = cache_of (V := nat) OrderBook empty_caches.
Proof.
  apply (proj2 (proj2 (CacheFacts.cache_counters (fun _ : nat => true) Ticker
           [OpSet "binance:BTC/USDT" 7%nat 0; OpGet "binance:BTC/USDT" 5;
            OpGet "kraken:BTC/USDT" 6] empty_caches))).
  discriminate.
Defined.

Lemma validateSymbol_normal_form_witness :
  Validation.free_of ":" "BTC/USDT" /\ Validation.no_space "BTC/USDT"
  /\ (String.length "BTC/USDT" <= String.length "btc usdt")%nat
  /\ Validation.validateSymbol "BTC/USDT" = Returned "BTC/USDT"%string.
Proof.
  apply (ValidationFacts.validateSymbol_normal_form "btc usdt" "BTC/USDT").
  - reflexivity.
  - reflexivity.
Defined.

(** [btc:usdt] and [BTC USDT] are the same symbol once validated, and so
    share their key. *)
Lemma validated_cache_keys_distinct_witness :
  "binance"%string = "binance"%string /\ "BTC/USDT"%string = "BTC/USDT"%string
  /\ (Some "100"%string = Some "100"%string
      \/ (no_extra (Some "100"%string) /\ no_extra (Some "100"%string))).
Proof.
  apply (ValidationFacts.validated_cache_keys_distinct "binance" "binance"
           "btc:usdt" "BTC USDT" "BTC/USDT" "BTC/USDT" (Some "100"%string)
           (Some "100"%string)); reflexivity.
Defined.

Lemma validateLimit_range_witness :
  exists n : Z, Num 50 = Num (inject_Z n) /\ (1 <= n <= 1000)%Z
                /\ inject_Z n <= 50.5 /\ 50.5 < inject_Z n + 1.
Proof.
  apply (proj1 (ValidationFacts.validateLimit_range 1000) 50.5 (Num 50)).
  reflexivity.
Defined.

(** Five items, two to a page: three pages. *)
Lemma paginated_pages_witness :
  concat (map (fun p => Formatter.page_items [1; 2; 3; 4; 5]%nat (inject_Z (Z.of_nat p))
                          (inject_Z (Z.of_nat 2)))
              (seq 1 ((length [1; 2; 3; 4; 5]%nat + 2 - 1) / 2)%nat))
  = [1; 2; 3; 4; 5]%nat.
Proof.
  apply (proj1 (proj2 (FormatterFacts.paginated_pages [1; 2; 3; 4; 5]%nat 2 "binance"
                         None 0 ltac:(lia)))).
Defined.

Lemma calculateArbitrageFees_proper_witness :
  let f := calculateArbitrageFees "binance" "kraken" (Num 100) (Num 200) true in
  exists bf sf wf,
    buyFee f = Num bf /\ sellFee f = Num sf /\ withdrawalFee f = Num wf
    /\ totalFees f = Num (bf + sf + wf)
    /\ 0.0002 * 100 <= bf /\ bf <= 0.006 * 100
    /\ 0.0002 * 200 <= sf /\ sf <= 0.006 * 200
    /\ 0 <= wf /\ wf <= 25
    /\ (true && negb (String.eqb "binance" "kraken") = false -> wf == 0).
Proof.
  apply (FeesFacts.calculateArbitrageFees_proper "binance" "kraken" 100 200 true).
  - reflexivity.
  - reflexivity.
  - vm_compute. discriminate.
  - vm_compute. discriminate.
Defined.

Lemma scanForArbitrage_needs_two_venues_witness :
  fst (scanForArbitrage Demo.getExchange Demo.has_fetchTicker Demo.fetchTicker
         Demo.Math_random "BTC/USDT" ["binance"]%string Demo.config Demo.world) = [].
Proof.
  apply (ScanProperties.scanForArbitrage_needs_two_venues Demo.getExchange
           Demo.has_fetchTicker Demo.fetchTicker Demo.Math_random).
  cbn [length]. lia.
Defined.


Lemma getStats_topOpportunity_witness :
  let sc := scanner (snd Demo.scan) in
  Permutation (getOpportunities sc) (map snd (opportunities sc))
  /\ StronglySorted descending (getOpportunities sc)
  /\ ScannerStats.totalOpportunities (getStats sc) = length (opportunities sc)
  /\ match ScannerStats.topOpportunity (getStats sc) with
     | None => opportunities sc = []
     | Some top =>
         In top (map snd (opportunities sc))
         /\ Forall (descending top) (map snd (opportunities sc))
     end.
Proof.
  apply (ScanProperties.getStats_topOpportunity (scanner (snd Demo.scan))).
  vm_compute. repeat constructor.
Defined.

(** What the demo scan found is still there a minute later and gone after
    six. *)
Lemma clearOldOpportunities_after_scan_witness :
  Forall (fun opp =>
            let sc := scanner (snd Demo.scan) in
            (exists stored, In (id opp, stored) (opportunities sc))
            /\ forall stored,
                 In (id opp, stored) (opportunities sc) ->
                 (In (id opp, stored)
                     (opportunities
                        (clearOldOpportunities (option_map Num None) 1700000060000 sc))
                  <-> inject_Z (1700000060000
                                - compared_at Demo.getExchange Demo.has_fetchTicker
                                    Demo.fetchTicker Demo.Math_random "BTC/USDT"
                                    ["binance"; "kraken"]%string Demo.world)
                      <= default 300000 None))
         (fst Demo.scan).
Proof.
  apply List.Forall_forall. intros opp Hin.
  apply (ScanProperties.clearOldOpportunities_after_scan Demo.getExchange
           Demo.has_fetchTicker Demo.fetchTicker Demo.Math_random "BTC/USDT"
           ["binance"; "kraken"]%string Demo.config Demo.world None 1700000060000 opp).
  - vm_compute. discriminate.
  - exact Hin.
Defined.

(** A 60% win rate with wins twice the losses: the 2% cap holds. *)
Lemma calculatePositionSize_capped_witness :
  exists ps k,
    Risk.calculatePositionSize (Num 10000) (Num 100) (Num 60) (Num 200) (Num 100)
      (option_map Num None) (option_map Num None) (option_map Num None)
    = Returned ps
    /\ 0 <= k /\ k <= 0.02
    /\ Risk.PositionSize.percentOfCapital ps = Num (k * 100)
    /\ Risk.PositionSize.value ps = Num (10000 * k)
    /\ Risk.PositionSize.amount ps = Num (10000 * k / 100)
    /\ Risk.PositionSize.riskAmount ps = Num (10000 * k * default 0.02 None)
    /\ Risk.PositionSize.stopLoss ps = Num (100 * (1 - default 0.02 None))
    /\ Risk.PositionSize.takeProfit ps
       = Num (100 * (1 + default 0.02 None * default 2 None)).
Proof.
  apply (RiskFacts.calculatePositionSize_capped 10000 100 60 200 100 None None None).
  - reflexivity.
  - reflexivity.
  - vm_compute. discriminate.
  - vm_compute. discriminate.
  - vm_compute. discriminate.
  - vm_compute. discriminate.
  - intros _. split; vm_compute; discriminate.
  - vm_compute. discriminate.
Defined.

Lemma dynamic_stop_and_target_witness :
  let stop :=
    Risk.calculateDynamicStopLoss (Num 100) (Num 5) (option_map Num None) (Some Risk.sell) in
  let target :=
    Risk.calculateDynamicTakeProfit (Num 100) stop (option_map Num (Some 3))
      (Some Risk.sell) in
  exists s t,
    stop = Num s /\ target = Num t
    /\ match default Risk.buy (Some Risk.sell) with
       | Risk.buy => s <= 100 /\ 100 <= t
       | Risk.sell => t <= 100 /\ 100 <= s
       end.
Proof.
  apply (RiskFacts.dynamic_stop_and_target 100 5 None (Some 3) (Some Risk.sell)).
  - reflexivity.
  - reflexivity.
Defined.

Lemma calculatePerformance_in_range_witness :
  let trade profit :=
    {| Risk.Trade.id := "t"; Risk.Trade.symbol := "BTC/USDT"; Risk.Trade.side := Risk.buy;
       Risk.Trade.entryPrice := Num 100; Risk.Trade.exitPrice := None;
       Risk.Trade.amount := Num 1; Risk.Trade.profit := profit;
       Risk.Trade.profitPercent := None; Risk.Trade.timestamp := 0;
       Risk.Trade.exchange := "binance" |} in
  let trades := [trade (Some (Num 30)); trade (Some (Num (-10))); trade None] in
  let perf := Risk.calculatePerformance (fun x => x) trades in
  exists wr aw al plr dd k,
    Risk.totalTrades perf = length trades
    /\ (Risk.winningTrades perf + Risk.losingTrades perf <= Risk.totalTrades perf)%nat
    /\ Risk.winRate perf = Num wr /\ 0 <= wr /\ wr <= 100
    /\ Risk.avgWin perf = Num aw /\ 0 <= aw
    /\ Risk.avgLoss perf = Num al /\ 0 <= al
    /\ Risk.profitLossRatio perf = Num plr /\ 0 <= plr
    /\ Risk.maxDrawdown perf = Num dd /\ 0 <= dd
    /\ Risk.kellyPercent perf = Num k /\ 0 <= k /\ k <= 25
    /\ Risk.expectancy perf = Num (wr / 100 * aw - (1 - wr / 100) * al).
Proof.
  intros trade trades.
  apply (RiskFacts.calculatePerformance_in_range (fun x => x) trades).
  - repeat (apply List.Forall_cons;
            [first [exact I | right; split; vm_compute; discriminate]|]).
    apply List.Forall_nil.
  - apply List.Exists_cons_hd. reflexivity.
Defined.

(** A venue ccxt does not know, asked for through the limiter. *)
Lemma unsupported_venue_not_retried_witness :
  exists e lim',
    executeWithBackoff Demo.Math_random "mtgox"
      (Gateway.with_exchange ["binance"; "kraken"]%string
         (fun id (env : Runtime * unit) => (id, env)) "mtgox"
         (fun _ env => (Returned 1%nat, env)))
      None Demo.idle
      (Demo.start, {| Gateway.exchanges := ∅; Gateway.ccxt := tt |})
    = (Threw e, lim', (Demo.start, {| Gateway.exchanges := ∅; Gateway.ccxt := tt |}))
    /\ code e = Some "TAPS001"%string
    /\ trace lim' = trace Demo.idle ++ [EvAttempt "mtgox"]
    /\ retry_count "mtgox" lim' = 0%nat.
Proof.
  apply (GatewayFacts.unsupported_venue_not_retried Demo.Math_random
           ["binance"; "kraken"]%string (fun id (env : Runtime * unit) => (id, env))
           "mtgox" (fun _ env => (Returned 1%nat, env)) None Demo.idle Demo.start
           {| Gateway.exchanges := ∅; Gateway.ccxt := tt |}).
  - reflexivity.
  - reflexivity.
  - reflexivity.
Defined.

Lemma getExchange_instance_kept_witness :
  let getExchange :=
    Gateway.getExchange ["binance"; "kraken"]%string
      (fun id (env : Runtime * unit) => (id, env)) in
  let env := (Demo.start, {| Gateway.exchanges := ∅; Gateway.ccxt := tt |}) in
  let env2 :=
    fold_left (fun env other => snd (getExchange other env)) ["kraken"; "mtgox"]%string
              (snd (getExchange "binance" env)) in
  getExchange "binance" env2 = (Returned "binance"%string, env2).
Proof.
  intros getExchange env.
  apply (GatewayFacts.getExchange_instance_kept ["binance"; "kraken"]%string
           (fun id (env : Runtime * unit) => (id, env)) "binance"
           ["kraken"; "mtgox"]%string env (snd (getExchange "binance" env)) "binance").
  reflexivity.
Defined.

End Examples.
